(** * String Analyzer (HNGi13 stage 1): the analyser, the store and the routes

    A shallow embedding of [src/server.js] and of its sibling
    [src/unnamed/part_000] (the same service mounted under [/api/v1]).

    - A JavaScript string is the list of its UTF-16 code units.
    - The [Map] that holds the records is an association list in insertion
      order, which is the order [Array.from(store.values())] enumerates.
    - A handler is a function from the store and the request to the new store
      and the response.
    - [String.prototype.toLowerCase] follows the Unicode tables of the host;
      the development is parametric in it ([Host]).  What the ECMAScript
      standard fixes without tables (white space, [Number], the string
      iterator, [includes], the three regular expressions) and SHA-256 are
      written out. *)

From Stdlib Require Import String Ascii List Bool Arith NArith ZArith QArith Lia.
Import ListNotations.
Set Warnings "-register-all".
Local Close Scope Q_scope.
Local Open Scope N_scope.

(* ================================================================== *)
(** * Part I.  Definitions                                             *)
(* ================================================================== *)

(** ** JavaScript strings *)

Definition code_unit := N.
Definition jsstring := list code_unit.

(** A literal of the source, as code units (the literals are all ASCII). *)
Definition js (s : string) : jsstring :=
  map N_of_ascii (list_ascii_of_string s).
Arguments js s%_string.

(** [a === b] on strings. *)
Fixpoint jseqb (a b : jsstring) : bool :=
  match a, b with
  | [], [] => true
  | x :: a', y :: b' => (x =? y) && jseqb a' b'
  | _, _ => false
  end.

Fixpoint startsWith (s search : jsstring) : bool :=
  match search, s with
  | [], _ => true
  | x :: search', y :: s' => (x =? y) && startsWith s' search'
  | _ :: _, [] => false
  end.

(** [s.includes(search)]: [search] occurs in [s] at some position. *)
Fixpoint includes (s search : jsstring) : bool :=
  startsWith s search ||
  match s with
  | [] => false
  | _ :: s' => includes s' search
  end.

(** WhiteSpace and LineTerminator of the standard: the set both
    [String.prototype.trim] and the class [\s] use. *)
Definition isWhiteSpace (c : code_unit) : bool :=
  ((9 <=? c) && (c <=? 13)) || (c =? 32) || (c =? 160) || (c =? 0x1680)
  || ((0x2000 <=? c) && (c <=? 0x200A)) || (c =? 0x2028) || (c =? 0x2029)
  || (c =? 0x202F) || (c =? 0x205F) || (c =? 0x3000) || (c =? 0xFEFF).

Fixpoint trimStart (s : jsstring) : jsstring :=
  match s with
  | [] => []
  | c :: s' => if isWhiteSpace c then trimStart s' else s
  end.

Definition trimEnd (s : jsstring) : jsstring := rev (trimStart (rev s)).

Definition trim (s : jsstring) : jsstring := trimEnd (trimStart s).

(** [s.split(/\s+/)].  The pieces lie between the maximal runs of white
    space; a run at either end leaves an empty piece there, and the empty
    string splits into one empty piece.  [inrun] says that the scan is inside
    a run, [piece] is the current piece, reversed. *)
Fixpoint split_ws (inrun : bool) (piece s : jsstring) : list jsstring :=
  match s with
  | [] => [rev piece]
  | c :: s' =>
      if isWhiteSpace c
      then if inrun then split_ws true [] s'
           else rev piece :: split_ws true [] s'
      else split_ws false (c :: piece) s'
  end.

Definition split_whitespace (s : jsstring) : list jsstring := split_ws false [] s.

(** ** The character class of [sanitizeForPalindrome]

    [/[^0-9a-z]/gi] has flag [i] and not [u]: a code unit [ch] is in the class
    [[0-9a-z]] when [Canonicalize(a) = Canonicalize(ch)] for a member [a] of
    the ranges.  [Canonicalize] is the upper-case mapping, except that it
    never maps a code unit from 128 up to one below 128; the members are
    ASCII, so only ASCII code units meet them. *)

Definition isDigit (c : code_unit) : bool := (48 <=? c) && (c <=? 57).
Definition isLower (c : code_unit) : bool := (97 <=? c) && (c <=? 122).
Definition isUpper (c : code_unit) : bool := (65 <=? c) && (c <=? 90).

Definition asciiUpper (c : code_unit) : code_unit :=
  if isLower c then c - 32 else c.

Definition asciiLower (c : code_unit) : code_unit :=
  if isUpper c then c + 32 else c.

Definition range (lo hi : code_unit) : list code_unit :=
  map N.of_nat (seq (N.to_nat lo) (N.to_nat hi + 1 - N.to_nat lo)).

Definition inRange_i (lo hi ch : code_unit) : bool :=
  (ch <? 128) && existsb (fun a => asciiUpper a =? asciiUpper ch) (range lo hi).

(** [ch] matches [[^0-9a-z]] under flag [i]. *)
Definition nonAlnum_i (ch : code_unit) : bool :=
  negb (inRange_i 48 57 ch || inRange_i 97 122 ch).

(** ** The string iterator ([for (const ch of value)])

    A high surrogate followed by a low surrogate is one element of two code
    units; every other code unit, a lone surrogate too, is an element. *)

Definition isHighSurrogate (c : code_unit) : bool := (0xD800 <=? c) && (c <=? 0xDBFF).
Definition isLowSurrogate (c : code_unit) : bool := (0xDC00 <=? c) && (c <=? 0xDFFF).

Fixpoint codePoints (s : jsstring) : list jsstring :=
  match s with
  | [] => []
  | c :: s' =>
      match s' with
      | d :: s'' =>
          if isHighSurrogate c && isLowSurrogate d
          then [c; d] :: codePoints s''
          else [c] :: codePoints s'
      | [] => [[c]]
      end
  end.

(** ** Keyed collections: the [Map] of records and the frequency object

    Both keep their keys in insertion order; writing an existing key keeps
    its place. *)

Section Keyed.
Variable V : Type.

Definition alist := list (jsstring * V).

Fixpoint Map_get (m : alist) (k : jsstring) : option V :=
  match m with
  | [] => None
  | (k', v) :: m' => if jseqb k k' then Some v else Map_get m' k
  end.

Definition Map_has (m : alist) (k : jsstring) : bool :=
  match Map_get m k with Some _ => true | None => false end.

Fixpoint Map_set (m : alist) (k : jsstring) (v : V) : alist :=
  match m with
  | [] => [(k, v)]
  | (k', v') :: m' =>
      if jseqb k k' then (k', v) :: m' else (k', v') :: Map_set m' k v
  end.

Definition Map_delete (m : alist) (k : jsstring) : alist :=
  filter (fun kv => negb (jseqb k (fst kv))) m.

Definition Map_values (m : alist) : list V := map snd m.

Definition Map_keys (m : alist) : list jsstring := map fst m.
End Keyed.

Arguments Map_get {V} m k.
Arguments Map_has {V} m k.
Arguments Map_set {V} m k v.
Arguments Map_delete {V} m k.
Arguments Map_values {V} m.
Arguments Map_keys {V} m.

(** ** [sha256Hex]: SHA-256 of the UTF-8 bytes, in lower-case hex

    [crypto.createHash("sha256").update(s, "utf8").digest("hex")].  The UTF-8
    encoder writes U+FFFD for a lone surrogate. *)

Definition utf8_of_scalar (cp : N) : list N :=
  if cp <? 0x80 then [cp]
  else if cp <? 0x800 then [0xC0 + cp / 64; 0x80 + cp mod 64]
  else if cp <? 0x10000
       then [0xE0 + cp / 4096; 0x80 + (cp / 64) mod 64; 0x80 + cp mod 64]
       else [0xF0 + cp / 262144; 0x80 + (cp / 4096) mod 64;
             0x80 + (cp / 64) mod 64; 0x80 + cp mod 64].

Definition scalar_of (ch : jsstring) : N :=
  match ch with
  | [hi; lo] => 0x10000 + (hi - 0xD800) * 0x400 + (lo - 0xDC00)
  | [c] => if isHighSurrogate c || isLowSurrogate c then 0xFFFD else c
  | _ => 0xFFFD
  end.

Definition utf8 (s : jsstring) : list N :=
  flat_map (fun ch => utf8_of_scalar (scalar_of ch)) (codePoints s).

Module SHA256.

Definition w32 (x : N) : N := x mod 0x100000000.
Definition rotr (n x : N) : N := w32 (N.lor (N.shiftr x n) (N.shiftl x (32 - n))).
Definition shr (n x : N) : N := N.shiftr x n.
Definition lnot32 (x : N) : N := N.lxor x 0xFFFFFFFF.
Definition Ch (x y z : N) : N := N.lxor (N.land x y) (N.land (lnot32 x) z).
Definition Maj (x y z : N) : N :=
  N.lxor (N.lxor (N.land x y) (N.land x z)) (N.land y z).
Definition bsig0 (x : N) : N := N.lxor (N.lxor (rotr 2 x) (rotr 13 x)) (rotr 22 x).
Definition bsig1 (x : N) : N := N.lxor (N.lxor (rotr 6 x) (rotr 11 x)) (rotr 25 x).
Definition ssig0 (x : N) : N := N.lxor (N.lxor (rotr 7 x) (rotr 18 x)) (shr 3 x).
Definition ssig1 (x : N) : N := N.lxor (N.lxor (rotr 17 x) (rotr 19 x)) (shr 10 x).

(** The constants of the standard: the first 32 bits of the fractional parts
    of the cube roots (for [K]) and of the square roots (for [H0]) of the
    first primes. *)
Definition isPrime (n : N) : bool :=
  (2 <=? n) && forallb (fun d => negb (n mod d =? 0)) (range 2 (n - 1)).

Definition primes (n : nat) : list N := firstn n (filter isPrime (range 2 311)).

(** The integer cube root, one bit at a time from bit [bits - 1] down. *)
Fixpoint cbrt_bits (bits : nat) (n r : N) : N :=
  match bits with
  | O => r
  | S b =>
      let r' := r + 2 ^ N.of_nat b in
      cbrt_bits b n (if r' * r' * r' <=? n then r' else r)
  end.

Definition K : list N :=
  Eval vm_compute in map (fun p => w32 (cbrt_bits 48 (p * 2 ^ 96) 0)) (primes 64).

Definition H0 : list N :=
  Eval vm_compute in map (fun p => w32 (N.sqrt (p * 2 ^ 64))) (primes 8).

(** [n] bytes of [x], most significant first. *)
Fixpoint be_bytes (n : nat) (x : N) : list N :=
  match n with
  | O => []
  | S n' => be_bytes n' (x / 256) ++ [x mod 256]
  end.

Definition pad (msg : list N) : list N :=
  let l := length msg in
  msg ++ [0x80] ++ repeat 0 ((119 - l mod 64) mod 64)
      ++ be_bytes 8 (8 * N.of_nat l).

Fixpoint be_word (bs : list N) (acc : N) : N :=
  match bs with
  | [] => acc
  | b :: bs' => be_word bs' (acc * 256 + b)
  end.

(** The first [n] big-endian words of four bytes. *)
Fixpoint words (n : nat) (bs : list N) : list N :=
  match n with
  | O => []
  | S n' => be_word (firstn 4 bs) 0 :: words n' (skipn 4 bs)
  end.

(** The message schedule, latest word first while it grows. *)
Fixpoint schedule (n : nat) (wrev : list N) : list N :=
  match n with
  | O => rev wrev
  | S n' =>
      schedule n'
        (w32 (ssig1 (nth 1 wrev 0) + nth 6 wrev 0
              + ssig0 (nth 14 wrev 0) + nth 15 wrev 0) :: wrev)
  end.

Definition round (st : list N) (kw : N * N) : list N :=
  match st with
  | [a; b; c; d; e; f; g; h] =>
      let t1 := h + bsig1 e + Ch e f g + fst kw + snd kw in
      let t2 := bsig0 a + Maj a b c in
      [w32 (t1 + t2); a; b; c; w32 (d + t1); e; f; g]
  | _ => st
  end.

Definition compress (h : list N) (block : list N) : list N :=
  let w := schedule 48 (rev (words 16 block)) in
  map (fun p => w32 (fst p + snd p))
      (combine h (fold_left round (combine K w) h)).

Fixpoint blocks (n : nat) (h : list N) (bs : list N) : list N :=
  match n with
  | O => h
  | S n' => blocks n' (compress h (firstn 64 bs)) (skipn 64 bs)
  end.

Definition digest (msg : list N) : list N :=
  let p := pad msg in
  flat_map (be_bytes 4) (blocks (length p / 64) H0 p).

End SHA256.

Definition hexDigit (d : N) : code_unit := if d <? 10 then 48 + d else 87 + d.

Definition hex (bytes : list N) : jsstring :=
  flat_map (fun b => [hexDigit (b / 16); hexDigit (b mod 16)]) bytes.

Definition sha256Hex (s : jsstring) : jsstring := hex (SHA256.digest (utf8 s)).

(** ** The host

    [String.prototype.toLowerCase] maps through the Unicode case tables of
    the JavaScript engine, which are not part of the repository. *)

Class Host := { toLowerCase : jsstring -> jsstring }.

(** The ASCII fragment of the tables, which every engine agrees on: the host
    at which the closed examples are evaluated. *)
Definition asciiHost : Host := {| toLowerCase := map asciiLower |}.

(** ** The analysis record *)

Module Analysis.
Record record := mk {
  string : jsstring;
  length : nat;
  isPalindrome : bool;
  wordCount : nat;
  uniqueCharacters : nat;
  characterFrequency : alist nat;
  sha256 : jsstring
}.
End Analysis.

(** [s.split("")] and [a.join("")]. *)
Definition split_chars (s : jsstring) : list jsstring := map (fun c => [c]) s.
Definition join (a : list jsstring) : jsstring := concat a.

(** [x || 0] for the count read from the frequency object. *)
Definition or_zero (x : option nat) : nat :=
  match x with Some n => n | None => O end.

(** [characterFrequency[ch] = (characterFrequency[ch] || 0) + 1]. *)
Definition count_char (freq : alist nat) (ch : jsstring) : alist nat :=
  Map_set freq ch (or_zero (Map_get freq ch) + 1)%nat.

Section Analyser.
Context {host : Host}.

Definition sanitizeForPalindrome (s : jsstring) : jsstring :=
  toLowerCase (filter (fun ch => negb (nonAlnum_i ch)) s).

Definition analyse (value : jsstring) : Analysis.record :=
  let length := List.length value in
  let words :=
    if (List.length (trim value) =? 0)%nat then []
    else split_whitespace (trim value) in
  let wordCount := List.length words in
  let cleaned := sanitizeForPalindrome value in
  let isPalindrome :=
    (0 <? List.length cleaned)%nat
    && jseqb cleaned (join (rev (split_chars cleaned))) in
  let characterFrequency := fold_left count_char (codePoints value) [] in
  let uniqueCharacters := List.length (Map_keys characterFrequency) in
  let hash := sha256Hex value in
  {| Analysis.string := value;
     Analysis.length := length;
     Analysis.isPalindrome := isPalindrome;
     Analysis.wordCount := wordCount;
     Analysis.uniqueCharacters := uniqueCharacters;
     Analysis.characterFrequency := characterFrequency;
     Analysis.sha256 := hash |}.
End Analyser.

(** ** Numbers

    A Number is NaN, an infinity or a finite double, kept as the rational it
    denotes (both zeros are [Finite 0]: no comparison of the source tells them
    apart). *)

Inductive number :=
| NaN
| Infinity (negative : bool)
| Finite (q : Q).

(** [Number.isFinite(n)]. *)
Definition isFinite (n : number) : bool :=
  match n with Finite _ => true | _ => false end.

(** A length or a count as a Number. *)
Definition ofNat (k : nat) : number := Finite (inject_Z (Z.of_nat k)).

(** [a < b], [a <= b] and [a === b] on Numbers; [a > b] is [num_lt b a] and
    [a >= b] is [num_le b a]. *)
Definition num_lt (a b : number) : bool :=
  match a, b with
  | Finite x, Finite y => negb (Qle_bool y x)
  | Finite _, Infinity neg => negb neg
  | Infinity neg, Finite _ => neg
  | Infinity na, Infinity nb => na && negb nb
  | _, _ => false
  end.

Definition num_le (a b : number) : bool :=
  match a, b with
  | Finite x, Finite y => Qle_bool x y
  | Finite _, Infinity neg => negb neg
  | Infinity neg, Finite _ => neg
  | Infinity na, Infinity nb => na || negb nb
  | _, _ => false
  end.

Definition num_eq (a b : number) : bool :=
  match a, b with
  | Finite x, Finite y => Qeq_bool x y
  | Infinity na, Infinity nb => Bool.eqb na nb
  | _, _ => false
  end.

Section Rounding.
Local Open Scope Z_scope.

(** The integer nearest to [num / den], ties to even ([0 <= num], [0 < den]). *)
Definition roundHalfEven (num den : Z) : Z :=
  let q := num / den in
  let r := num mod den in
  match 2 * r ?= den with
  | Lt => q
  | Gt => q + 1
  | Eq => if Z.even q then q else q + 1
  end.

(** [num / den] divided by [2 ^ e], as a fraction. *)
Definition scale2 (e num den : Z) : Z * Z :=
  if 0 <=? e then (num, den * 2 ^ e) else (num * 2 ^ (- e), den).

(** The double nearest to [p / q] for [0 < p] and [0 < q]: 53 bits of
    mantissa, exponents down to the subnormal [-1074], overflow to
    [Infinity] from [2 ^ 1024]. *)
Definition double_of_pos (p q : Z) : number :=
  let d := Z.log2 p - Z.log2 q in
  let '(n1, d1) := scale2 d p q in
  let e0 := if n1 <? d1 then d - 1 else d in
  let e := Z.max (e0 - 52) (-1074) in
  let '(n2, d2) := scale2 e p q in
  let m := roundHalfEven n2 d2 in
  if 0 <=? e
  then if 2 ^ 1024 <=? m * 2 ^ e then Infinity false
       else Finite (inject_Z (m * 2 ^ e))
  else Finite (Qred (m # Z.to_pos (2 ^ (- e)))).

Definition toDouble (neg : bool) (p q : Z) : number :=
  if p =? 0 then Finite 0
  else match double_of_pos p q with
       | Finite v => Finite (if neg then Qopp v else v)
       | Infinity _ => Infinity neg
       | NaN => NaN
       end.

(** The Number of mantissa [m] times ten to the [e]. *)
Definition roundMV (neg : bool) (m e : Z) : number :=
  if 0 <=? e then toDouble neg (m * 10 ^ e) 1 else toDouble neg m (10 ^ (- e)).
End Rounding.

(** ** [Number(v)] on a string (StringToNumber of the standard) *)

Fixpoint span (p : code_unit -> bool) (s : jsstring) : jsstring * jsstring :=
  match s with
  | [] => ([], [])
  | c :: s' =>
      if p c then let '(a, b) := span p s' in (c :: a, b) else ([], s)
  end.

Definition isNil (s : jsstring) : bool :=
  match s with [] => true | _ => false end.

Definition isHexDigit (c : code_unit) : bool :=
  isDigit c || ((97 <=? c) && (c <=? 102)) || ((65 <=? c) && (c <=? 70)).
Definition isOctalDigit (c : code_unit) : bool := (48 <=? c) && (c <=? 55).
Definition isBinaryDigit (c : code_unit) : bool := (48 <=? c) && (c <=? 49).

Definition digitOf (c : code_unit) : Z :=
  Z.of_N (if isDigit c then c - 48 else if isLower c then c - 87 else c - 55).

Definition digitsValue (base : Z) (ds : jsstring) : Z :=
  fold_left (fun acc d => (acc * base + digitOf d)%Z) ds 0%Z.

(** A leading sign: [-] is 45 and [+] is 43. *)
Definition takeSign (s : jsstring) : bool * jsstring :=
  match s with
  | c :: r => if c =? 45 then (true, r) else if c =? 43 then (false, r) else (false, s)
  | [] => (false, [])
  end.

(** What follows the mantissa: nothing, or [e] or [E], a sign and digits. *)
Definition parseExponent (s : jsstring) : option Z :=
  match s with
  | [] => Some 0%Z
  | c :: r =>
      if (c =? 101) || (c =? 69)
      then let '(neg, r') := takeSign r in
           let '(ds, rest) := span isDigit r' in
           if negb (isNil ds) && isNil rest
           then Some (if neg then (- digitsValue 10 ds)%Z else digitsValue 10 ds)
           else None
      else None
  end.

(** StrUnsignedDecimalLiteral but [Infinity]: mantissa and decimal exponent. *)
Definition parseUnsignedDecimal (s : jsstring) : option (Z * Z) :=
  let '(ip, r1) := span isDigit s in
  let '(fp, r2) :=
    match r1 with
    | c :: r => if c =? 46 then span isDigit r else ([], r1)
    | [] => ([], [])
    end in
  if isNil ip && isNil fp then None
  else match parseExponent r2 with
       | Some e => Some (digitsValue 10 (ip ++ fp), (e - Z.of_nat (length fp))%Z)
       | None => None
       end.

Definition parseDecimal (s : jsstring) : number :=
  let '(neg, u) := takeSign s in
  if jseqb u (js "Infinity") then Infinity neg
  else match parseUnsignedDecimal u with
       | Some (m, e) => roundMV neg m e
       | None => NaN
       end.

(** [0x], [0o] and [0b] literals, which take no sign. *)
Definition parseNonDecimal (s : jsstring) : option number :=
  match s with
  | zero :: c :: ds =>
      let lit (ok : code_unit -> bool) (base : Z) :=
        if negb (isNil ds) && forallb ok ds
        then Some (toDouble false (digitsValue base ds) 1) else None in
      if negb (zero =? 48) then None
      else if (c =? 120) || (c =? 88) then lit isHexDigit 16%Z
      else if (c =? 111) || (c =? 79) then lit isOctalDigit 8%Z
      else if (c =? 98) || (c =? 66) then lit isBinaryDigit 2%Z
      else None
  | _ => None
  end.

Definition StringToNumber (s : jsstring) : number :=
  match trim s with
  | [] => Finite 0
  | t => match parseNonDecimal t with
         | Some n => n
         | None => parseDecimal t
         end
  end.

(** ** Query values

    [req.query] is parsed by [qs], which Express 4 calls with
    [allowPrototypes] on: a parameter is a string, an array ([a=1&a=2]) or
    an object ([a[b]=1]), and an object may own a key that shadows a property
    of [Object.prototype], [toString] among them ([a[toString]=x]). *)

Inductive qvalue :=
| QString (s : jsstring)
| QArray (items : list qvalue)
| QObject (props : list (jsstring * qvalue)).

Fixpoint joinWith (sep : jsstring) (a : list jsstring) : jsstring :=
  match a with
  | [] => []
  | x :: a' => match a' with [] => x | _ => x ++ sep ++ joinWith sep a' end
  end.

(** The values of a list of conversions, or [None] when one of them threw. *)
Fixpoint all_of {A : Type} (l : list (option A)) : option (list A) :=
  match l with
  | [] => Some []
  | x :: l' =>
      match x, all_of l' with
      | Some a, Some r => Some (a :: r)
      | _, _ => None
      end
  end.

(** ToString, [None] when the conversion throws a TypeError.  An array joins
    the conversions of its elements with commas.  An object is converted by
    its [toString] and [valueOf]: when it owns a key [toString], whose value
    is a string, an array or an object and so no function, [valueOf] of the
    prototype returns the object itself and nothing gives a primitive, so
    the conversion throws; without that key [Object.prototype.toString]
    answers. *)
Fixpoint ToString (v : qvalue) : option jsstring :=
  match v with
  | QString s => Some s
  | QArray items =>
      match all_of (map ToString items) with
      | Some strings => Some (joinWith (js ",") strings)
      | None => None
      end
  | QObject props =>
      if Map_has props (js "toString") then None
      else Some (js "[object Object]")
  end.

(** [Number(v)]: the conversion to a primitive throws as ToString does. *)
Definition Number (v : qvalue) : option number :=
  match ToString v with
  | Some s => Some (StringToNumber s)
  | None => None
  end.

(** ** Requests and responses *)

(** A parsed JSON body ([bodyParser.json()]); an object lists its own
    properties, each key once. *)
Inductive json :=
| JNull
| JBool (b : bool)
| JNumber (n : number)
| JString (s : jsstring)
| JArray (items : list json)
| JObject (props : list (jsstring * json)).

Inductive method := GET | POST | DELETE.

(** [req_path] holds the segments of the URL path, decoded; [req_body] is
    [None] when [req.body] is [undefined]. *)
Record request := {
  req_method : method;
  req_path : list jsstring;
  req_query : alist qvalue;
  req_body : option json
}.

Inductive payload :=
| ErrorBody (error : string)
| RecordBody (r : Analysis.record)
| ListBody (count : nat) (data : list Analysis.record)
| NoBody
| HtmlPage.

Record response := { status : nat; body : payload }.

(** [res.status(code).json({ error: message })]. *)
Definition sendError (code : nat) (message : string) : response :=
  {| status := code; body := ErrorBody message |}.
Arguments sendError code%_nat message%_string.

(** [res.status(200).json({ count: results.length, data: results })]. *)
Definition listing (results : list Analysis.record) : response :=
  {| status := 200%nat; body := ListBody (List.length results) results |}.

(** A handler sends a response or throws. *)
Inductive outcome :=
| Respond (r : response)
| Throw (e : string).

Definition store := alist Analysis.record.

(** A handler returns early from the middle of its checks: a step either
    goes on with a value or has answered. *)
Inductive step (A : Type) :=
| Continue (a : A)
| Return (r : response).
Arguments Continue {A} a.
Arguments Return {A} r.

Definition bind {A B : Type} (s : step A) (k : A -> step B) : step B :=
  match s with
  | Continue a => k a
  | Return r => Return r
  end.

Notation "x <- s ;; k" := (bind s (fun x => k))
  (at level 61, s at next level, right associativity).

Definition finish (s : step response) : response :=
  match s with Continue r => r | Return r => r end.

(** Inside a [try] a step may also throw. *)
Inductive attempt (A : Type) :=
| Next (a : A)
| Sent (r : response)
| Thrown (e : string).
Arguments Next {A} a.
Arguments Sent {A} r.
Arguments Thrown {A} e.

Definition attempt_bind {A B : Type} (s : attempt A) (k : A -> attempt B)
  : attempt B :=
  match s with
  | Next a => k a
  | Sent r => Sent r
  | Thrown e => Thrown e
  end.

Notation "x <~ s ;; k" := (attempt_bind s (fun x => k))
  (at level 61, s at next level, right associativity).

(** [try { ... } catch (err) { ... }]. *)
Definition try_catch (s : attempt response) (handler : string -> response)
  : response :=
  match s with
  | Next r => r
  | Sent r => r
  | Thrown e => handler e
  end.

(** The TypeError of a conversion to a primitive. *)
Definition cannot_convert : string :=
  "TypeError: Cannot convert object to primitive value".

(** *** Reading the body *)

Definition isNull (v : json) : bool :=
  match v with JNull => true | _ => false end.

(** [Object.prototype.hasOwnProperty.call(payload, k)] for one of the names
    the handlers ask for: neither an array nor the wrapper of a primitive
    owns it. *)
Definition hasOwnProperty (payload : json) (k : jsstring) : bool :=
  match payload with
  | JObject props => Map_has props k
  | _ => false
  end.

(** [payload[k]]; [None] is [undefined] (no prototype defines the name). *)
Definition getProperty (payload : json) (k : jsstring) : option json :=
  match payload with
  | JObject props => Map_get props k
  | _ => None
  end.

(** ToBoolean of a JSON value. *)
Definition truthy (v : json) : bool :=
  match v with
  | JNull => false
  | JBool b => b
  | JNumber n => match n with
                 | NaN => false
                 | Infinity _ => true
                 | Finite q => negb (Qeq_bool q 0)
                 end
  | JString s => negb (isNil s)
  | JArray _ | JObject _ => true
  end.

(** *** Reading the query *)

(** [v === lit] and [v !== lit] for a string literal. *)
Definition strictEq (v : qvalue) (lit : jsstring) : bool :=
  match v with
  | QString s => jseqb s lit
  | _ => false
  end.

(** [!q] for a query value: [undefined] and the empty string are falsy. *)
Definition falsy (q : option qvalue) : bool :=
  match q with
  | None => true
  | Some (QString s) => isNil s
  | Some _ => false
  end.

(** *** The regular expressions of the natural-language route *)

(** The leftmost position at which [at_] matches. *)
Fixpoint search {A : Type} (at_ : jsstring -> option A) (s : jsstring) : option A :=
  match at_ s with
  | Some r => Some r
  | None => match s with
            | [] => None
            | _ :: s' => search at_ s'
            end
  end.

(** [/<words> (\d+)/] at the head of [s]: the digits captured, the longest
    run there. *)
Definition than_at (words s : jsstring) : option jsstring :=
  if startsWith s words
  then match fst (span isDigit (skipn (List.length words) s)) with
       | [] => None
       | ds => Some ds
       end
  else None.

(** [lower.match(/longer than (\d+)/)]: [m[1]]. *)
Definition match_longer (lower : jsstring) : option jsstring :=
  search (than_at (js "longer than ")) lower.

(** [lower.match(/shorter than (\d+)/)]: [m[1]]. *)
Definition match_shorter (lower : jsstring) : option jsstring :=
  search (than_at (js "shorter than ")) lower.

(** A pattern character against a code unit under flag [i]. *)
Definition eq_i (p ch : code_unit) : bool :=
  (ch <? 128) && (asciiUpper p =? asciiUpper ch).

Fixpoint startsWith_i (s pat : jsstring) : bool :=
  match pat, s with
  | [], _ => true
  | p :: pat', c :: s' => eq_i p c && startsWith_i s' pat'
  | _ :: _, [] => false
  end.

(** The class [[a-z0-9\s\-\_]] under flag [i]. *)
Definition tokenChar (ch : code_unit) : bool :=
  inRange_i 97 122 ch || inRange_i 48 57 ch || isWhiteSpace ch
  || (ch =? 45) || (ch =? 95).

(** The double and the single quote. *)
Definition isQuote (ch : code_unit) : bool := (ch =? 34) || (ch =? 39).

(** [/contains ["']?([a-z0-9\s\-\_]+)["']?/i] at the head of [s]: the token
    captured.  A quote is no token character, so the match cannot start the
    token at a quote it declined to skip. *)
Definition contains_at (s : jsstring) : option jsstring :=
  if startsWith_i s (js "contains ")
  then let rest := skipn 9 s in
       let rest' := match rest with
                    | c :: r => if isQuote c then r else rest
                    | [] => []
                    end in
       match fst (span tokenChar rest') with
       | [] => None
       | tok => Some tok
       end
  else None.

Definition match_contains (lower : jsstring) : option jsstring :=
  search contains_at lower.

(** ** The handlers *)

Section Handlers.
Context {host : Host}.
Local Open Scope nat_scope.

(** [app.post("/strings", ...)] of [server.js]. *)
Definition post_strings (st : store) (req : request) : store * response :=
  match req_body req with
  | None => (st, sendError 400 "Missing 'value' field")
  | Some payload =>
      if isNull payload || negb (hasOwnProperty payload (js "value"))
      then (st, sendError 400 "Missing 'value' field")
      else
        match getProperty payload (js "value") with
        | Some (JString value) =>
            if Map_has st value
            then (st, sendError 409 "String already exists")
            else
              let analysis := analyse value in
              (Map_set st value analysis,
               {| status := 201; body := RecordBody analysis |})
        | _ => (st, sendError 422 "'value' must be a string")
        end
  end.

(** [app.post("/api/v1/strings", ...)] of [part_000]:
    [const { value } = req.body || {}]. *)
Definition post_strings_v1 (st : store) (req : request) : store * response :=
  let payload :=
    match req_body req with
    | Some b => if truthy b then b else JObject []
    | None => JObject []
    end in
  match getProperty payload (js "value") with
  | None => (st, sendError 400 "Missing 'value' field")
  | Some (JString value) =>
      if Map_has st value
      then (st, sendError 409 "String already exists")
      else
        let analysis := analyse value in
        (Map_set st value analysis,
         {| status := 201; body := RecordBody analysis |})
  | Some _ => (st, sendError 422 "'value' must be a string")
  end.

(** [app.get("/strings/:value", ...)]. *)
Definition get_string (st : store) (value : jsstring) : response :=
  if negb (Map_has st value)
  then sendError 404 "String not found"
  else match Map_get st value with
       | Some r => {| status := 200; body := RecordBody r |}
       | None => {| status := 200; body := NoBody |}
       end.

(** [app.delete("/strings/:value", ...)]. *)
Definition delete_string (st : store) (value : jsstring) : store * response :=
  if negb (Map_has st value)
  then (st, sendError 404 "String not found")
  else (Map_delete st value, {| status := 204; body := NoBody |}).

(** The checks of [app.get("/strings", ...)], one per parameter. *)
Definition by_isPalindrome (isPalindrome : option qvalue)
    (results : list Analysis.record) : attempt (list Analysis.record) :=
  match isPalindrome with
  | None => Next results
  | Some v =>
      if negb (strictEq v (js "true")) && negb (strictEq v (js "false"))
      then Sent (sendError 400 "isPalindrome must be 'true' or 'false'")
      else
        let want := strictEq v (js "true") in
        Next (filter (fun r => Bool.eqb (Analysis.isPalindrome r) want) results)
  end.

Definition by_minLength (minLength : option qvalue)
    (results : list Analysis.record) : attempt (list Analysis.record) :=
  match minLength with
  | None => Next results
  | Some v =>
      match Number v with
      | None => Thrown cannot_convert
      | Some n =>
          if negb (isFinite n) then Sent (sendError 400 "minLength must be a number")
          else Next (filter (fun r => num_le n (ofNat (Analysis.length r))) results)
      end
  end.

Definition by_maxLength (maxLength : option qvalue)
    (results : list Analysis.record) : attempt (list Analysis.record) :=
  match maxLength with
  | None => Next results
  | Some v =>
      match Number v with
      | None => Thrown cannot_convert
      | Some n =>
          if negb (isFinite n) then Sent (sendError 400 "maxLength must be a number")
          else Next (filter (fun r => num_le (ofNat (Analysis.length r)) n) results)
      end
  end.

Definition by_wordCount (wordCount : option qvalue)
    (results : list Analysis.record) : attempt (list Analysis.record) :=
  match wordCount with
  | None => Next results
  | Some v =>
      match Number v with
      | None => Thrown cannot_convert
      | Some n =>
          if negb (isFinite n) then Sent (sendError 400 "wordCount must be a number")
          else Next (filter (fun r => num_eq (ofNat (Analysis.wordCount r)) n) results)
      end
  end.

(** [results.filter((r) => r.string.includes(contains))]: [includes]
    converts its argument at each call, so the conversion throws at the
    first record, and not at all when there is none. *)
Definition by_contains (contains : option qvalue)
    (results : list Analysis.record) : attempt (list Analysis.record) :=
  match contains with
  | None => Next results
  | Some v =>
      match results with
      | [] => Next []
      | _ :: _ =>
          match ToString v with
          | None => Thrown cannot_convert
          | Some search =>
              Next (filter (fun r => includes (Analysis.string r) search) results)
          end
      end
  end.

(** [app.get("/strings", ...)]: the checks inside [try], and the [catch]
    that answers "Bad query". *)
Definition get_strings (st : store) (query : alist qvalue) : response :=
  try_catch (
    results <~ by_isPalindrome (Map_get query (js "isPalindrome")) (Map_values st) ;;
    results <~ by_minLength (Map_get query (js "minLength")) results ;;
    results <~ by_maxLength (Map_get query (js "maxLength")) results ;;
    results <~ by_wordCount (Map_get query (js "wordCount")) results ;;
    results <~ by_contains (Map_get query (js "contains")) results ;;
    Next (listing results))
  (fun _ => sendError 400 "Bad query").

(** The templates of [app.get("/strings/query", ...)], in order; each
    answers or leaves the query to the next. *)
Definition template_palindromes (lower : jsstring)
    (results : list Analysis.record) : step unit :=
  if includes lower (js "palind")
  then Return (listing (filter (fun r => Analysis.isPalindrome r) results))
  else Continue tt.

Definition template_single_word (lower : jsstring)
    (results : list Analysis.record) : step unit :=
  if includes lower (js "single word") || includes lower (js "single-word")
  then Return (listing (filter (fun r => (Analysis.wordCount r =? 1)%nat) results))
  else Continue tt.

(** "longer than N" and "shorter than N": [m[1]] is a string, and
    [Number(m[1])] the number it writes. *)
Definition template_longer (lower : jsstring)
    (results : list Analysis.record) : step unit :=
  match match_longer lower with
  | Some m1 =>
      let n := StringToNumber m1 in
      if negb (isFinite n) then Return (sendError 422 "Invalid number in query")
      else Return (listing (filter (fun r => num_lt n (ofNat (Analysis.length r))) results))
  | None => Continue tt
  end.

Definition template_shorter (lower : jsstring)
    (results : list Analysis.record) : step unit :=
  match match_shorter lower with
  | Some m1 =>
      let n := StringToNumber m1 in
      if negb (isFinite n) then Return (sendError 422 "Invalid number in query")
      else Return (listing (filter (fun r => num_lt (ofNat (Analysis.length r)) n) results))
  | None => Continue tt
  end.

Definition template_contains (lower : jsstring)
    (results : list Analysis.record) : step unit :=
  match match_contains lower with
  | Some substr =>
      Return (listing (filter
        (fun r => includes (toLowerCase (Analysis.string r)) (toLowerCase substr))
        results))
  | None => Continue tt
  end.

(** The body of the route once [q] is a string that is not empty. *)
Definition interpret (st : store) (q : jsstring) : response :=
  let lower := toLowerCase q in
  let results := Map_values st in
  finish (
    _ <- template_palindromes lower results ;;
    _ <- template_single_word lower results ;;
    _ <- template_longer lower results ;;
    _ <- template_shorter lower results ;;
    _ <- template_contains lower results ;;
    Continue (sendError 400 "Could not interpret query")).

(** [app.get("/strings/query", ...)]: an array or an object for [q] has no
    [toLowerCase], and the call throws. *)
Definition get_strings_query (st : store) (query : alist qvalue) : outcome :=
  let q := Map_get query (js "q") in
  if falsy q then Respond (sendError 400 "Missing query parameter 'q'")
  else match q with
       | Some (QString s) => Respond (interpret st s)
       | _ => Throw "TypeError: q.toLowerCase is not a function"
       end.
End Handlers.

(** ** The router

    Express tries the routes in the order of their registration and runs the
    first whose method and path match; a handler that answers ends the
    search.  A path matches a pattern segment by segment: a literal segment
    without regard to ASCII case, a parameter any segment that is not empty.
    A request is given by the three methods the files register and by the
    segments of its path as the handler sees a parameter, that is, decoded;
    the optional slash at the end of a path is left out.  The other methods,
    the middleware before the routes and the decoding of the path are in the
    last part, [The application behind its middleware], which answers a
    request without a percent sign in its path as this router does
    ([app_arriving]). *)

Inductive segment :=
| Lit (s : jsstring)
| Param.

Inductive operation := Create | GetByValue | ListFilter | NaturalLanguage | Delete.

Definition handler := list jsstring -> store -> request -> store * outcome.

Record route := {
  route_method : method;
  route_path : list segment;
  route_operation : operation;
  route_handler : handler
}.

Definition method_eqb (a b : method) : bool :=
  match a, b with
  | GET, GET | POST, POST | DELETE, DELETE => true
  | _, _ => false
  end.

Fixpoint lit_eqb (lit x : jsstring) : bool :=
  match lit, x with
  | [], [] => true
  | p :: lit', c :: x' => eq_i p c && lit_eqb lit' x'
  | _, _ => false
  end.

(** The parameters captured, in order, when the path matches. *)
Fixpoint matchPath (pattern : list segment) (path : list jsstring)
  : option (list jsstring) :=
  match pattern, path with
  | [], [] => Some []
  | Lit s :: pattern', x :: path' =>
      if lit_eqb s x then matchPath pattern' path' else None
  | Param :: pattern', x :: path' =>
      if isNil x then None
      else match matchPath pattern' path' with
           | Some params => Some (x :: params)
           | None => None
           end
  | _, _ => None
  end.

Fixpoint findRoute (routes : list route) (req : request)
  : option (route * list jsstring) :=
  match routes with
  | [] => None
  | r :: routes' =>
      if method_eqb (route_method r) (req_method req)
      then match matchPath (route_path r) (req_path req) with
           | Some params => Some (r, params)
           | None => findRoute routes' req
           end
      else findRoute routes' req
  end.

(** One request against the application: the store after it and the
    response.  Express itself answers 404 when no route matches and 500 when
    the handler throws, with a page of its own. *)
Definition serve (routes : list route) (st : store) (req : request)
  : store * response :=
  match findRoute routes req with
  | None => (st, {| status := 404%nat; body := HtmlPage |})
  | Some (r, params) =>
      match route_handler r params st req with
      | (st', Respond res) => (st', res)
      | (st', Throw _) => (st', {| status := 500%nat; body := HtmlPage |})
      end
  end.

(** [req.params.value]. *)
Definition param_value (params : list jsstring) : jsstring := hd [] params.

Section Applications.
Context {host : Host}.

Definition h_create : handler :=
  fun _ st req => let '(st', res) := post_strings st req in (st', Respond res).
Definition h_create_v1 : handler :=
  fun _ st req => let '(st', res) := post_strings_v1 st req in (st', Respond res).
Definition h_get : handler :=
  fun params st _ => (st, Respond (get_string st (param_value params))).
Definition h_list : handler :=
  fun _ st req => (st, Respond (get_strings st (req_query req))).
Definition h_query : handler :=
  fun _ st req => (st, get_strings_query st (req_query req)).
Definition h_delete : handler :=
  fun params st _ =>
    let '(st', res) := delete_string st (param_value params) in (st', Respond res).

(** The routes of [server.js], in the order of the file. *)
Definition server_routes : list route :=
  [ {| route_method := POST; route_path := [Lit (js "strings")];
       route_operation := Create; route_handler := h_create |};
    {| route_method := GET; route_path := [Lit (js "strings"); Param];
       route_operation := GetByValue; route_handler := h_get |};
    {| route_method := GET; route_path := [Lit (js "strings")];
       route_operation := ListFilter; route_handler := h_list |};
    {| route_method := GET; route_path := [Lit (js "strings"); Lit (js "query")];
       route_operation := NaturalLanguage; route_handler := h_query |};
    {| route_method := DELETE; route_path := [Lit (js "strings"); Param];
       route_operation := Delete; route_handler := h_delete |} ].

(** The routes of [part_000], in the order of the file. *)
Definition api_v1 (rest : list segment) : list segment :=
  Lit (js "api") :: Lit (js "v1") :: Lit (js "strings") :: rest.

Definition api_v1_routes : list route :=
  [ {| route_method := POST; route_path := api_v1 [];
       route_operation := Create; route_handler := h_create_v1 |};
    {| route_method := GET; route_path := api_v1 [Param];
       route_operation := GetByValue; route_handler := h_get |};
    {| route_method := GET; route_path := api_v1 [];
       route_operation := ListFilter; route_handler := h_list |};
    {| route_method := GET;
       route_path := api_v1 [Lit (js "filter-by-natural-language")];
       route_operation := NaturalLanguage; route_handler := h_query |};
    {| route_method := DELETE; route_path := api_v1 [Param];
       route_operation := Delete; route_handler := h_delete |} ].

Definition server : store -> request -> store * response := serve server_routes.
Definition server_v1 : store -> request -> store * response := serve api_v1_routes.
End Applications.

(** The operation a request reaches, if any. *)
Definition operation_of (routes : list route) (req : request) : option operation :=
  match findRoute routes req with
  | Some (r, _) => Some (route_operation r)
  | None => None
  end.

(** ** Notions of the specification

    What the specification names without fixing how it is computed, each
    stated on its own so that the code above can be compared with it. *)

(** The white-space-delimited tokens of a string: its maximal runs of code
    units that are not white space ([cur] is the run being read, reversed). *)
Fixpoint tokens_from (cur s : jsstring) : list jsstring :=
  match s with
  | [] => if isNil cur then [] else [rev cur]
  | c :: s' =>
      if isWhiteSpace c
      then if isNil cur then tokens_from [] s' else rev cur :: tokens_from [] s'
      else tokens_from (c :: cur) s'
  end.

Definition tokens (s : jsstring) : list jsstring := tokens_from [] s.

(** The string is not empty and its last code unit is no white space. *)
Fixpoint endsInWord (s : jsstring) : bool :=
  match s with
  | [] => false
  | c :: s' => match s' with
               | [] => negb (isWhiteSpace c)
               | _ => endsInWord s'
               end
  end.

(** The characters [[0-9a-zA-Z]] and the projection the palindrome test is
    taken on: those characters only, in lower case. *)
Definition isAlnum (c : code_unit) : bool := isDigit c || isUpper c || isLower c.

Definition projection (s : jsstring) : jsstring :=
  map asciiLower (filter isAlnum s).

Definition isAscii (c : code_unit) : bool := c <? 128.

(** A high surrogate immediately followed by a low one: an astral character. *)
Fixpoint hasSurrogatePair (s : jsstring) : bool :=
  match s with
  | [] => false
  | c :: s' =>
      match s' with
      | d :: _ => (isHighSurrogate c && isLowSurrogate d) || hasSurrogatePair s'
      | [] => false
      end
  end.

(** The sum of the counts of a frequency object. *)
Definition sumCounts (freq : alist nat) : nat := list_sum (map snd freq).

(** How often [k] occurs in a list of strings. *)
Fixpoint occurrences (k : jsstring) (l : list jsstring) : nat :=
  match l with
  | [] => O
  | x :: l' => ((if jseqb k x then 1 else 0) + occurrences k l')%nat
  end.

(** The distinct elements of a list of strings, in order of first occurrence. *)
Definition distinct (l : list jsstring) : list jsstring :=
  nodup (list_eq_dec N.eq_dec) l.

(** The [value] field of a request body, when the body has one. *)
Definition value_field (b : option json) : option json :=
  match b with
  | Some (JObject props) => Map_get props (js "value")
  | _ => None
  end.

(** The response carries [{ error: message }]. *)
Definition isErrorBody (res : response) : bool :=
  match body res with ErrorBody _ => true | _ => false end.

(** The Create request for a string: [POST] with body [{ "value": s }]. *)
Definition create_request (path : list jsstring) (s : jsstring) : request :=
  {| req_method := POST; req_path := path; req_query := [];
     req_body := Some (JObject [(js "value", JString s)]) |}.

Section CreateOutcome.
Context {host : Host}.
Local Open Scope nat_scope.

(** What Create answers, case by case on the [value] field of the body. *)
Definition create_outcome (st : store) (req : request)
    (out : store * response) : Prop :=
  let '(st', res) := out in
  match value_field (req_body req) with
  | None => status res = 400 /\ isErrorBody res = true /\ st' = st
  | Some (JString s) =>
      if Map_has st s
      then status res = 409 /\ isErrorBody res = true /\ st' = st
      else status res = 201
           /\ body res = RecordBody (analyse s)
           /\ st' = Map_set st s (analyse s)
           /\ Map_get st' s = Some (analyse s)
           /\ Map_values st' = Map_values st ++ [analyse s]
           /\ Analysis.string (analyse s) = s
           /\ Analysis.length (analyse s) = List.length s
           /\ Analysis.sha256 (analyse s) = sha256Hex s
  | Some _ => status res = 422 /\ isErrorBody res = true /\ st' = st
  end.

End CreateOutcome.

(** *** The predicates of the list/filter operation *)

(** The parameters whose value can be refused, in the order of the checks. *)
Inductive field := FIsPalindrome | FMinLength | FMaxLength | FWordCount.

Definition checks : list field := [FIsPalindrome; FMinLength; FMaxLength; FWordCount].

Definition field_name (f : field) : string :=
  match f with
  | FIsPalindrome => "isPalindrome"
  | FMinLength => "minLength"
  | FMaxLength => "maxLength"
  | FWordCount => "wordCount"
  end.

Definition numeric (f : field) : bool :=
  match f with FIsPalindrome => false | _ => true end.

Definition field_value (query : alist qvalue) (f : field) : option qvalue :=
  Map_get query (js (field_name f)).

(** The value converts to a number, and to a finite one. *)
Definition finite_number (v : qvalue) : bool :=
  match Number v with
  | Some n => isFinite n
  | None => false
  end.

(** The parameter is present with a value its predicate does not take: for a
    numeric parameter one that does not parse as a finite number (its
    conversion throws, or gives NaN or an infinity), for [isPalindrome]
    anything but the two literals. *)
Definition rejected (query : alist qvalue) (f : field) : bool :=
  match field_value query f with
  | None => false
  | Some v =>
      if numeric f then negb (finite_number v)
      else negb (strictEq v (js "true")) && negb (strictEq v (js "false"))
  end.

(** The parameter is numeric and the conversion of its value throws. *)
Definition throws (query : alist qvalue) (f : field) : bool :=
  match field_value query f with
  | None => false
  | Some v => numeric f && match Number v with None => true | Some _ => false end
  end.

(** The message of a validation failure: it starts with the parameter's name. *)
Definition message_of (f : field) : string :=
  (field_name f
   ++ (if numeric f then " must be a number" else " must be 'true' or 'false'"))%string.

(** The message when the check of [f] fails: that of the validation, or
    that of the [catch] when the conversion throws. *)
Definition failure_message (query : alist qvalue) (f : field) : string :=
  if throws query f then "Bad query"%string else message_of f.

Definition first_rejected (query : alist qvalue) : option field :=
  find (rejected query) checks.

(** The message names the parameter: the parameter's name occurs in it. *)
Definition names (message : string) (f : field) : bool :=
  match String.index 0 (field_name f) message with
  | Some _ => true
  | None => false
  end.

(** The five predicates on a record; a parameter that is absent holds of
    every record. *)
Definition holds_isPalindrome (v : option qvalue) (r : Analysis.record) : bool :=
  match v with
  | None => true
  | Some v => Bool.eqb (Analysis.isPalindrome r) (strictEq v (js "true"))
  end.

Definition holds_minLength (v : option qvalue) (r : Analysis.record) : bool :=
  match v with
  | None => true
  | Some v => match Number v with
              | Some n => num_le n (ofNat (Analysis.length r))
              | None => false
              end
  end.

Definition holds_maxLength (v : option qvalue) (r : Analysis.record) : bool :=
  match v with
  | None => true
  | Some v => match Number v with
              | Some n => num_le (ofNat (Analysis.length r)) n
              | None => false
              end
  end.

Definition holds_wordCount (v : option qvalue) (r : Analysis.record) : bool :=
  match v with
  | None => true
  | Some v => match Number v with
              | Some n => num_eq (ofNat (Analysis.wordCount r)) n
              | None => false
              end
  end.

Definition holds_contains (v : option qvalue) (r : Analysis.record) : bool :=
  match v with
  | None => true
  | Some v => match ToString v with
              | Some search => includes (Analysis.string r) search
              | None => false
              end
  end.

(** The value of [contains], when there is one, converts to a string. *)
Definition convertible (v : option qvalue) : bool :=
  match v with
  | None => true
  | Some v => match ToString v with Some _ => true | None => false end
  end.

(** The conjunction of the predicates checked before [contains], and of all
    the predicates a query supplies. *)
Definition passes (query : alist qvalue) (r : Analysis.record) : bool :=
  holds_isPalindrome (Map_get query (js "isPalindrome")) r
  && holds_minLength (Map_get query (js "minLength")) r
  && holds_maxLength (Map_get query (js "maxLength")) r
  && holds_wordCount (Map_get query (js "wordCount")) r.

Definition satisfies (query : alist qvalue) (r : Analysis.record) : bool :=
  holds_isPalindrome (Map_get query (js "isPalindrome")) r
  && holds_minLength (Map_get query (js "minLength")) r
  && holds_maxLength (Map_get query (js "maxLength")) r
  && holds_wordCount (Map_get query (js "wordCount")) r
  && holds_contains (Map_get query (js "contains")) r.

(** The conversion of [contains] throws at a record: the value does not
    convert, and a record is left when its filter runs. *)
Definition bad_contains (st : store) (query : alist qvalue) : bool :=
  negb (convertible (Map_get query (js "contains")))
  && match filter (passes query) (Map_values st) with
     | [] => false
     | _ :: _ => true
     end.

(** The parameters checked before [f]. *)
Definition checked_before (f : field) : list field :=
  match f with
  | FIsPalindrome => []
  | FMinLength => [FIsPalindrome]
  | FMaxLength => [FIsPalindrome; FMinLength]
  | FWordCount => [FIsPalindrome; FMinLength; FMaxLength]
  end.

(** A store with the records of "abc", "abcde" and "abcdefg" (lengths 3, 5
    and 7), and the query [minLength=4&maxLength=6]. *)
Definition store_357 {host : Host} : store :=
  fold_left (fun st s => fst (post_strings st (create_request [js "strings"] s)))
            [js "abc"; js "abcde"; js "abcdefg"] [].

Definition query_4_6 : alist qvalue :=
  [(js "minLength", QString (js "4")); (js "maxLength", QString (js "6"))].

(** [isPalindrome=maybe&minLength=abc], [minLength=abc&maxLength=xyz] and
    [minLength=abc]. *)
Definition query_maybe_abc : alist qvalue :=
  [(js "isPalindrome", QString (js "maybe")); (js "minLength", QString (js "abc"))].

Definition query_abc_xyz : alist qvalue :=
  [(js "minLength", QString (js "abc")); (js "maxLength", QString (js "xyz"))].

Definition query_abc : alist qvalue := [(js "minLength", QString (js "abc"))].

(** [minLength[toString]=x]. *)
Definition query_minLength_object : alist qvalue :=
  [(js "minLength", QObject [(js "toString", QString (js "x"))])].

(** *** The templates of the natural-language operation *)

(** What the regular expressions of the templates say of a query, stated on
    the query itself.  [words] stands in [s] right after [pre] with a digit
    behind it. *)
Definition number_after (words s pre : jsstring) : Prop :=
  exists d rest, isDigit d = true /\ s = pre ++ words ++ d :: rest.

(** [ds] is the number of the first "<words>N" of [s]: the digits that
    follow the first place where [words] stands before a digit, as far as
    digits go. *)
Definition first_number_after (words s ds : jsstring) : Prop :=
  exists pre post,
    s = pre ++ words ++ ds ++ post
    /\ ds <> [] /\ forallb isDigit ds = true
    /\ match post with c :: _ => isDigit c = false | [] => True end
    /\ forall pre', number_after words s pre' ->
         (List.length pre <= List.length pre')%nat.

Definition no_number_after (words s : jsstring) : Prop :=
  forall pre, ~ number_after words s pre.

(** [w] is "contains " in any ASCII case. *)
Definition contains_word (w : jsstring) : Prop :=
  Forall2 (fun p c => eq_i p c = true) (js "contains ") w.

(** A token stands at the head of [s]: "contains ", a quote or none, and
    the token, the letters, digits, white space, hyphens and underscores
    that follow, as far as they go. *)
Definition token_at (s token : jsstring) : Prop :=
  exists w quote post,
    s = w ++ quote ++ token ++ post
    /\ contains_word w
    /\ (quote = [] \/ exists c, quote = [c] /\ isQuote c = true)
    /\ token <> [] /\ forallb tokenChar token = true
    /\ match post with c :: _ => tokenChar c = false | [] => True end.

(** [token] is the token of the first "contains <token>" of [s]. *)
Definition first_token (s token : jsstring) : Prop :=
  exists pre rest,
    s = pre ++ rest /\ token_at rest token
    /\ forall pre' rest' token', s = pre' ++ rest' -> token_at rest' token' ->
         (List.length pre <= List.length pre')%nat.

Definition no_token (s : jsstring) : Prop :=
  forall pre rest token, s = pre ++ rest -> ~ token_at rest token.

Section Templates.
Context {host : Host}.

(** Every stored length is a JavaScript length: below [2 ^ 53]. *)
Definition lengths_bounded (st : store) : Prop :=
  Forall (fun r => (Z.of_nat (Analysis.length r) < 2 ^ 53)%Z) (Map_values st).

(** What the operation answers to a query that is not empty, template by
    template in their order, each template told by the phrase it looks for in
    the query in lower case; [N] of "longer than N" and "shorter than N" is
    the number its digits write.  The last three clauses say that the
    phrases leave no query out. *)
Definition templates_contract (st : store) (q : jsstring) : Prop :=
  let lower := toLowerCase q in
  let results := Map_values st in
  let palind := includes lower (js "palind") in
  let single := includes lower (js "single word") || includes lower (js "single-word") in
  let longer := js "longer than " in
  let shorter := js "shorter than " in
  (palind = true ->
     interpret st q = listing (filter (fun r => Analysis.isPalindrome r) results))
  /\ (palind = false -> single = true ->
        interpret st q
        = listing (filter (fun r => (Analysis.wordCount r =? 1)%nat) results))
  /\ (palind = false -> single = false ->
      forall ds, first_number_after longer lower ds ->
        interpret st q
        = if isFinite (StringToNumber ds)
          then listing (filter
                 (fun r => (digitsValue 10 ds <? Z.of_nat (Analysis.length r))%Z)
                 results)
          else sendError 422 "Invalid number in query")
  /\ (palind = false -> single = false -> no_number_after longer lower ->
      forall ds, first_number_after shorter lower ds ->
        interpret st q
        = if isFinite (StringToNumber ds)
          then listing (filter
                 (fun r => (Z.of_nat (Analysis.length r) <? digitsValue 10 ds)%Z)
                 results)
          else sendError 422 "Invalid number in query")
  /\ (palind = false -> single = false -> no_number_after longer lower ->
      no_number_after shorter lower ->
      forall token, first_token lower token ->
        interpret st q
        = listing (filter
            (fun r => includes (toLowerCase (Analysis.string r)) (toLowerCase token))
            results))
  /\ (palind = false -> single = false -> no_number_after longer lower ->
      no_number_after shorter lower -> no_token lower ->
      interpret st q = sendError 400 "Could not interpret query")
  /\ ((exists ds, first_number_after longer lower ds) \/ no_number_after longer lower)
  /\ ((exists ds, first_number_after shorter lower ds) \/ no_number_after shorter lower)
  /\ ((exists token, first_token lower token) \/ no_token lower).
End Templates.

(** The digits of ten to the four hundredth, and the query "longer than"
    that number. *)
Definition huge_digits : jsstring := 49 :: repeat 48 400.

Definition query_longer_than_huge : jsstring :=
  js "longer than " ++ huge_digits.

(** *** Requests of the natural-language route *)

(** [GET /strings/query] and [GET /api/v1/strings/filter-by-natural-language]
    with a query string. *)
Definition query_request (query : alist qvalue) : request :=
  {| req_method := GET; req_path := [js "strings"; js "query"];
     req_query := query; req_body := None |}.

Definition query_request_v1 (query : alist qvalue) : request :=
  {| req_method := GET;
     req_path := [js "api"; js "v1"; js "strings"; js "filter-by-natural-language"];
     req_query := query; req_body := None |}.

(** [?q=find%20palindromes]. *)
Definition q_find_palindromes : alist qvalue :=
  [(js "q", QString (js "find palindromes"))].

(** *** Failures *)

(** A handler that never throws and whose failures (a status from 400 up)
    carry [{ error }] and leave the store as it was. *)
Definition fails_cleanly (h : handler) : Prop :=
  forall params st req,
    match h params st req with
    | (st', Respond res) =>
        (400 <= status res)%nat -> st' = st /\ isErrorBody res = true
    | (_, Throw _) => False
    end.

(** The page Express answers when no route matches. *)
Definition not_found_page : response := {| status := 404%nat; body := HtmlPage |}.

(** A lower-case hexadecimal digit. *)
Definition isLowerHex (c : code_unit) : bool :=
  isDigit c || ((97 <=? c) && (c <=? 102)).

(** [GET /strings/<value>]. *)
Definition get_request (value : jsstring) : request :=
  {| req_method := GET; req_path := [js "strings"; value];
     req_query := []; req_body := None |}.

(** The queries [minLength=6] and [isPalindrome=true]. *)
Definition query_minLength_6 : alist qvalue := [(js "minLength", QString (js "6"))].

Definition query_isPalindrome_true : alist qvalue :=
  [(js "isPalindrome", QString (js "true"))].

(** A [POST /strings] without a body, and the string of an astral character
    followed by two letters "a". *)
Definition empty_post : request :=
  {| req_method := POST; req_path := [js "strings"]; req_query := [];
     req_body := None |}.

Definition astral_aa : jsstring := [0xD83D; 0xDE00; 97; 97].

(** [DELETE /strings/<value>] and [GET /strings]. *)
Definition delete_request (value : jsstring) : request :=
  {| req_method := DELETE; req_path := [js "strings"; value];
     req_query := []; req_body := None |}.

Definition list_request (query : alist qvalue) : request :=
  {| req_method := GET; req_path := [js "strings"];
     req_query := query; req_body := None |}.

(** *** The store across requests *)

Section StoreInvariant.
Context {host : Host}.

(** Every key is stored once and its record is the analysis of the key. *)
Definition store_ok (st : store) : Prop :=
  NoDup (Map_keys st) /\ forall k r, In (k, r) st -> r = analyse k.

(** The store an application holds after a sequence of requests, started
    empty. *)
Definition session (app : store -> request -> store * response)
    (reqs : list request) : store :=
  fold_left (fun st req => fst (app st req)) reqs [].
End StoreInvariant.

(** What one request can be, seen from the handler that answers it. *)
Inductive served {host : Host} (st : store) (req : request)
  : store * response -> Prop :=
| served_nothing :
    served st req (st, not_found_page)
| served_create :
    req_method req = POST -> served st req (post_strings st req)
| served_get value :
    req_method req = GET -> value <> [] ->
    served st req (st, get_string st value)
| served_list :
    req_method req = GET ->
    served st req (st, get_strings st (req_query req))
| served_delete value :
    req_method req = DELETE -> value <> [] ->
    served st req (delete_string st value).



(** The path starts with the segments [api] and [v1], in any ASCII case. *)
Definition below_api_v1 (path : list jsstring) : bool :=
  match path with
  | a :: b :: _ => lit_eqb (js "api") a && lit_eqb (js "v1") b
  | _ => false
  end.

(** The store after a run of requests, from a given store. *)
Definition run (app : store -> request -> store * response) (st : store)
    (reqs : list request) : store :=
  fold_left (fun st req => fst (app st req)) reqs st.

(** *** Numeric parameters written in decimal digits *)

(** The parameter is absent, or its text, the white space around it apart,
    is a run of decimal digits that writes [m], below [2 ^ 53]; the empty
    run writes 0. *)
Definition reads (v : option qvalue) (n : option Z) : Prop :=
  match v, n with
  | None, None => True
  | Some x, Some m =>
      match ToString x with
      | Some text =>
          forallb isDigit (trim text) = true
          /\ digitsValue 10 (trim text) = m
          /\ (m < 2 ^ 53)%Z
      | None => False
      end
  | _, _ => False
  end.

Definition at_least (lo : option Z) (k : nat) : bool :=
  match lo with Some m => (m <=? Z.of_nat k)%Z | None => true end.

Definition at_most (hi : option Z) (k : nat) : bool :=
  match hi with Some m => (Z.of_nat k <=? m)%Z | None => true end.

Definition exactly (n : option Z) (k : nat) : bool :=
  match n with Some m => (Z.of_nat k =? m)%Z | None => true end.

(** The records a query in decimal digits selects. *)
Definition selects (query : alist qvalue) (lo hi wc : option Z)
    (r : Analysis.record) : bool :=
  holds_isPalindrome (Map_get query (js "isPalindrome")) r
  && at_least lo (Analysis.length r)
  && at_most hi (Analysis.length r)
  && exactly wc (Analysis.wordCount r)
  && holds_contains (Map_get query (js "contains")) r.

(** The parameter occurs more than once ([a=1&a=2]: an array of two values
    or more) or with a key in brackets ([a[b]=1]: an object). *)
Definition repeated_or_nested (v : qvalue) : bool :=
  match v with
  | QString _ => false
  | QArray items => (2 <=? List.length items)%nat
  | QObject _ => true
  end.

(** *** Listings *)

(** [count] and [data] of a response that lists records. *)
Definition count_of (res : response) : nat :=
  match body res with ListBody n _ => n | _ => O end.

Definition data_of (res : response) : list Analysis.record :=
  match body res with ListBody _ l => l | _ => [] end.

(** The parameters the list/filter operation reads. *)
Definition parameters : list jsstring :=
  [js "isPalindrome"; js "minLength"; js "maxLength"; js "wordCount"; js "contains"].




(** ** The application behind its middleware

    [app.use(cors())] and [app.use(bodyParser.json())] stand before the
    routes, and the router of Express matches the path as it was sent and
    decodes the parameters it captures.  This part puts them around the
    handlers: the requests of the part above are those that come through
    with a method among [GET], [POST], [DELETE] and a path without a percent
    escape. *)

(** *** [decodeURIComponent] *)

Definition hexValue (c : code_unit) : option N :=
  if isDigit c then Some (c - 48)
  else if (97 <=? c) && (c <=? 102) then Some (c - 87)
  else if (65 <=? c) && (c <=? 70) then Some (c - 55)
  else None.

(** Where the scan stands: between two characters, after a percent sign, or
    after a percent sign and the first digit of the octet. *)
Inductive escape :=
| Plain
| Percent
| PercentDigit (high : N).

(** Inside a UTF-8 sequence: the octets still to come, the bits read and the
    least code point a sequence of this length may encode. *)
Definition sequence := option (nat * N * N).

Definition isSurrogate (v : N) : bool := (0xD800 <=? v) && (v <=? 0xDFFF).

(** The code units of a code point. *)
Definition utf16 (v : N) : jsstring :=
  if v <? 0x10000 then [v]
  else [0xD800 + (v - 0x10000) / 1024; 0xDC00 + (v - 0x10000) mod 1024].

(** One octet of the escaped text: the sequence after it and the code units
    it completes, or [None] when it cannot stand there. *)
Definition octet (seq : sequence) (b : N) : option (sequence * jsstring) :=
  match seq with
  | None =>
      if b <? 0x80 then Some (None, [b])
      else if (0xC0 <=? b) && (b <? 0xE0) then Some (Some (1%nat, b - 0xC0, 0x80), [])
      else if (0xE0 <=? b) && (b <? 0xF0) then Some (Some (2%nat, b - 0xE0, 0x800), [])
      else if (0xF0 <=? b) && (b <? 0xF8) then Some (Some (3%nat, b - 0xF0, 0x10000), [])
      else None
  | Some (k, bits, least) =>
      if (0x80 <=? b) && (b <? 0xC0)
      then let v := bits * 64 + (b - 0x80) in
           match k with
           | O => None
           | S O =>
               if (least <=? v) && (v <=? 0x10FFFF) && negb (isSurrogate v)
               then Some (None, utf16 v) else None
           | S k' => Some (Some (k', v, least), [])
           end
      else None
  end.

Fixpoint decode (esc : escape) (seq : sequence) (s : jsstring)
  : option jsstring :=
  match s with
  | [] =>
      match esc, seq with
      | Plain, None => Some []
      | _, _ => None
      end
  | c :: s' =>
      match esc with
      | Plain =>
          if c =? 37 then decode Percent seq s'
          else match seq with
               | None => option_map (cons c) (decode Plain None s')
               | Some _ => None
               end
      | Percent =>
          match hexValue c with
          | Some high => decode (PercentDigit high) seq s'
          | None => None
          end
      | PercentDigit high =>
          match hexValue c with
          | Some low =>
              match octet seq (16 * high + low) with
              | Some (seq', units) =>
                  option_map (app units) (decode Plain seq' s')
              | None => None
              end
          | None => None
          end
      end
  end.

(** [decodeURIComponent(s)], [None] when it throws a URIError: a percent
    sign without two hexadecimal digits, or octets that are no UTF-8. *)
Definition decodeURIComponent (s : jsstring) : option jsstring :=
  decode Plain None s.

(** *** Requests as they arrive *)

Inductive verb :=
| Verb (m : method)
| HEAD
| OPTIONS
| OtherVerb.

(** What [bodyParser.json()] makes of the body: it ends the request with an
    error of its own status (400 for JSON that does not parse, 413 above its
    size limit, 415 for a charset or an encoding it does not take), or leaves
    [req.body]: the object or the array of the JSON text, and [{}] when the
    request has no JSON body. *)
Inductive parsed :=
| Refused (code : nat)
| Parsed (body : json).

(** A request that Node has read and handed to the application.
    [http_path] holds the segments of [req.path] as they were sent, the text
    between its slashes, undecoded; the slash that may end the path, which
    the routes allow, is left out.  [http_fresh] tells of a response
    whether the validators of the request ([If-None-Match],
    [If-Modified-Since]) make it fresh; it is [false] everywhere for a
    request without them. *)
Record http_request := {
  http_verb : verb;
  http_path : list jsstring;
  http_query : alist qvalue;
  http_body : parsed;
  http_fresh : response -> bool
}.

(** *** The router *)

(** A layer against the path: no match, a match one of whose parameters does
    not decode, or a match and its parameters. *)
Inductive matched :=
| NoMatch
| BadParam
| Params (params : list jsstring).

(** The regular expression of the pattern runs on the path as sent; what it
    captures is decoded afterwards. *)
Fixpoint matchLayer (pattern : list segment) (path : list jsstring) : matched :=
  match pattern, path with
  | [], [] => Params []
  | Lit s :: pattern', x :: path' =>
      if lit_eqb s x then matchLayer pattern' path' else NoMatch
  | Param :: pattern', x :: path' =>
      if isNil x then NoMatch
      else match matchLayer pattern' path' with
           | NoMatch => NoMatch
           | BadParam => BadParam
           | Params params =>
               match decodeURIComponent x with
               | Some value => Params (value :: params)
               | None => BadParam
               end
           end
  | _, _ => NoMatch
  end.

(** A route answers the method it was registered for, and [app.get] answers
    [HEAD] too. *)
Definition handles (m : method) (v : verb) : bool :=
  match v with
  | Verb m' => method_eqb m m'
  | HEAD => method_eqb m GET
  | OPTIONS | OtherVerb => false
  end.

Inductive routed :=
| Found (r : route) (params : list jsstring)
| BadRequest
| NotFound.

(** The layers in the order of registration.  A parameter that does not
    decode is an error the router holds ([pending]): no later route matches
    with it, and it is the answer when the layers are through. *)
Fixpoint findLayer (routes : list route) (v : verb) (path : list jsstring)
    (pending : bool) : routed :=
  match routes with
  | [] => if pending then BadRequest else NotFound
  | r :: routes' =>
      match matchLayer (route_path r) path with
      | NoMatch => findLayer routes' v path pending
      | BadParam => findLayer routes' v path true
      | Params params =>
          if negb pending && handles (route_method r) v then Found r params
          else findLayer routes' v path pending
      end
  end.

(** *** The application *)

(** The page of the framework for an error; a [HEAD] request gets the
    status without the page. *)
Definition page (code : nat) (v : verb) : response :=
  {| status := code;
     body := match v with HEAD => NoBody | _ => HtmlPage end |}.

(** [res.send] and [res.json] at the end of a handler: a [GET] or a [HEAD]
    whose validators match a 2xx response is answered 304 without a body,
    and a [HEAD] never gets a body. *)
Definition not_modified : response := {| status := 304%nat; body := NoBody |}.

Definition fresh (req : http_request) (res : response) : bool :=
  (200 <=? status res)%nat && (status res <? 300)%nat && http_fresh req res.

Definition sent (req : http_request) (res : response) : response :=
  match http_verb req with
  | Verb GET => if fresh req res then not_modified else res
  | HEAD =>
      if fresh req res then not_modified
      else {| status := status res; body := NoBody |}
  | _ => res
  end.

(** The request a handler sees. *)
Definition handled (req : http_request) (body : json) : request :=
  {| req_method := match http_verb req with Verb m => m | _ => GET end;
     req_path := http_path req;
     req_query := http_query req;
     req_body := Some body |}.

(** [cors()] ends an [OPTIONS] request with 204; [bodyParser.json()] may end
    any other with its error; then the router looks for the route, and the
    framework answers 404 when there is none, 400 when a parameter did not
    decode and 500 when the handler throws. *)
Definition application (routes : list route) (st : store) (req : http_request)
  : store * response :=
  match http_verb req with
  | OPTIONS => (st, {| status := 204%nat; body := NoBody |})
  | v =>
      match http_body req with
      | Refused code => (st, page code v)
      | Parsed body =>
          match findLayer routes v (http_path req) false with
          | Found r params =>
              match route_handler r params st (handled req body) with
              | (st', Respond res) => (st', sent req res)
              | (st', Throw _) => (st', page 500 v)
              end
          | BadRequest => (st, page 400 v)
          | NotFound => (st, page 404 v)
          end
      end
  end.

(** [app] of [server.js] and [app] of [part_000]. *)
Module Express.
Definition app {host : Host} : store -> http_request -> store * response :=
  application server_routes.
Definition app_v1 {host : Host} : store -> http_request -> store * response :=
  application api_v1_routes.
End Express.

Section Table.
Context {host : Host}.

(** The answer by method and path alone, for a request that [cors()] and
    [bodyParser.json()] let through: the collection [/strings] (in any ASCII
    case) takes [POST] and [GET], an element [/strings/<value>] takes [GET]
    and [DELETE] with the value its segment decodes to, [HEAD] goes where
    [GET] goes, a segment that does not decode is answered 400 whatever the
    method, and everything else 404. *)
Definition dispatch (st : store) (req : http_request) (body : json)
  : store * response :=
  let v := http_verb req in
  match http_path req with
  | [x] =>
      if lit_eqb (js "strings") x
      then match v with
           | Verb POST => post_strings st (handled req body)
           | Verb GET | HEAD => (st, sent req (get_strings st (http_query req)))
           | _ => (st, page 404 v)
           end
      else (st, page 404 v)
  | [x; raw] =>
      if lit_eqb (js "strings") x && negb (isNil raw)
      then match decodeURIComponent raw with
           | None => (st, page 400 v)
           | Some value =>
               match v with
               | Verb GET | HEAD => (st, sent req (get_string st value))
               | Verb DELETE => delete_string st value
               | _ => (st, page 404 v)
               end
           end
      else (st, page 404 v)
  | _ => (st, page 404 v)
  end.
End Table.

(** The request with another method, and with its path below [/api/v1]. *)
Definition with_verb (v : verb) (req : http_request) : http_request :=
  {| http_verb := v; http_path := http_path req; http_query := http_query req;
     http_body := http_body req; http_fresh := http_fresh req |}.

Definition with_path (path : list jsstring) (req : http_request) : http_request :=
  {| http_verb := http_verb req; http_path := path;
     http_query := http_query req; http_body := http_body req;
     http_fresh := http_fresh req |}.

(** Requests that pass the body parser and carry no validator: Create with
    the JSON body [{ "value": s }], and [GET] and [DELETE] of
    [/strings/<raw>]. *)
Definition http_create (s : jsstring) : http_request :=
  {| http_verb := Verb POST; http_path := [js "strings"]; http_query := [];
     http_body := Parsed (JObject [(js "value", JString s)]);
     http_fresh := fun _ => false |}.

Definition http_get (raw : jsstring) : http_request :=
  {| http_verb := Verb GET; http_path := [js "strings"; raw]; http_query := [];
     http_body := Parsed (JObject []); http_fresh := fun _ => false |}.

Definition http_delete (raw : jsstring) : http_request :=
  {| http_verb := Verb DELETE; http_path := [js "strings"; raw];
     http_query := []; http_body := Parsed (JObject []);
     http_fresh := fun _ => false |}.

(** A request of the router above as it arrives: the same method, path and
    query, the body parsed ([{}] when there is none) and no validator. *)
Definition arriving (req : request) : http_request :=
  {| http_verb := Verb (req_method req);
     http_path := req_path req;
     http_query := req_query req;
     http_body := Parsed match req_body req with
                         | Some b => b
                         | None => JObject []
                         end;
     http_fresh := fun _ => false |}.

(** The responses to a run of requests as they arrive, in order, and the
    store after them. *)
Fixpoint exchange (app : store -> http_request -> store * response)
    (st : store) (reqs : list http_request) : store * list response :=
  match reqs with
  | [] => (st, [])
  | req :: reqs' =>
      let '(st', res) := app st req in
      let '(st'', rest) := exchange app st' reqs' in
      (st'', res :: rest)
  end.

(** The statuses a request may be answered with, by its method; the body
    parser answers with a status of its own. *)
Definition statuses (req : http_request) : list nat :=
  match http_verb req, http_body req with
  | OPTIONS, _ => [204]
  | _, Refused code => [code]
  | Verb POST, _ => [201; 400; 409; 422; 404]
  | Verb GET, _ | HEAD, _ => [200; 304; 400; 404]
  | Verb DELETE, _ => [204; 400; 404]
  | OtherVerb, _ => [400; 404]
  end%nat.

(** What a client would send for "hello world". *)
Definition hello_world_escaped : jsstring := js "hello%20world".
(* ================================================================== *)
(** * Part II.  Properties                                             *)
(* ================================================================== *)

(** ** Strings *)

Lemma jseqb_eq (a b : jsstring) : jseqb a b = true <-> a = b.
Proof.
  revert b; induction a as [|x a IH]; intros [|y b]; simpl; split;
    try congruence; try reflexivity.
  - intros H. apply andb_true_iff in H as [Hx Hab].
    apply N.eqb_eq in Hx. apply IH in Hab. congruence.
  - intros H. injection H as -> ->.
    apply andb_true_iff; split; [apply N.eqb_refl | now apply IH].
Qed.

Lemma jseqb_refl (a : jsstring) : jseqb a a = true.
Proof. now apply jseqb_eq. Qed.

Lemma jseqb_neq (a b : jsstring) : jseqb a b = false <-> a <> b.
Proof.
  split.
  - intros H E. apply jseqb_eq in E. congruence.
  - intros H. destruct (jseqb a b) eqn:E; [|reflexivity].
    apply jseqb_eq in E. contradiction.
Qed.

Lemma jseqb_sym (a b : jsstring) : jseqb a b = jseqb b a.
Proof.
  destruct (jseqb a b) eqn:E.
  - apply jseqb_eq in E; subst. now rewrite jseqb_refl.
  - symmetry. apply jseqb_neq. apply jseqb_neq in E. congruence.
Qed.

Lemma isNil_true (s : jsstring) : isNil s = true <-> s = [].
Proof. destruct s; simpl; split; congruence. Qed.

(** ** Trimming and words *)

Lemma trimStart_head (s : jsstring) :
  match trimStart s with
  | [] => True
  | c :: _ => isWhiteSpace c = false
  end.
Proof.
  induction s as [|c s IH]; simpl; [exact I|].
  destruct (isWhiteSpace c) eqn:E; [exact IH | exact E].
Qed.

Lemma trimStart_tokens (s : jsstring) :
  tokens_from [] (trimStart s) = tokens_from [] s.
Proof.
  induction s as [|c s IH]; simpl; [reflexivity|].
  destruct (isWhiteSpace c) eqn:E; simpl; [exact IH | now rewrite E].
Qed.

Lemma trimStart_nil (s : jsstring) :
  trimStart s = [] <-> forallb isWhiteSpace s = true.
Proof.
  induction s as [|c s IH]; simpl; [tauto|].
  destruct (isWhiteSpace c); simpl; [exact IH | split; congruence].
Qed.

Lemma trimEnd_snoc (s : jsstring) (c : code_unit) :
  trimEnd (s ++ [c]) = if isWhiteSpace c then trimEnd s else s ++ [c].
Proof.
  unfold trimEnd. rewrite rev_app_distr. simpl.
  destruct (isWhiteSpace c); [reflexivity|].
  simpl. now rewrite rev_involutive.
Qed.

Lemma trimEnd_nil : trimEnd [] = [].
Proof. reflexivity. Qed.

(** [trimEnd] cuts a white-space suffix off. *)
Lemma trimEnd_prefix (s : jsstring) :
  exists w, s = trimEnd s ++ w /\ forallb isWhiteSpace w = true.
Proof.
  induction s as [|c s IH] using rev_ind.
  - exists []. now rewrite trimEnd_nil.
  - rewrite trimEnd_snoc. destruct (isWhiteSpace c) eqn:E.
    + destruct IH as [w [Hs Hw]]. exists (w ++ [c]). split.
      * rewrite app_assoc. now rewrite <- Hs.
      * rewrite forallb_app, Hw. simpl. now rewrite E.
    + exists []. split; [now rewrite app_nil_r | reflexivity].
Qed.

Lemma endsInWord_snoc (s : jsstring) (c : code_unit) :
  endsInWord (s ++ [c]) = negb (isWhiteSpace c).
Proof.
  induction s as [|x s IH]; [reflexivity|].
  change ((x :: s) ++ [c]) with (x :: (s ++ [c])).
  cbn [endsInWord]. destruct (s ++ [c]) eqn:E; [|exact IH].
  now destruct s.
Qed.

Lemma trimEnd_endsInWord (s : jsstring) :
  trimEnd s = [] \/ endsInWord (trimEnd s) = true.
Proof.
  induction s as [|c s IH] using rev_ind; [now left|].
  rewrite trimEnd_snoc. destruct (isWhiteSpace c) eqn:E; [exact IH|].
  right. now rewrite endsInWord_snoc, E.
Qed.

Lemma tokens_from_snoc_ws (s cur : jsstring) (c : code_unit) :
  isWhiteSpace c = true -> tokens_from cur (s ++ [c]) = tokens_from cur s.
Proof.
  intros Hc. revert cur. induction s as [|x s IH]; intros cur; simpl.
  - rewrite Hc. now destruct (isNil cur).
  - destruct (isWhiteSpace x); [destruct (isNil cur)|]; now rewrite IH.
Qed.

Lemma trimEnd_tokens (s : jsstring) :
  tokens_from [] (trimEnd s) = tokens_from [] s.
Proof.
  induction s as [|c s IH] using rev_ind; [reflexivity|].
  rewrite trimEnd_snoc. destruct (isWhiteSpace c) eqn:E; [|reflexivity].
  now rewrite tokens_from_snoc_ws.
Qed.

Lemma trim_tokens (s : jsstring) : tokens (trim s) = tokens s.
Proof.
  unfold tokens, trim. now rewrite trimEnd_tokens, trimStart_tokens.
Qed.

Lemma trim_head (s : jsstring) :
  match trim s with
  | [] => True
  | c :: _ => isWhiteSpace c = false
  end.
Proof.
  unfold trim. pose proof (trimStart_head s) as H.
  destruct (trimEnd_prefix (trimStart s)) as [w [Hs _]].
  destruct (trimEnd (trimStart s)) as [|c t] eqn:E; [exact I|].
  rewrite Hs in H. exact H.
Qed.

(** Between two words, splitting at white space and reading tokens agree. *)
Lemma split_ws_tokens (s : jsstring) :
  (endsInWord s = true -> split_ws true [] s = tokens_from [] s) /\
  (forall piece, piece <> [] -> s = [] \/ endsInWord s = true ->
     split_ws false piece s = tokens_from piece s).
Proof.
  induction s as [|c s [IH1 IH2]]; split.
  - discriminate.
  - intros piece Hp _. simpl. destruct piece; [contradiction | reflexivity].
  - intros He. simpl. destruct (isWhiteSpace c) eqn:E.
    + apply IH1. cbn [endsInWord] in He. destruct s; [|exact He].
      now rewrite E in He.
    + apply IH2; [discriminate|]. cbn [endsInWord] in He.
      destruct s; [now left | now right].
  - intros piece Hp He. simpl.
    assert (Hs : isWhiteSpace c = true -> endsInWord s = true).
    { intros E. destruct He as [He|He]; [discriminate|].
      cbn [endsInWord] in He. destruct s; [|exact He]. now rewrite E in He. }
    assert (Hs' : s = [] \/ endsInWord s = true).
    { destruct He as [He|He]; [discriminate|]. cbn [endsInWord] in He.
      destruct s; [now left | now right]. }
    destruct (isWhiteSpace c) eqn:E.
    + destruct piece; [contradiction|]. cbn [isNil]. f_equal.
      apply IH1, Hs. reflexivity.
    + apply IH2; [discriminate | exact Hs'].
Qed.

Lemma tokens_nil_iff (s cur : jsstring) :
  tokens_from cur s = [] <-> cur = [] /\ forallb isWhiteSpace s = true.
Proof.
  revert cur. induction s as [|c s IH]; intros cur; simpl.
  - destruct cur; simpl; split; try tauto; try discriminate.
    intros [H _]; discriminate.
  - destruct (isWhiteSpace c) eqn:E; simpl.
    + destruct cur; simpl.
      * rewrite IH. tauto.
      * split; [discriminate | intros [H _]; discriminate].
    + rewrite IH. split; intros [H1 H2]; discriminate.
Qed.

Section WordCount.
Context {host : Host}.

(** The words the analyser counts are the tokens of the string. *)
Lemma words_are_tokens (s : jsstring) :
  (if (List.length (trim s) =? 0)%nat then [] else split_whitespace (trim s))
  = tokens s.
Proof.
  rewrite <- trim_tokens. pose proof (trim_head s) as Hh.
  destruct (trimEnd_endsInWord (trimStart s)) as [Hn|He]; fold (trim s) in *.
  - now rewrite Hn.
  - destruct (trim s) as [|c t] eqn:E; [reflexivity|].
    cbn [List.length Nat.eqb]. unfold split_whitespace, tokens.
    cbn [split_ws tokens_from]. rewrite Hh.
    apply (proj2 (split_ws_tokens t)); [discriminate|].
    cbn [endsInWord] in He. destruct t; [now left | now right].
Qed.

(** C9.  For every string, [analyse(s).wordCount] is the number of
    white-space-delimited tokens of the string, before or after trimming
    (a run of white space delimits once); it is 0 exactly when the string
    is empty or all white space; and the three examples of the
    specification hold. *)
Theorem wordCount_counts_tokens (s : jsstring) :
  Analysis.wordCount (analyse s) = List.length (tokens (trim s))
  /\ Analysis.wordCount (analyse s) = List.length (tokens s)
  /\ (Analysis.wordCount (analyse s) = 0%nat <-> forallb isWhiteSpace s = true)
  /\ Analysis.wordCount (analyse (js "")) = 0%nat
  /\ Analysis.wordCount (analyse (js "  ")) = 0%nat
  /\ Analysis.wordCount (analyse (js "one two  three")) = 3%nat.
Proof.
  assert (H : forall t, Analysis.wordCount (analyse t) = List.length (tokens t)).
  { intros t. cbn [analyse Analysis.wordCount]. now rewrite words_are_tokens. }
  repeat split; try (rewrite H; reflexivity).
  - now rewrite H, trim_tokens.
  - rewrite H. intros E. apply length_zero_iff_nil in E.
    now apply tokens_nil_iff in E.
  - intros E. rewrite H. apply length_zero_iff_nil.
    now apply tokens_nil_iff.
Qed.
End WordCount.

(** ** The palindrome test *)

Lemma in_range_0_127 (ch : code_unit) : ch < 128 -> In ch (range 0 127).
Proof.
  intros H. unfold range. apply in_map_iff. exists (N.to_nat ch). split.
  - apply N2Nat.id.
  - apply in_seq. change (N.to_nat 0) with 0%nat.
    change (N.to_nat 127 + 1 - 0)%nat with 128%nat. lia.
Qed.

Lemma ascii_cases (P : code_unit -> bool) :
  forallb P (range 0 127) = true -> forall ch, ch < 128 -> P ch = true.
Proof.
  intros H ch Hch. rewrite forallb_forall in H. apply H. now apply in_range_0_127.
Qed.

(** Under flag [i] the class [[0-9a-z]] is [[0-9a-zA-Z]]. *)
Lemma class_is_alnum (ch : code_unit) : negb (nonAlnum_i ch) = isAlnum ch.
Proof.
  destruct (N.ltb_spec ch 128) as [Hlt|Hge].
  - apply eqb_prop.
    apply (ascii_cases (fun c => Bool.eqb (negb (nonAlnum_i c)) (isAlnum c)));
      [vm_compute; reflexivity | exact Hlt].
  - unfold nonAlnum_i, inRange_i, isAlnum, isDigit, isUpper, isLower.
    replace (ch <? 128) with false by (symmetry; apply N.ltb_ge; exact Hge).
    cbn [andb orb negb].
    replace (ch <=? 57) with false by (symmetry; apply N.leb_gt; lia).
    replace (ch <=? 90) with false by (symmetry; apply N.leb_gt; lia).
    replace (ch <=? 122) with false by (symmetry; apply N.leb_gt; lia).
    now rewrite !andb_false_r.
Qed.

Lemma isAlnum_isAscii (ch : code_unit) : isAlnum ch = true -> isAscii ch = true.
Proof.
  unfold isAlnum, isDigit, isUpper, isLower, isAscii. intros H.
  apply N.ltb_lt.
  repeat (apply orb_true_iff in H as [H|H]);
    apply andb_true_iff in H as [_ H]; apply N.leb_le in H; lia.
Qed.

(** [cleaned.split("").reverse().join("")] is the reversal. *)
Lemma join_rev_split (s : jsstring) : join (rev (split_chars s)) = rev s.
Proof.
  unfold join, split_chars. induction s as [|c s IH]; [reflexivity|].
  simpl. rewrite concat_app, IH. simpl. reflexivity.
Qed.

Section Palindrome.
Context {host : Host}.

(** On ASCII the case tables of every host are the ASCII ones. *)
Hypothesis toLowerCase_ascii :
  forall s, forallb isAscii s = true -> toLowerCase s = map asciiLower s.

Lemma sanitize_projection (s : jsstring) :
  sanitizeForPalindrome s = projection s.
Proof.
  unfold sanitizeForPalindrome, projection.
  rewrite (filter_ext _ _ class_is_alnum).
  apply toLowerCase_ascii. apply forallb_forall. intros c Hc.
  apply filter_In in Hc as [_ Hc]. now apply isAlnum_isAscii.
Qed.

Lemma isPalindrome_projection (s : jsstring) :
  Analysis.isPalindrome (analyse s)
  = negb (isNil (projection s)) && jseqb (projection s) (rev (projection s)).
Proof.
  cbn [analyse Analysis.isPalindrome].
  rewrite join_rev_split, sanitize_projection.
  now destruct (projection s).
Qed.

(** C3.  For every string, [analyse(s).isPalindrome] is true if and only if
    the projection of the string (what is left of it after every character
    outside [0-9a-zA-Z] is removed and the rest is put in lower case) is
    not empty and equal to its reversal; a string whose projection is
    empty is no palindrome; and the three examples of the specification
    hold. *)
Theorem isPalindrome_iff (s : jsstring) :
  (Analysis.isPalindrome (analyse s) = true
   <-> projection s <> [] /\ projection s = rev (projection s))
  /\ (projection s = [] -> Analysis.isPalindrome (analyse s) = false)
  /\ Analysis.isPalindrome (analyse (js "A man a plan a canal Panama")) = true
  /\ Analysis.isPalindrome (analyse (js "hello")) = false
  /\ Analysis.isPalindrome (analyse (js "!!!")) = false.
Proof.
  repeat split; try (rewrite isPalindrome_projection; vm_compute; reflexivity).
  - rewrite isPalindrome_projection in H.
    apply andb_true_iff in H as [H _]. intros E. now rewrite E in H.
  - rewrite isPalindrome_projection in H.
    apply andb_true_iff in H as [_ H]. now apply jseqb_eq.
  - intros [Hne Hrev]. rewrite isPalindrome_projection.
    apply andb_true_iff. split.
    + destruct (projection s); [contradiction | reflexivity].
    + now apply jseqb_eq.
  - intros E. rewrite isPalindrome_projection, E. reflexivity.
Qed.
End Palindrome.

(** The ASCII host satisfies the assumption on the case tables, and at it the
    theorem says that "Was it a car or a cat I saw?" is a palindrome exactly
    when its projection reads the same both ways. *)
Lemma isPalindrome_iff_witness :
  (Analysis.isPalindrome (@analyse asciiHost (js "Was it a car or a cat I saw?")) = true
   <-> projection (js "Was it a car or a cat I saw?") <> []
       /\ projection (js "Was it a car or a cat I saw?")
          = rev (projection (js "Was it a car or a cat I saw?")))
  /\ (projection (js "Was it a car or a cat I saw?") = []
      -> Analysis.isPalindrome (@analyse asciiHost (js "Was it a car or a cat I saw?")) = false)
  /\ Analysis.isPalindrome (@analyse asciiHost (js "A man a plan a canal Panama")) = true
  /\ Analysis.isPalindrome (@analyse asciiHost (js "hello")) = false
  /\ Analysis.isPalindrome (@analyse asciiHost (js "!!!")) = false.
Proof.
  apply (@isPalindrome_iff asciiHost (fun s _ => eq_refl)).
Defined.

(** ** Keyed collections *)

Section KeyedFacts.
Variable V : Type.
Implicit Types (m : alist V) (k : jsstring) (v : V).

Lemma Map_get_set_same m k v : Map_get (Map_set m k v) k = Some v.
Proof.
  induction m as [|[k' v'] m IH]; simpl.
  - now rewrite jseqb_refl.
  - destruct (jseqb k k') eqn:E; simpl; rewrite E; [reflexivity | exact IH].
Qed.

Lemma Map_get_set_other m k k' v :
  jseqb k' k = false -> Map_get (Map_set m k v) k' = Map_get m k'.
Proof.
  intros Hk. induction m as [|[k0 v0] m IH]; simpl.
  - now rewrite Hk.
  - destruct (jseqb k k0) eqn:E; simpl.
    + apply jseqb_eq in E; subst k0. now rewrite Hk.
    + now rewrite IH.
Qed.

Lemma Map_get_set m k k' v :
  Map_get (Map_set m k v) k' = if jseqb k' k then Some v else Map_get m k'.
Proof.
  destruct (jseqb k' k) eqn:E.
  - apply jseqb_eq in E; subst. apply Map_get_set_same.
  - now apply Map_get_set_other.
Qed.

Lemma Map_has_set_same m k v : Map_has (Map_set m k v) k = true.
Proof. unfold Map_has. now rewrite Map_get_set_same. Qed.

Lemma Map_has_In m k : Map_has m k = true <-> In k (Map_keys m).
Proof.
  unfold Map_has. induction m as [|[k' v'] m IH]; simpl.
  - split; [discriminate | tauto].
  - destruct (jseqb k k') eqn:E.
    + apply jseqb_eq in E. split; [now left | reflexivity].
    + apply jseqb_neq in E. rewrite IH. split; [now right|].
      intros [H|H]; [congruence | exact H].
Qed.

Lemma Map_keys_set m k v :
  Map_keys (Map_set m k v) = if Map_has m k then Map_keys m else Map_keys m ++ [k].
Proof.
  unfold Map_has. induction m as [|[k' v'] m IH]; simpl; [reflexivity|].
  destruct (jseqb k k') eqn:E; simpl; [reflexivity|].
  rewrite IH. now destruct (Map_get m k).
Qed.

Lemma Map_values_set_new m k v :
  Map_has m k = false -> Map_values (Map_set m k v) = Map_values m ++ [v].
Proof.
  unfold Map_has. induction m as [|[k' v'] m IH]; simpl; [reflexivity|].
  destruct (jseqb k k') eqn:E; [discriminate|].
  intros H. simpl. now rewrite IH.
Qed.

Lemma Map_keys_NoDup_set m k v :
  NoDup (Map_keys m) -> NoDup (Map_keys (Map_set m k v)).
Proof.
  intros H. rewrite Map_keys_set. destruct (Map_has m k) eqn:E; [exact H|].
  apply NoDup_app; [exact H | repeat constructor; intros [] |].
  intros x Hx [Hk|[]]. subst x. apply Map_has_In in Hx. congruence.
Qed.

Lemma Map_get_delete m k k' :
  Map_get (Map_delete m k) k' = if jseqb k' k then None else Map_get m k'.
Proof.
  unfold Map_delete. induction m as [|[k0 v0] m IH]; simpl.
  - now destruct (jseqb k' k).
  - destruct (jseqb k k0) eqn:E; simpl.
    + apply jseqb_eq in E; subst k0. rewrite IH.
      now destruct (jseqb k' k).
    + rewrite IH. destruct (jseqb k' k) eqn:E'; [|reflexivity].
      apply jseqb_eq in E'; subst k'. now rewrite E.
Qed.

Lemma Map_has_delete_same m k : Map_has (Map_delete m k) k = false.
Proof. unfold Map_has. now rewrite Map_get_delete, jseqb_refl. Qed.

(** Deleting a key that is not there changes nothing. *)
Lemma Map_delete_absent m k : Map_has m k = false -> Map_delete m k = m.
Proof.
  unfold Map_has, Map_delete. induction m as [|[k' v'] m IH]; simpl; [reflexivity|].
  destruct (jseqb k k') eqn:E; [discriminate|].
  intros H. simpl. now rewrite IH.
Qed.

(** A key set when absent and deleted again leaves the collection as it was. *)
Lemma Map_delete_set_new m k v :
  Map_has m k = false -> Map_delete (Map_set m k v) k = m.
Proof.
  unfold Map_has, Map_delete. induction m as [|[k' v'] m IH]; simpl.
  - now rewrite jseqb_refl.
  - destruct (jseqb k k') eqn:E; [discriminate|].
    intros H. simpl. rewrite E. simpl. now rewrite IH.
Qed.
End KeyedFacts.

(** ** The frequency object *)

Lemma sumCounts_set (m : alist nat) (k : jsstring) (v : nat) :
  (sumCounts (Map_set m k v) + or_zero (Map_get m k) = sumCounts m + v)%nat.
Proof.
  unfold sumCounts. induction m as [|[k' v'] m IH]; simpl; [lia|].
  destruct (jseqb k k') eqn:E; simpl; lia.
Qed.

Lemma sumCounts_count_char (m : alist nat) (ch : jsstring) :
  sumCounts (count_char m ch) = S (sumCounts m).
Proof.
  unfold count_char.
  pose proof (sumCounts_set m ch (or_zero (Map_get m ch) + 1)). lia.
Qed.

Lemma sumCounts_fold (l : list jsstring) (m : alist nat) :
  sumCounts (fold_left count_char l m) = (List.length l + sumCounts m)%nat.
Proof.
  revert m. induction l as [|x l IH]; intros m; simpl; [reflexivity|].
  rewrite IH, sumCounts_count_char. lia.
Qed.

Lemma keys_NoDup_fold (l : list jsstring) (m : alist nat) :
  NoDup (Map_keys m) -> NoDup (Map_keys (fold_left count_char l m)).
Proof.
  revert m. induction l as [|x l IH]; intros m H; simpl; [exact H|].
  apply IH. now apply Map_keys_NoDup_set.
Qed.

(** The count stored for a key is the number of its occurrences. *)
Lemma Map_get_fold (l : list jsstring) (m : alist nat) (k : jsstring) :
  Map_get (fold_left count_char l m) k =
  match occurrences k l with
  | O => Map_get m k
  | S n => Some (S n + or_zero (Map_get m k))%nat
  end.
Proof.
  revert m. induction l as [|x l IH]; intros m; simpl; [reflexivity|].
  rewrite IH. unfold count_char. rewrite Map_get_set.
  destruct (jseqb k x) eqn:E.
  - apply jseqb_eq in E; subst x. simpl.
    destruct (occurrences k l); simpl; f_equal; lia.
  - simpl. reflexivity.
Qed.

Lemma occurrences_In (k : jsstring) (l : list jsstring) :
  (1 <= occurrences k l)%nat <-> In k l.
Proof.
  induction l as [|x l IH]; simpl; [split; [lia | tauto]|].
  destruct (jseqb k x) eqn:E.
  - apply jseqb_eq in E. split; [now left | lia].
  - apply jseqb_neq in E. simpl. rewrite IH.
    split; [now right | intros [H|H]; [congruence | exact H]].
Qed.

Lemma codePoints_cons (c : code_unit) (s : jsstring) :
  codePoints (c :: s) =
  match s with
  | d :: s' => if isHighSurrogate c && isLowSurrogate d
               then [c; d] :: codePoints s'
               else [c] :: codePoints s
  | [] => [[c]]
  end.
Proof. reflexivity. Qed.

Lemma hasSurrogatePair_cons (c d : code_unit) (s : jsstring) :
  hasSurrogatePair (c :: d :: s)
  = (isHighSurrogate c && isLowSurrogate d) || hasSurrogatePair (d :: s).
Proof. reflexivity. Qed.

(** The iterator yields at most one element per code unit, and fewer exactly
    when a surrogate pair occurs. *)
Lemma codePoints_length (n : nat) (s : jsstring) :
  (List.length s <= n)%nat ->
  (List.length (codePoints s) <= List.length s)%nat
  /\ ((List.length (codePoints s) <? List.length s)%nat = hasSurrogatePair s).
Proof.
  revert s. induction n as [|n IH]; intros s Hn.
  - destruct s; [split; reflexivity | simpl in Hn; lia].
  - destruct s as [|c [|d s]]; [split; reflexivity | split; reflexivity |].
    rewrite codePoints_cons, hasSurrogatePair_cons.
    destruct (isHighSurrogate c && isLowSurrogate d) eqn:E.
    + assert (Hs : (List.length s <= n)%nat) by (simpl in Hn; lia).
      destruct (IH s Hs) as [H1 _].
      cbn [orb]. simpl List.length.
      split; [|apply Nat.ltb_lt]; clear - H1; lia.
    + assert (Hs : (List.length (d :: s) <= n)%nat) by (simpl in *; lia).
      destruct (IH (d :: s) Hs) as [H1 H2].
      cbn [orb]. rewrite <- H2.
      change (List.length ([c] :: codePoints (d :: s)))
        with (S (List.length (codePoints (d :: s)))).
      change (List.length (c :: d :: s)) with (S (List.length (d :: s))).
      split; [clear - H1; lia | reflexivity].
Qed.

Section Frequency.
Context {host : Host}.

(** C10.  For every string, with [freq] the [characterFrequency] of its
    record: the keys of [freq] are exactly the elements the string iterator
    yields (the code points of the string), each once; the count of a key
    is the number of its occurrences, hence at least 1; [uniqueCharacters]
    is the number of keys, which is the number of distinct code points;
    the counts add up to the number of code points; that number never
    exceeds [length], the number of UTF-16 code units, and is strictly
    smaller exactly when the string holds a surrogate pair. *)
Theorem characterFrequency_invariant (s : jsstring) :
  let r := analyse s in
  let freq := Analysis.characterFrequency r in
  (forall k, In k (Map_keys freq) <-> In k (codePoints s))
  /\ NoDup (Map_keys freq)
  /\ (forall k n, Map_get freq k = Some n ->
        (1 <= n)%nat /\ n = occurrences k (codePoints s))
  /\ Analysis.uniqueCharacters r = List.length (Map_keys freq)
  /\ Analysis.uniqueCharacters r = List.length (distinct (codePoints s))
  /\ sumCounts freq = List.length (codePoints s)
  /\ Analysis.length r = List.length s
  /\ (List.length (codePoints s) <= Analysis.length r)%nat
  /\ ((List.length (codePoints s) <? Analysis.length r)%nat = hasSurrogatePair s).
Proof.
  cbn zeta. cbn [analyse Analysis.characterFrequency Analysis.uniqueCharacters
                 Analysis.length].
  set (freq := fold_left count_char (codePoints s) []).
  assert (Hget : forall k, Map_get freq k =
                   match occurrences k (codePoints s) with
                   | O => None | S n => Some (S n) end).
  { intros k. unfold freq. rewrite Map_get_fold. simpl.
    destruct (occurrences k (codePoints s)); [reflexivity | f_equal; lia]. }
  assert (Hkeys : forall k, In k (Map_keys freq) <-> In k (codePoints s)).
  { intros k. rewrite <- Map_has_In, <- occurrences_In. unfold Map_has.
    rewrite Hget. destruct (occurrences k (codePoints s));
      split; intros H; try lia; try reflexivity; discriminate. }
  assert (Hnd : NoDup (Map_keys freq)).
  { unfold freq. apply keys_NoDup_fold. constructor. }
  repeat split.
  - apply Hkeys.
  - apply Hkeys.
  - exact Hnd.
  - rewrite Hget in H. destruct (occurrences k (codePoints s)); [discriminate|].
    injection H as <-. lia.
  - rewrite Hget in H. destruct (occurrences k (codePoints s)); [discriminate|].
    now injection H as <-.
  - pose proof (NoDup_nodup (list_eq_dec N.eq_dec) (codePoints s)) as Hnd'.
    apply Nat.le_antisymm; apply NoDup_incl_length; try assumption;
      intros k Hk.
    + apply nodup_In. now apply Hkeys.
    + apply Hkeys. now apply nodup_In in Hk.
  - unfold freq. rewrite sumCounts_fold. unfold sumCounts. simpl. lia.
  - apply (codePoints_length (List.length s) s). lia.
  - apply (codePoints_length (List.length s) s). lia.
Qed.
End Frequency.

(** At the ASCII host, for an astral character followed by "aa": the count
    of "a" is 2, there are three code points in four code units. *)
Lemma characterFrequency_invariant_witness :
  ((1 <= 2)%nat /\ 2%nat = occurrences [97] (codePoints astral_aa))
  /\ hasSurrogatePair astral_aa = true
  /\ List.length (codePoints astral_aa) = 3%nat
  /\ Analysis.length (@analyse asciiHost astral_aa) = 4%nat.
Proof.
  split; [|repeat split].
  exact (proj1 (proj2 (proj2 (@characterFrequency_invariant asciiHost astral_aa)))
           [97] 2%nat eq_refl).
Defined.

(** ** Create, get and delete *)

Arguments js s%_string : simpl never.
Arguments analyse {host} value : simpl never.

Section Store.
Context {host : Host}.
Local Open Scope nat_scope.

Lemma post_strings_outcome (st : store) (req : request) :
  create_outcome st req (post_strings st req).
Proof.
  unfold create_outcome, post_strings, value_field, hasOwnProperty,
    getProperty, Map_has.
  destruct (req_body req) as [[| | | | |props]|]; simpl; try (repeat split; fail).
  destruct (Map_get props (js "value")) as [[| | |s| |]|]; simpl;
    try (repeat split; fail).
  fold (Map_has st s).
  destruct (Map_has st s) eqn:E; simpl; repeat split.
  - apply Map_get_set_same.
  - now apply Map_values_set_new.
Qed.

Lemma post_strings_v1_outcome (st : store) (req : request) :
  create_outcome st req (post_strings_v1 st req).
Proof.
  unfold create_outcome, post_strings_v1, value_field, getProperty.
  destruct (req_body req) as [[|b|n|s| |props]|]; simpl; try (repeat split; fail).
  - destruct b; simpl; repeat split.
  - destruct (match n with NaN => false | Infinity _ => true
              | Finite q => negb (Qeq_bool q 0) end); simpl; repeat split.
  - destruct (negb (isNil s)); simpl; repeat split.
  - destruct (Map_get props (js "value")) as [[| | |s| |]|]; simpl;
      try (repeat split; fail).
    destruct (Map_has st s) eqn:E; simpl; repeat split.
    + apply Map_get_set_same.
    + now apply Map_values_set_new.
Qed.

Lemma serve_create (st : store) (req : request) :
  req_method req = POST ->
  (req_path req = [js "strings"] -> server st req = post_strings st req)
  /\ (req_path req = [js "api"; js "v1"; js "strings"] ->
      server_v1 st req = post_strings_v1 st req).
Proof.
  intros Hm. unfold server, server_v1, serve.
  split; intros Hp; cbn [findRoute server_routes api_v1_routes api_v1
                         route_method route_path];
    rewrite Hm, Hp; cbn [method_eqb]; [change (matchPath [Lit (js "strings")] [js "strings"]) with (Some (@nil jsstring))
    | change (matchPath (api_v1 []) [js "api"; js "v1"; js "strings"])
        with (Some (@nil jsstring))];
    cbn [route_handler]; unfold h_create, h_create_v1.
  - now destruct (post_strings st req).
  - now destruct (post_strings_v1 st req).
Qed.

(** C2.  For every Create request, on [/strings] and on [/api/v1/strings]
    alike: a body without a [value] field is answered 400; a [value] that
    is no string 422; a string already stored 409; any other string 201
    with its full analysis record, which is then stored under that exact
    string ([create_outcome] spells the cases out).  A [POST] to either
    path is answered by the Create handler of its file. *)
Theorem create_contract (st : store) (req : request) :
  create_outcome st req (post_strings st req)
  /\ create_outcome st req (post_strings_v1 st req)
  /\ (req_method req = POST -> req_path req = [js "strings"] ->
      server st req = post_strings st req)
  /\ (req_method req = POST -> req_path req = [js "api"; js "v1"; js "strings"] ->
      server_v1 st req = post_strings_v1 st req).
Proof.
  split; [apply post_strings_outcome|].
  split; [apply post_strings_v1_outcome|].
  split; intros Hm; now apply serve_create.
Qed.

(** The two Create handlers are one function. *)
Lemma post_strings_v1_same (st : store) (req : request) :
  post_strings_v1 st req = post_strings st req.
Proof.
  unfold post_strings_v1, post_strings, hasOwnProperty, getProperty, Map_has.
  destruct (req_body req) as [[|b|n|s| |props]|]; simpl; try reflexivity.
  - now destruct b.
  - now destruct n as [| |q]; [| |destruct (negb (Qeq_bool q 0))].
  - now destruct (negb (isNil s)).
  - now destruct (Map_get props (js "value")) as [[| | |s| |]|].
Qed.

Lemma post_strings_create (st : store) (path : list jsstring) (s : jsstring) :
  post_strings st (create_request path s)
  = if Map_has st s
    then (st, sendError 409 "String already exists")
    else (Map_set st s (analyse s),
          {| status := 201; body := RecordBody (analyse s) |}).
Proof.
  unfold post_strings, create_request, hasOwnProperty, getProperty, Map_has.
  simpl. try rewrite jseqb_refl. reflexivity.
Qed.

(** C7.  For every string and every store, through either Create handler:
    Create answers 201 exactly when the string is not stored and 409
    exactly when it is; after a Create a second Create of the same string
    answers 409 and leaves the store as it was; and after a Create, a
    Delete of the string answers 204 and the next Create 201 again. *)
Theorem create_exactly_when_absent (st : store) (s : jsstring) :
  forall create : store -> store * response,
    create = (fun st => post_strings st (create_request [js "strings"] s))
    \/ create = (fun st => post_strings_v1 st
                   (create_request [js "api"; js "v1"; js "strings"] s)) ->
    (status (snd (create st)) = 201 <-> Map_has st s = false)
    /\ (status (snd (create st)) = 409 <-> Map_has st s = true)
    /\ (let st1 := fst (create st) in
        status (snd (create st1)) = 409 /\ fst (create st1) = st1)
    /\ (let st1 := fst (create st) in
        let st2 := fst (delete_string st1 s) in
        status (snd (delete_string st1 s)) = 204
        /\ Map_has st2 s = false
        /\ status (snd (create st2)) = 201).
Proof.
  intros create Hc.
  assert (E : forall st0, create st0 =
                if Map_has st0 s
                then (st0, sendError 409 "String already exists")
                else (Map_set st0 s (analyse s),
                      {| status := 201; body := RecordBody (analyse s) |})).
  { intros st0. destruct Hc as [-> | ->].
    - apply post_strings_create.
    - rewrite post_strings_v1_same. apply post_strings_create. }
  assert (H1 : Map_has (fst (create st)) s = true).
  { rewrite E. destruct (Map_has st s) eqn:Hs; simpl;
      [exact Hs | apply Map_has_set_same]. }
  repeat split.
  - rewrite E. destruct (Map_has st s); simpl; [discriminate | reflexivity].
  - intros Hs. now rewrite E, Hs.
  - rewrite E. destruct (Map_has st s); simpl; [reflexivity | discriminate].
  - intros Hs. now rewrite E, Hs.
  - cbn zeta. now rewrite (E (fst (create st))), H1.
  - cbn zeta. now rewrite (E (fst (create st))), H1.
  - cbn zeta. unfold delete_string. now rewrite H1.
  - cbn zeta. unfold delete_string. rewrite H1. simpl.
    apply Map_has_delete_same.
  - cbn zeta. unfold delete_string. rewrite H1. simpl.
    now rewrite E, Map_has_delete_same.
Qed.
End Store.

(** At the ASCII host, with the store empty and the string "abc" created
    through [/strings]. *)
Lemma create_exactly_when_absent_witness :
  let create := fun st => @post_strings asciiHost st (create_request [js "strings"] (js "abc")) in
  (status (snd (create [])) = 201%nat <-> Map_has (V:=Analysis.record) [] (js "abc") = false)
  /\ (status (snd (create [])) = 409%nat <-> Map_has (V:=Analysis.record) [] (js "abc") = true)
  /\ (let st1 := fst (create []) in
      status (snd (create st1)) = 409%nat /\ fst (create st1) = st1)
  /\ (let st1 := fst (create []) in
      let st2 := fst (delete_string st1 (js "abc")) in
      status (snd (delete_string st1 (js "abc"))) = 204%nat
      /\ Map_has st2 (js "abc") = false
      /\ status (snd (create st2)) = 201%nat).
Proof.
  exact (@create_exactly_when_absent asciiHost [] (js "abc") _ (or_introl eq_refl)).
Defined.

(** ** The list/filter operation *)

Lemma filter_true {A : Type} (l : list A) : filter (fun _ => true) l = l.
Proof. induction l as [|x l IH]; simpl; [reflexivity | now rewrite IH]. Qed.

Lemma filter_and {A : Type} (p q : A -> bool) (l : list A) :
  filter q (filter p l) = filter (fun x => p x && q x) l.
Proof.
  induction l as [|x l IH]; simpl; [reflexivity|].
  destruct (p x); simpl; [destruct (q x)|]; now rewrite IH.
Qed.

Lemma filter4 {A : Type} (p1 p2 p3 p4 : A -> bool) (l : list A) :
  filter p4 (filter p3 (filter p2 (filter p1 l)))
  = filter (fun x => p1 x && p2 x && p3 x && p4 x) l.
Proof.
  rewrite !filter_and. apply filter_ext. intros x. now rewrite !andb_assoc.
Qed.

(** Closes the branch of a check that fails. *)
Ltac failed_check :=
  cbn [negb find attempt_bind try_catch];
  unfold failure_message, throws, field_value; cbn [numeric andb];
  change (js (field_name FIsPalindrome)) with (js "isPalindrome");
  change (js (field_name FMinLength)) with (js "minLength");
  change (js (field_name FMaxLength)) with (js "maxLength");
  change (js (field_name FWordCount)) with (js "wordCount");
  repeat match goal with
         | E : Map_get _ _ = _ |- _ => rewrite E; clear E
         end;
  repeat match goal with
         | E : Number _ = _ |- _ => rewrite E; clear E
         end;
  reflexivity.

Section ListFilter.
Context {host : Host}.
Local Open Scope nat_scope.

Lemma by_isPalindrome_spec v results :
  by_isPalindrome v results =
  match v with
  | Some x =>
      if negb (strictEq x (js "true")) && negb (strictEq x (js "false"))
      then Sent (sendError 400 (message_of FIsPalindrome))
      else Next (filter (holds_isPalindrome v) results)
  | None => Next (filter (holds_isPalindrome v) results)
  end.
Proof. destruct v; simpl; [reflexivity | now rewrite filter_true]. Qed.

Lemma by_minLength_spec v results :
  by_minLength v results =
  match v with
  | Some x =>
      match Number x with
      | None => Thrown cannot_convert
      | Some n =>
          if negb (isFinite n)
          then Sent (sendError 400 (message_of FMinLength))
          else Next (filter (holds_minLength v) results)
      end
  | None => Next (filter (holds_minLength v) results)
  end.
Proof.
  destruct v as [x|]; simpl; [|now rewrite filter_true].
  destruct (Number x) as [n|] eqn:E; [|reflexivity].
  destruct (negb (isFinite n)); [reflexivity|].
  f_equal. apply filter_ext. intros r. cbn. now rewrite E.
Qed.

Lemma by_maxLength_spec v results :
  by_maxLength v results =
  match v with
  | Some x =>
      match Number x with
      | None => Thrown cannot_convert
      | Some n =>
          if negb (isFinite n)
          then Sent (sendError 400 (message_of FMaxLength))
          else Next (filter (holds_maxLength v) results)
      end
  | None => Next (filter (holds_maxLength v) results)
  end.
Proof.
  destruct v as [x|]; simpl; [|now rewrite filter_true].
  destruct (Number x) as [n|] eqn:E; [|reflexivity].
  destruct (negb (isFinite n)); [reflexivity|].
  f_equal. apply filter_ext. intros r. cbn. now rewrite E.
Qed.

Lemma by_wordCount_spec v results :
  by_wordCount v results =
  match v with
  | Some x =>
      match Number x with
      | None => Thrown cannot_convert
      | Some n =>
          if negb (isFinite n)
          then Sent (sendError 400 (message_of FWordCount))
          else Next (filter (holds_wordCount v) results)
      end
  | None => Next (filter (holds_wordCount v) results)
  end.
Proof.
  destruct v as [x|]; simpl; [|now rewrite filter_true].
  destruct (Number x) as [n|] eqn:E; [|reflexivity].
  destruct (negb (isFinite n)); [reflexivity|].
  f_equal. apply filter_ext. intros r. cbn. now rewrite E.
Qed.

Lemma by_contains_spec v results :
  by_contains v results =
  if convertible v || match results with [] => true | _ :: _ => false end
  then Next (filter (holds_contains v) results)
  else Thrown cannot_convert.
Proof.
  destruct v as [x|]; simpl; [|now rewrite filter_true].
  destruct results as [|r results]; [now rewrite orb_true_r|].
  destruct (ToString x) as [t|] eqn:E; [|reflexivity].
  cbn [orb]. f_equal. apply filter_ext. intros r'. cbn. now rewrite E.
Qed.

(** The operation in one equation: the first parameter whose check fails, in
    the order of the checks, decides the failure; without one the answer
    lists the records that satisfy every predicate supplied, unless the
    conversion of [contains] throws at one of them. *)
Lemma get_strings_spec (st : store) (query : alist qvalue) :
  get_strings st query =
  match first_rejected query with
  | Some f => sendError 400 (failure_message query f)
  | None =>
      if bad_contains st query then sendError 400 "Bad query"
      else listing (filter (satisfies query) (Map_values st))
  end.
Proof.
  unfold get_strings, first_rejected, checks, rejected, finite_number,
    field_value, bad_contains, passes.
  cbn [find numeric andb].
  change (js (field_name FIsPalindrome)) with (js "isPalindrome").
  change (js (field_name FMinLength)) with (js "minLength").
  change (js (field_name FMaxLength)) with (js "maxLength").
  change (js (field_name FWordCount)) with (js "wordCount").
  rewrite by_isPalindrome_spec.
  destruct (Map_get query (js "isPalindrome")) as [vp|] eqn:Ep;
    [destruct (negb (strictEq vp (js "true")) && negb (strictEq vp (js "false")));
     [failed_check|]|];
    cbn [attempt_bind]; rewrite by_minLength_spec;
    (destruct (Map_get query (js "minLength")) as [vmin|] eqn:Emin;
     [destruct (Number vmin) as [nmin|] eqn:Nmin;
      [destruct (negb (isFinite nmin)); [failed_check|]|failed_check]|]);
    cbn [attempt_bind]; rewrite by_maxLength_spec;
    (destruct (Map_get query (js "maxLength")) as [vmax|] eqn:Emax;
     [destruct (Number vmax) as [nmax|] eqn:Nmax;
      [destruct (negb (isFinite nmax)); [failed_check|]|failed_check]|]);
    cbn [attempt_bind]; rewrite by_wordCount_spec;
    (destruct (Map_get query (js "wordCount")) as [vw|] eqn:Ew;
     [destruct (Number vw) as [nw|] eqn:Nw;
      [destruct (negb (isFinite nw)); [failed_check|]|failed_check]|]);
    cbn [attempt_bind negb]; rewrite filter4, by_contains_spec;
    match goal with
    | |- context [filter ?p (Map_values st)] =>
        replace (filter (satisfies query) (Map_values st))
          with (filter (holds_contains (Map_get query (js "contains")))
                  (filter p (Map_values st)))
          by (rewrite filter_and; apply filter_ext; intros r; unfold satisfies;
              now rewrite ?Ep, ?Emin, ?Emax, ?Ew);
        destruct (convertible (Map_get query (js "contains")));
        [reflexivity|];
        destruct (filter p (Map_values st)); reflexivity
    end.
Qed.

(** Whenever the operation answers 200 it lists the records that satisfy
    every predicate supplied. *)
Lemma get_strings_200 (st : store) (query : alist qvalue) :
  status (get_strings st query) = 200 ->
  first_rejected query = None /\ bad_contains st query = false
  /\ get_strings st query = listing (filter (satisfies query) (Map_values st)).
Proof.
  rewrite get_strings_spec.
  destruct (first_rejected query); [discriminate|].
  destruct (bad_contains st query); [discriminate|]. now repeat split.
Qed.

Lemma bad_contains_convertible (st : store) (query : alist qvalue) :
  convertible (Map_get query (js "contains")) = true ->
  bad_contains st query = false.
Proof. intros H. unfold bad_contains. now rewrite H. Qed.
End ListFilter.

Lemma message_of_inj (f g : field) : message_of f = message_of g -> f = g.
Proof. destruct f, g; intros H; try reflexivity; discriminate H. Qed.

Lemma all_checked (f : field) : In f checks.
Proof. destruct f; simpl; tauto. Qed.

Lemma message_not_bad_query (f : field) : message_of f <> "Bad query"%string.
Proof. destruct f; discriminate. Qed.

Section Validation.
Context {host : Host}.
Local Open Scope nat_scope.

Lemma first_rejected_some (query : alist qvalue) (f : field) :
  rejected query f = true ->
  exists g, first_rejected query = Some g /\ rejected query g = true.
Proof.
  intros Hf. unfold first_rejected.
  destruct (find (rejected query) checks) as [g|] eqn:E.
  - exists g. split; [reflexivity|]. now apply find_some in E.
  - pose proof (find_none _ _ E f (all_checked f)). congruence.
Qed.

Lemma first_rejected_first (query : alist qvalue) (f : field) :
  rejected query f = true ->
  (forall g, In g (checked_before f) -> rejected query g = false) ->
  first_rejected query = Some f.
Proof.
  intros Hf Hb. unfold first_rejected, checks.
  destruct f; cbn [find checked_before] in *;
    repeat (rewrite Hb by (simpl; tauto)); now rewrite Hf.
Qed.

Lemma first_rejected_not_after (query : alist qvalue) (f g : field) :
  rejected query f = true -> first_rejected query = Some g ->
  g = f \/ In g (checked_before f).
Proof.
  intros Hf. unfold first_rejected, checks.
  destruct f; cbn [find checked_before];
    repeat match goal with
           | |- context [if rejected query ?x then _ else _] =>
               destruct (rejected query x) eqn:?
           end;
    intros H; try discriminate; injection H as <-; simpl; tauto.
Qed.

Lemma throws_rejected (query : alist qvalue) (f : field) :
  throws query f = true -> rejected query f = true.
Proof.
  unfold throws, rejected, finite_number.
  destruct (field_value query f) as [v|]; [|discriminate].
  destruct (numeric f); [|discriminate].
  now destruct (Number v).
Qed.

(** C5 (as amended).  For every list/filter request in which a numeric
    parameter ([minLength], [maxLength] or [wordCount]) is present with a
    value that does not parse as a finite number, the response is a 400 with
    an [{ error }] body and no result set, decided by the first parameter
    whose check fails in the order [isPalindrome], [minLength], [maxLength],
    [wordCount]: that numeric parameter itself when none checked before it
    is refused, an earlier one otherwise.  The message names that first
    parameter, unless the conversion of its value to a number throws (an
    object that owns a [toString] key): then the [catch] answers "Bad
    query", which names no parameter.  A failure names a parameter only
    when its value is refused, so a value that parses as a finite number is
    never the one rejected; and each message names its own parameter and no
    other. *)
Theorem numeric_parameter_validation (st : store) (query : alist qvalue) :
  (forall f, numeric f = true -> rejected query f = true ->
     exists g, first_rejected query = Some g
               /\ rejected query g = true
               /\ (g = f \/ In g (checked_before f))
               /\ get_strings st query = sendError 400 (failure_message query g)
               /\ status (get_strings st query) = 400
               /\ isErrorBody (get_strings st query) = true)
  /\ (forall f, numeric f = true -> rejected query f = true ->
        (forall g, In g (checked_before f) -> rejected query g = false) ->
        get_strings st query = sendError 400 (failure_message query f))
  /\ (forall f, failure_message query f
                = if throws query f then "Bad query"%string else message_of f)
  /\ (forall f, get_strings st query = sendError 400 (message_of f) ->
        rejected query f = true /\ throws query f = false)
  /\ (forall f v, numeric f = true -> field_value query f = Some v ->
        finite_number v = true ->
        rejected query f = false
        /\ get_strings st query <> sendError 400 (message_of f))
  /\ (forall f g, names (message_of f) g = true <-> g = f)
  /\ (forall g, names "Bad query" g = false)
  /\ (first_rejected query = None ->
      (bad_contains st query = false -> status (get_strings st query) = 200)
      /\ (bad_contains st query = true ->
          get_strings st query = sendError 400 "Bad query")).
Proof.
  assert (H3 : forall f, get_strings st query = sendError 400 (message_of f) ->
                 rejected query f = true /\ throws query f = false).
  { intros f. rewrite get_strings_spec. unfold first_rejected.
    destruct (find (rejected query) checks) as [g|] eqn:E.
    - unfold failure_message. destruct (throws query g) eqn:Et.
      + intros H. injection H as H. symmetry in H.
        now apply message_not_bad_query in H.
      + intros H. injection H as H. apply message_of_inj in H. subst g.
        split; [now apply find_some in E | exact Et].
    - destruct (bad_contains st query); [|discriminate].
      intros H. injection H as H. symmetry in H.
      now apply message_not_bad_query in H. }
  split; [|split; [|split; [reflexivity|split; [exact H3|split; [|split; [|split]]]]]].
  - intros f _ Hf. destruct (first_rejected_some query f Hf) as [g [Hg Hr]].
    exists g. rewrite get_strings_spec, Hg.
    pose proof (first_rejected_not_after query f g Hf Hg).
    repeat split; assumption.
  - intros f _ Hf Hb. rewrite get_strings_spec.
    now rewrite (first_rejected_first query f Hf Hb).
  - intros f v Hn Hv Hfin.
    assert (Hr : rejected query f = false).
    { unfold rejected. now rewrite Hv, Hn, Hfin. }
    split; [exact Hr|]. intros H. apply H3 in H. destruct H. congruence.
  - intros f g. split.
    + destruct f, g; intros H; try reflexivity; vm_compute in H; discriminate H.
    + intros ->. now destruct f.
  - intros g. now destruct g.
  - intros H. rewrite get_strings_spec, H.
    split; intros Hb; now rewrite Hb.
Qed.

(** C6.  For every store and every valid combination of the predicates (no
    parameter is refused, and the value of [contains], when there is one,
    converts to a string), the list/filter operation answers 200 with
    exactly the stored records that satisfy all the predicates supplied
    ([isPalindrome], [minLength], [maxLength], [wordCount], [contains]; an
    absent one holds of every record), in the order of the store, and with
    [count] their number. *)
Theorem filter_is_intersection (st : store) (query : alist qvalue) :
  first_rejected query = None ->
  convertible (Map_get query (js "contains")) = true ->
  let matched := filter (satisfies query) (Map_values st) in
  get_strings st query
    = {| status := 200; body := ListBody (List.length matched) matched |}
  /\ (forall r, In r matched <-> In r (Map_values st) /\ satisfies query r = true)
  /\ (forall r, satisfies query r =
        holds_isPalindrome (Map_get query (js "isPalindrome")) r
        && holds_minLength (Map_get query (js "minLength")) r
        && holds_maxLength (Map_get query (js "maxLength")) r
        && holds_wordCount (Map_get query (js "wordCount")) r
        && holds_contains (Map_get query (js "contains")) r)
  /\ (forall r, holds_isPalindrome None r = true /\ holds_minLength None r = true
                /\ holds_maxLength None r = true /\ holds_wordCount None r = true
                /\ holds_contains None r = true).
Proof.
  intros H Hc. cbn zeta.
  rewrite get_strings_spec, H, (bad_contains_convertible st query Hc).
  repeat split.
  - now apply filter_In in H0.
  - now apply filter_In in H0.
  - intros [H1 H2]. now apply filter_In.
Qed.
End Validation.

(** [minLength=abc] alone: the failure names [minLength]. *)
Lemma numeric_parameter_validation_witness :
  exists g, first_rejected query_abc = Some g
            /\ rejected query_abc g = true
            /\ (g = FMinLength \/ In g (checked_before FMinLength))
            /\ get_strings [] query_abc
               = sendError 400 (failure_message query_abc g)
            /\ status (get_strings [] query_abc) = 400%nat
            /\ isErrorBody (get_strings [] query_abc) = true.
Proof.
  exact (proj1 (numeric_parameter_validation [] query_abc) FMinLength eq_refl eq_refl).
Defined.

(** C5, the claim as stated, fails.  In [isPalindrome=maybe&minLength=abc]
    the numeric parameter [minLength] is present and does not parse as a
    finite number, and the message of the failure names [isPalindrome], not
    [minLength]; in [minLength=abc&maxLength=xyz] the parameter [maxLength]
    is refused as well and the message names [minLength] only; and in
    [minLength[toString]=x] the conversion of [minLength] throws and the
    message, "Bad query", names no parameter. *)
Lemma refused_parameter_not_named :
  rejected query_maybe_abc FMinLength = true
  /\ get_strings [] query_maybe_abc
     = sendError 400 "isPalindrome must be 'true' or 'false'"
  /\ names "isPalindrome must be 'true' or 'false'" FMinLength = false
  /\ rejected query_abc_xyz FMaxLength = true
  /\ get_strings [] query_abc_xyz = sendError 400 "minLength must be a number"
  /\ names "minLength must be a number" FMaxLength = false
  /\ rejected query_minLength_object FMinLength = true
  /\ get_strings [] query_minLength_object = sendError 400 "Bad query"
  /\ names "Bad query" FMinLength = false.
Proof.
  repeat split; vm_compute; reflexivity.
Qed.

(** The example of the specification at the ASCII host: of the records of
    lengths 3, 5 and 7, [minLength=4&maxLength=6] returns exactly the one of
    length 5. *)
Lemma filter_is_intersection_witness :
  let matched := filter (satisfies query_4_6) (Map_values (@store_357 asciiHost)) in
  (get_strings (@store_357 asciiHost) query_4_6
     = {| status := 200%nat; body := ListBody (List.length matched) matched |}
   /\ (forall r, In r matched <->
                 In r (Map_values (@store_357 asciiHost)) /\ satisfies query_4_6 r = true)
   /\ (forall r, satisfies query_4_6 r =
         holds_isPalindrome (Map_get query_4_6 (js "isPalindrome")) r
         && holds_minLength (Map_get query_4_6 (js "minLength")) r
         && holds_maxLength (Map_get query_4_6 (js "maxLength")) r
         && holds_wordCount (Map_get query_4_6 (js "wordCount")) r
         && holds_contains (Map_get query_4_6 (js "contains")) r)
   /\ (forall r, holds_isPalindrome None r = true /\ holds_minLength None r = true
                 /\ holds_maxLength None r = true /\ holds_wordCount None r = true
                 /\ holds_contains None r = true))
  /\ matched = [@analyse asciiHost (js "abcde")]
  /\ map Analysis.length (Map_values (@store_357 asciiHost)) = [3; 5; 7]%nat.
Proof.
  split; [|split].
  - exact (filter_is_intersection (@store_357 asciiHost) query_4_6 eq_refl eq_refl).
  - vm_compute. reflexivity.
  - vm_compute. reflexivity.
Defined.

(** ** The Number of a run of digits *)

Lemma isDigit_bounds (c : code_unit) : isDigit c = true <-> 48 <= c <= 57.
Proof.
  unfold isDigit. rewrite andb_true_iff, !N.leb_le. tauto.
Qed.

Lemma isDigit_not_space (c : code_unit) : isDigit c = true -> isWhiteSpace c = false.
Proof.
  intros H. apply isDigit_bounds in H. unfold isWhiteSpace.
  repeat match goal with
         | |- context [?a <=? ?b] =>
             destruct (N.leb_spec a b); try lia
         | |- context [?a =? ?b] =>
             destruct (N.eqb_spec a b); try lia
         end; reflexivity.
Qed.

Lemma trim_word (s : jsstring) :
  forallb (fun c => negb (isWhiteSpace c)) s = true -> trim s = s.
Proof.
  intros H. rewrite forallb_forall in H.
  assert (Hs : forall t, (forall c, In c t -> negb (isWhiteSpace c) = true) ->
                 trimStart t = t).
  { intros [|c t] Ht; [reflexivity|]. simpl.
    specialize (Ht c (or_introl eq_refl)).
    now destruct (isWhiteSpace c). }
  unfold trim, trimEnd. rewrite (Hs s H), Hs.
  - apply rev_involutive.
  - intros c Hc. apply H. now apply in_rev.
Qed.

Lemma span_all (p : code_unit -> bool) (s : jsstring) :
  forallb p s = true -> span p s = (s, []).
Proof.
  induction s as [|c s IH]; simpl; [reflexivity|].
  intros H. apply andb_true_iff in H as [Hc Hs]. now rewrite Hc, IH.
Qed.

(** [Number] of a run of digits is the double nearest to the number the
    digits write. *)
Lemma Number_digits (ds : jsstring) :
  ds <> [] -> forallb isDigit ds = true ->
  StringToNumber ds = toDouble false (digitsValue 10 ds) 1.
Proof.
  intros Hne Hd. unfold StringToNumber.
  rewrite trim_word.
  2:{ apply forallb_forall. intros c Hc. rewrite forallb_forall in Hd.
      now rewrite isDigit_not_space by now apply Hd. }
  destruct ds as [|d ds]; [contradiction|].
  pose proof Hd as Hd'. simpl in Hd'. apply andb_true_iff in Hd' as [Hd0 Hds].
  assert (Hnon : parseNonDecimal (d :: ds) = None).
  { unfold parseNonDecimal. destruct ds as [|c ds']; [reflexivity|].
    destruct (negb (d =? 48)); [reflexivity|].
    simpl in Hds. apply andb_true_iff in Hds as [Hc _].
    apply isDigit_bounds in Hc.
    replace (c =? 120) with false by (symmetry; apply N.eqb_neq; lia).
    replace (c =? 88) with false by (symmetry; apply N.eqb_neq; lia).
    replace (c =? 111) with false by (symmetry; apply N.eqb_neq; lia).
    replace (c =? 79) with false by (symmetry; apply N.eqb_neq; lia).
    replace (c =? 98) with false by (symmetry; apply N.eqb_neq; lia).
    replace (c =? 66) with false by (symmetry; apply N.eqb_neq; lia).
    reflexivity. }
  rewrite Hnon. unfold parseDecimal.
  pose proof Hd0 as Hb. apply isDigit_bounds in Hb.
  assert (Hsign : takeSign (d :: ds) = (false, d :: ds)).
  { unfold takeSign.
    replace (d =? 45) with false by (symmetry; apply N.eqb_neq; lia).
    replace (d =? 43) with false by (symmetry; apply N.eqb_neq; lia).
    reflexivity. }
  rewrite Hsign.
  assert (Hinf : jseqb (d :: ds) (js "Infinity") = false).
  { apply jseqb_neq. intros E. injection E as E _. lia. }
  rewrite Hinf. unfold parseUnsignedDecimal. rewrite (span_all _ _ Hd).
  cbn [isNil andb parseExponent List.length Z.of_nat].
  rewrite app_nil_r. unfold roundMV.
  change (0 - 0)%Z with 0%Z. change (0 <=? 0)%Z with true.
  change (10 ^ 0)%Z with 1%Z. now rewrite Z.mul_1_r.
Qed.

(** ** Rounding a natural number to a double *)

Section RoundingFacts.
Local Open Scope Z_scope.

Lemma roundHalfEven_one (x : Z) : roundHalfEven x 1 = x.
Proof.
  unfold roundHalfEven. rewrite Z.div_1_r, Z.mod_1_r. reflexivity.
Qed.

Lemma roundHalfEven_ge (x b : Z) : x / b <= roundHalfEven x b.
Proof.
  unfold roundHalfEven.
  destruct (2 * (x mod b) ?= b); [destruct (Z.even (x / b))| |]; lia.
Qed.

Lemma double_of_pos_shape (p : Z) :
  0 < p ->
  let e := Z.log2 p - 52 in
  double_of_pos p 1 =
  if 0 <=? e
  then if 2 ^ 1024 <=? roundHalfEven p (2 ^ e) * 2 ^ e then Infinity false
       else Finite (inject_Z (roundHalfEven p (2 ^ e) * 2 ^ e))
  else Finite (Qred (p * 2 ^ (- e) # Z.to_pos (2 ^ (- e)))).
Proof.
  intros Hp e. unfold double_of_pos.
  change (Z.log2 1) with 0. rewrite Z.sub_0_r.
  pose proof (Z.log2_nonneg p) as Hk.
  destruct (Z.log2_spec p Hp) as [Hlo Hhi].
  unfold scale2 at 1.
  replace (0 <=? Z.log2 p) with true by (symmetry; apply Z.leb_le; lia).
  rewrite Z.mul_1_l.
  replace (p <? 2 ^ Z.log2 p) with false by (symmetry; apply Z.ltb_ge; lia).
  replace (Z.max (Z.log2 p - 52) (-1074)) with e by (unfold e; lia).
  unfold scale2. destruct (0 <=? e) eqn:He.
  - now rewrite Z.mul_1_l.
  - now rewrite roundHalfEven_one.
Qed.

Lemma double_of_pos_small (p : Z) :
  0 < p < 2 ^ 53 ->
  exists v, double_of_pos p 1 = Finite v /\ Qeq v (inject_Z p).
Proof.
  intros [Hp Hlt]. rewrite (double_of_pos_shape p Hp). cbv zeta.
  pose proof (Z.log2_nonneg p) as Hk.
  assert (Hk53 : Z.log2 p < 53) by (apply Z.log2_lt_pow2; lia).
  destruct (0 <=? Z.log2 p - 52) eqn:He.
  - apply Z.leb_le in He. replace (Z.log2 p - 52) with 0 by lia.
    change (2 ^ 0) with 1. rewrite roundHalfEven_one, Z.mul_1_r.
    replace (2 ^ 1024 <=? p) with false.
    + exists (inject_Z p). split; [reflexivity | apply Qeq_refl].
    + symmetry. apply Z.leb_gt. apply Z.lt_trans with (2 ^ 53); [exact Hlt|].
      apply Z.pow_lt_mono_r; lia.
  - apply Z.leb_gt in He. eexists. split; [reflexivity|].
    rewrite Qred_correct. unfold Qeq, inject_Z. cbn [Qnum Qden].
    rewrite Z2Pos.id by (apply Z.pow_pos_nonneg; lia). lia.
Qed.

Lemma double_of_pos_large (p : Z) :
  2 ^ 53 <= p ->
  double_of_pos p 1 = Infinity false
  \/ exists v, double_of_pos p 1 = Finite v /\ Qle (inject_Z (2 ^ 53)) v.
Proof.
  intros Hge.
  assert (Hp : 0 < p) by (pose proof (Z.pow_pos_nonneg 2 53); lia).
  rewrite (double_of_pos_shape p Hp). cbv zeta.
  assert (Hk : 53 <= Z.log2 p) by (apply Z.log2_le_pow2; lia).
  destruct (Z.log2_spec p Hp) as [Hlo _].
  set (e := Z.log2 p - 52) in *.
  replace (0 <=? e) with true by (symmetry; apply Z.leb_le; lia).
  destruct (2 ^ 1024 <=? roundHalfEven p (2 ^ e) * 2 ^ e); [now left|].
  right. eexists. split; [reflexivity|].
  rewrite <- Zle_Qle.
  assert (He : 0 < 2 ^ e) by (apply Z.pow_pos_nonneg; lia).
  assert (Hq : 2 ^ 52 <= p / 2 ^ e).
  { apply Z.div_le_lower_bound; [exact He|].
    rewrite <- Z.pow_add_r by lia. now replace (e + 52) with (Z.log2 p) by lia. }
  pose proof (roundHalfEven_ge p (2 ^ e)) as Hr.
  assert (H2 : 2 <= 2 ^ e).
  { change 2 with (2 ^ 1) at 1. apply Z.pow_le_mono_r; lia. }
  change (2 ^ 53) with (2 ^ 52 * 2). apply Z.mul_le_mono_nonneg; lia.
Qed.

(** Against a length below [2 ^ 53] the double of a natural number compares
    as the number itself. *)
Lemma toDouble_compare (m : Z) (len : nat) (v : Q) :
  0 <= m -> Z.of_nat len < 2 ^ 53 ->
  toDouble false m 1 = Finite v ->
  num_lt (Finite v) (ofNat len) = (m <? Z.of_nat len)
  /\ num_lt (ofNat len) (Finite v) = (Z.of_nat len <? m).
Proof.
  intros Hm Hlen. unfold toDouble, ofNat, num_lt.
  assert (Hcmp : forall w : Q,
             Qeq w (inject_Z m) \/ (2 ^ 53 <= m /\ Qle (inject_Z (2 ^ 53)) w) ->
             negb (Qle_bool (inject_Z (Z.of_nat len)) w) = (m <? Z.of_nat len)
             /\ negb (Qle_bool w (inject_Z (Z.of_nat len))) = (Z.of_nat len <? m)).
  { intros w Hw. split.
    - destruct (Z.ltb_spec m (Z.of_nat len)) as [H|H].
      + destruct Hw as [Hw|[Hw _]]; [|lia].
        destruct (Qle_bool (inject_Z (Z.of_nat len)) w) eqn:E; [|reflexivity].
        apply Qle_bool_iff in E. rewrite Hw, <- Zle_Qle in E. lia.
      + apply negb_false_iff, Qle_bool_iff. destruct Hw as [Hw|[_ Hw]].
        * rewrite Hw, <- Zle_Qle. exact H.
        * apply Qle_trans with (inject_Z (2 ^ 53)); [|exact Hw].
          rewrite <- Zle_Qle. lia.
    - destruct (Z.ltb_spec (Z.of_nat len) m) as [H|H].
      + destruct (Qle_bool w (inject_Z (Z.of_nat len))) eqn:E; [|reflexivity].
        apply Qle_bool_iff in E. destruct Hw as [Hw|[_ Hw]].
        * rewrite Hw, <- Zle_Qle in E. lia.
        * pose proof (Qle_trans _ _ _ Hw E) as E'. rewrite <- Zle_Qle in E'. lia.
      + apply negb_false_iff, Qle_bool_iff. destruct Hw as [Hw|[Hw _]]; [|lia].
        rewrite Hw, <- Zle_Qle. exact H. }
  destruct (Z.eqb_spec m 0) as [->|Hne].
  - intros H. injection H as <-. apply Hcmp. left. apply Qeq_refl.
  - destruct (Z.lt_ge_cases m (2 ^ 53)) as [Hs|Hl].
    + destruct (double_of_pos_small m) as [w [Hw1 Hw2]]; [lia|].
      rewrite Hw1. intros H. injection H as <-. apply Hcmp. now left.
    + destruct (double_of_pos_large m Hl) as [Hw|[w [Hw1 Hw2]]]; rewrite ?Hw, ?Hw1.
      * discriminate.
      * intros H. injection H as <-. apply Hcmp. right. now split.
Qed.
End RoundingFacts.

Lemma fold_digits_nonneg (ds : jsstring) (acc : Z) :
  (0 <= acc)%Z ->
  (0 <= fold_left (fun a d => (a * 10 + digitOf d)%Z) ds acc)%Z.
Proof.
  revert acc. induction ds as [|d ds IH]; intros acc Ha; simpl; [exact Ha|].
  apply IH. unfold digitOf. lia.
Qed.

Lemma digitsValue_nonneg (ds : jsstring) : (0 <= digitsValue 10 ds)%Z.
Proof. unfold digitsValue. apply fold_digits_nonneg. lia. Qed.

(** ** The regular expressions *)

Lemma span_spec (p : code_unit -> bool) (s a b : jsstring) :
  span p s = (a, b) ->
  s = a ++ b /\ forallb p a = true
  /\ match b with [] => True | c :: _ => p c = false end.
Proof.
  revert a b. induction s as [|c s IH]; intros a b; simpl.
  - intros H. injection H as <- <-. now repeat split.
  - destruct (p c) eqn:Hc.
    + destruct (span p s) as [a' b'] eqn:E. intros H. injection H as <- <-.
      destruct (IH a' b' eq_refl) as [H1 [H2 H3]].
      repeat split; [now rewrite H1 at 1 | simpl; now rewrite Hc | exact H3].
    + intros H. injection H as <- <-. now repeat split.
Qed.

Lemma startsWith_spec (s pat : jsstring) :
  startsWith s pat = true -> s = pat ++ skipn (List.length pat) s.
Proof.
  revert s. induction pat as [|p pat IH]; intros s; [reflexivity|].
  destruct s as [|c s]; simpl; [discriminate|].
  intros H. apply andb_true_iff in H as [Hc Hs]. apply N.eqb_eq in Hc.
  subst c. f_equal. now apply IH.
Qed.

Lemma search_spec {A : Type} (at_ : jsstring -> option A) (s : jsstring) (r : A) :
  search at_ s = Some r -> exists pre post, s = pre ++ post /\ at_ post = Some r.
Proof.
  induction s as [|c s IH]; simpl.
  - destruct (at_ []) eqn:E; [|discriminate]. intros H. injection H as <-.
    exists [], []. now split.
  - destruct (at_ (c :: s)) eqn:E.
    + intros H. injection H as <-. exists [], (c :: s). now split.
    + intros H. destruct (IH H) as [pre [post [Hs Hp]]].
      exists (c :: pre), post. split; [simpl; now rewrite Hs | exact Hp].
Qed.

Lemma than_at_spec (words s ds : jsstring) :
  than_at words s = Some ds ->
  ds <> [] /\ forallb isDigit ds = true /\ exists post, s = words ++ ds ++ post.
Proof.
  unfold than_at. destruct (startsWith s words) eqn:Hs; [|discriminate].
  apply startsWith_spec in Hs.
  destruct (span isDigit (skipn (List.length words) s)) as [a b] eqn:E.
  apply span_spec in E as [H1 [H2 _]]. cbn [fst].
  destruct a as [|d a]; [discriminate|]. intros H. injection H as <-.
  repeat split; [discriminate | exact H2|].
  exists b. rewrite Hs at 1. now rewrite H1.
Qed.

Lemma search_than_spec (words lower ds : jsstring) :
  search (than_at words) lower = Some ds ->
  ds <> [] /\ forallb isDigit ds = true
  /\ exists pre post, lower = pre ++ words ++ ds ++ post.
Proof.
  intros H. apply search_spec in H as [pre [post [Hs Hp]]].
  apply than_at_spec in Hp as [H1 [H2 [post' H3]]].
  repeat split; [exact H1 | exact H2|].
  exists pre, post'. now rewrite Hs, H3.
Qed.

Lemma startsWith_app (pat rest : jsstring) :
  startsWith (pat ++ rest) pat = true
  /\ skipn (List.length pat) (pat ++ rest) = rest.
Proof.
  induction pat as [|p pat [IH1 IH2]]; [now destruct rest|].
  simpl. rewrite N.eqb_refl, IH1. now split.
Qed.

Lemma search_complete {A : Type} (at_ : jsstring -> option A)
    (pre post : jsstring) (r : A) :
  at_ post = Some r -> search at_ (pre ++ post) <> None.
Proof.
  intros H. induction pre as [|c pre IH].
  - change ([] ++ post) with post. destruct post; simpl; rewrite H; discriminate.
  - change ((c :: pre) ++ post) with (c :: pre ++ post). cbn [search].
    destruct (at_ (c :: pre ++ post)); [discriminate | exact IH].
Qed.

(** The search finds a match wherever the words are followed by a digit. *)
Lemma search_than_complete (words pre post : jsstring) (d : code_unit) :
  isDigit d = true ->
  search (than_at words) (pre ++ words ++ d :: post) <> None.
Proof.
  intros Hd.
  destruct (startsWith_app words (d :: post)) as [H1 H2].
  destruct (span isDigit post) as [a b] eqn:E.
  apply (search_complete _ pre _ (d :: a)).
  unfold than_at. rewrite H1, H2. simpl. now rewrite Hd, E.
Qed.

Lemma match_contains_spec (lower token : jsstring) :
  match_contains lower = Some token ->
  token <> [] /\ forallb tokenChar token = true.
Proof.
  intros H. apply search_spec in H as [pre [post [_ Hp]]].
  unfold contains_at in Hp. destruct (startsWith_i post (js "contains ")); [|discriminate].
  destruct (span tokenChar _) as [a b] eqn:E.
  apply span_spec in E as [_ [H2 _]]. cbn [fst] in Hp.
  destruct a; [discriminate|]. injection Hp as <-. split; [discriminate | exact H2].
Qed.

(** *** The searches against the phrases *)

Lemma search_first {A : Type} (at_ : jsstring -> option A) (s : jsstring) (r : A) :
  search at_ s = Some r <->
  exists pre post,
    s = pre ++ post /\ at_ post = Some r
    /\ forall pre' post', s = pre' ++ post' ->
         (List.length pre' < List.length pre)%nat -> at_ post' = None.
Proof.
  split.
  - induction s as [|c s IH].
    + cbn [search]. destruct (at_ []) eqn:E; [|discriminate].
      intros H. injection H as <-. exists [], []. repeat split; [exact E|].
      intros pre' post' _ Hl. inversion Hl.
    + cbn [search]. destruct (at_ (c :: s)) eqn:E.
      * intros H. injection H as <-. exists [], (c :: s).
        repeat split; [exact E|]. intros pre' post' _ Hl. inversion Hl.
      * intros H. destruct (IH H) as [pre [post [Hs [Hp Hmin]]]].
        exists (c :: pre), post. split; [simpl; now rewrite Hs|].
        split; [exact Hp|]. intros [|c' pre'] post' Hs' Hl.
        -- simpl in Hs'. now rewrite <- Hs'.
        -- simpl in Hs', Hl. injection Hs' as _ Hs'.
           apply (Hmin pre' post' Hs'). lia.
  - intros [pre [post [Hs [Hp Hmin]]]]. revert s Hs Hmin.
    induction pre as [|c pre IH]; intros s Hs Hmin.
    + simpl in Hs. subst s. destruct post; cbn [search]; now rewrite Hp.
    + simpl in Hs. subst s. cbn [search].
      rewrite (Hmin [] (c :: pre ++ post) eq_refl) by (simpl; lia).
      apply IH; [reflexivity|]. intros pre' post' Hs' Hl.
      apply (Hmin (c :: pre') post'); [simpl; now rewrite Hs' | simpl; lia].
Qed.

Lemma search_none {A : Type} (at_ : jsstring -> option A) (s : jsstring) :
  search at_ s = None <-> forall pre post, s = pre ++ post -> at_ post = None.
Proof.
  split.
  - induction s as [|c s IH]; cbn [search].
    + destruct (at_ []) eqn:E; [discriminate|]. intros _ pre post Hs.
      symmetry in Hs. apply app_eq_nil in Hs as [_ ->]. exact E.
    + destruct (at_ (c :: s)) eqn:E; [discriminate|]. intros H [|c' pre] post Hs.
      * simpl in Hs. now rewrite <- Hs.
      * simpl in Hs. injection Hs as _ Hs. now apply (IH H pre post).
  - intros H. induction s as [|c s IH]; cbn [search].
    + now rewrite (H [] [] eq_refl).
    + rewrite (H [] (c :: s) eq_refl). apply IH. intros pre post Hs.
      apply (H (c :: pre) post). simpl. now rewrite Hs.
Qed.

Lemma span_app (p : code_unit -> bool) (a b : jsstring) :
  forallb p a = true ->
  match b with c :: _ => p c = false | [] => True end ->
  span p (a ++ b) = (a, b).
Proof.
  intros Ha Hb. induction a as [|x a IH]; cbn [app].
  - destruct b as [|c b]; [reflexivity|]. cbn [span]. now rewrite Hb.
  - cbn [forallb] in Ha. apply andb_true_iff in Ha as [Hx Ha].
    cbn [span]. now rewrite Hx, (IH Ha).
Qed.

Lemma than_at_some (words s ds : jsstring) :
  than_at words s = Some ds <->
  exists post,
    s = words ++ ds ++ post /\ ds <> [] /\ forallb isDigit ds = true
    /\ match post with c :: _ => isDigit c = false | [] => True end.
Proof.
  unfold than_at. split.
  - destruct (startsWith s words) eqn:Hs; [|discriminate].
    apply startsWith_spec in Hs.
    destruct (span isDigit (skipn (List.length words) s)) as [a b] eqn:E.
    apply span_spec in E as [H1 [H2 H3]]. cbn [fst].
    destruct a as [|d a]; [discriminate|]. intros H. injection H as <-.
    exists b. repeat split; try assumption; [|discriminate].
    rewrite Hs at 1. now rewrite H1.
  - intros [post [-> [Hne [Hd Hp]]]].
    destruct (startsWith_app words (ds ++ post)) as [-> ->].
    rewrite (span_app isDigit ds post Hd Hp). cbn [fst].
    destruct ds; [contradiction | reflexivity].
Qed.

Lemma than_at_none (words s : jsstring) :
  than_at words s = None <->
  ~ exists d rest, isDigit d = true /\ s = words ++ d :: rest.
Proof.
  split.
  - intros Hn [d [rest [Hd ->]]]. unfold than_at in Hn.
    destruct (startsWith_app words (d :: rest)) as [H1 H2].
    rewrite H1, H2 in Hn. cbn [span] in Hn. rewrite Hd in Hn.
    destruct (span isDigit rest). discriminate.
  - intros Hn. destruct (than_at words s) as [ds|] eqn:E; [|reflexivity].
    exfalso. apply Hn. apply than_at_some in E as [post [-> [Hne [Hd _]]]].
    destruct ds as [|d ds]; [contradiction|].
    cbn [forallb] in Hd. apply andb_true_iff in Hd as [Hd _].
    now exists d, (ds ++ post).
Qed.

(** The search for "<words>N" finds the first number after the words. *)
Lemma search_than_first (words s ds : jsstring) :
  search (than_at words) s = Some ds <-> first_number_after words s ds.
Proof.
  rewrite search_first. unfold first_number_after. split.
  - intros [pre [post0 [Hs [Hp Hmin]]]].
    apply than_at_some in Hp as [post [-> [Hne [Hd Hpost]]]].
    exists pre, post. repeat split; try assumption.
    intros pre' [d [rest [Hd' Hs']]].
    destruct (Nat.le_gt_cases (List.length pre) (List.length pre')) as [H|H];
      [exact H|].
    exfalso. pose proof (Hmin pre' (words ++ d :: rest) Hs' H) as Hnone.
    apply than_at_none in Hnone. apply Hnone. now exists d, rest.
  - intros [pre [post [Hs [Hne [Hd [Hpost Hmin]]]]]].
    exists pre, (words ++ ds ++ post). repeat split; [exact Hs | |].
    + apply than_at_some. now exists post.
    + intros pre' post' Hs' Hl. apply than_at_none.
      intros [d [rest [Hd' ->]]].
      assert (Hn : number_after words s pre') by now exists d, rest.
      specialize (Hmin pre' Hn). lia.
Qed.

Lemma search_than_none (words s : jsstring) :
  search (than_at words) s = None <-> no_number_after words s.
Proof.
  rewrite search_none. unfold no_number_after. split.
  - intros H pre [d [rest [Hd Hs]]].
    specialize (H pre (words ++ d :: rest) Hs).
    apply than_at_none in H. apply H. now exists d, rest.
  - intros H pre post Hs. apply than_at_none. intros [d [rest [Hd ->]]].
    apply (H pre). now exists d, rest.
Qed.

Lemma startsWith_i_spec (s pat : jsstring) :
  startsWith_i s pat = true <->
  exists w rest, s = w ++ rest /\ Forall2 (fun p c => eq_i p c = true) pat w.
Proof.
  split.
  - revert s. induction pat as [|p pat IH]; intros s.
    + intros _. exists [], s. split; [reflexivity | constructor].
    + destruct s as [|c s]; cbn [startsWith_i]; [discriminate|].
      intros H. apply andb_true_iff in H as [Hc Hs].
      destruct (IH s Hs) as [w [rest [-> Hw]]].
      exists (c :: w), rest. split; [reflexivity | now constructor].
  - intros [w [rest [-> Hw]]]. induction Hw as [|p c pat w Hc Hw IH].
    + now destruct rest.
    + cbn [app startsWith_i]. now rewrite Hc, IH.
Qed.

Lemma quote_no_token (c : code_unit) : isQuote c = true -> tokenChar c = false.
Proof.
  unfold isQuote. intros H. apply orb_true_iff in H as [H|H];
    apply N.eqb_eq in H; subst c; vm_compute; reflexivity.
Qed.

Lemma contains_at_some (s token : jsstring) :
  contains_at s = Some token <-> token_at s token.
Proof.
  unfold contains_at, token_at, contains_word. split.
  - destruct (startsWith_i s (js "contains ")) eqn:Hs; [|discriminate].
    apply startsWith_i_spec in Hs as [w [rest [-> Hw]]].
    assert (Hl : List.length w = 9%nat)
      by (rewrite <- (Forall2_length Hw); reflexivity).
    replace (skipn 9 (w ++ rest)) with rest
      by (rewrite <- Hl, skipn_app, skipn_all, Nat.sub_diag; reflexivity).
    cbv zeta. intros H.
    destruct rest as [|c rest]; [discriminate H|].
    destruct (isQuote c) eqn:Hq.
    + destruct (span tokenChar rest) as [a b] eqn:E.
      apply span_spec in E as [H1 [H2 H3]]. cbn [fst] in H.
      destruct a as [|t a]; [discriminate|]. injection H as <-.
      exists w, [c], b. repeat split; try assumption; try discriminate.
      * cbn [app]. now rewrite H1.
      * right. now exists c.
    + destruct (span tokenChar (c :: rest)) as [a b] eqn:E.
      apply span_spec in E as [H1 [H2 H3]]. cbn [fst] in H.
      destruct a as [|t a]; [discriminate|]. injection H as <-.
      exists w, [], b. repeat split; try assumption; try discriminate.
      * cbn [app]. now rewrite H1.
      * now left.
  - intros [w [quote [post [-> [Hw [Hq [Hne [Ht Hp]]]]]]]].
    assert (Hs : startsWith_i (w ++ quote ++ token ++ post) (js "contains ") = true).
    { apply startsWith_i_spec. now exists w, (quote ++ token ++ post). }
    rewrite Hs.
    assert (Hl : List.length w = 9%nat)
      by (rewrite <- (Forall2_length Hw); reflexivity).
    replace (skipn 9 (w ++ quote ++ token ++ post)) with (quote ++ token ++ post)
      by (rewrite <- Hl, skipn_app, skipn_all, Nat.sub_diag; reflexivity).
    cbv zeta. destruct token as [|t token]; [contradiction|].
    assert (Htc : tokenChar t = true).
    { cbn [forallb] in Ht. now apply andb_true_iff in Ht as [Ht _]. }
    destruct Hq as [->|[c [-> Hc]]]; cbn [app].
    + destruct (isQuote t) eqn:Eq.
      * apply quote_no_token in Eq. congruence.
      * change (t :: token ++ post) with ((t :: token) ++ post).
        now rewrite (span_app tokenChar (t :: token) post Ht Hp).
    + rewrite Hc. change (t :: token ++ post) with ((t :: token) ++ post).
      now rewrite (span_app tokenChar (t :: token) post Ht Hp).
Qed.

(** The search for "contains <token>" finds the first token. *)
Lemma match_contains_first (s token : jsstring) :
  match_contains s = Some token <-> first_token s token.
Proof.
  unfold match_contains, first_token. rewrite search_first. split.
  - intros [pre [rest [Hs [Hp Hmin]]]]. exists pre, rest.
    split; [exact Hs|]. split; [now apply contains_at_some|].
    intros pre' rest' token' Hs' Ht.
    destruct (Nat.le_gt_cases (List.length pre) (List.length pre')) as [H|H];
      [exact H|].
    apply contains_at_some in Ht. rewrite (Hmin pre' rest' Hs' H) in Ht.
    discriminate.
  - intros [pre [rest [Hs [Ht Hmin]]]]. exists pre, rest.
    split; [exact Hs|]. split; [now apply contains_at_some|].
    intros pre' rest' Hs' Hl.
    destruct (contains_at rest') as [token'|] eqn:E; [|reflexivity].
    apply contains_at_some in E. specialize (Hmin pre' rest' token' Hs' E). lia.
Qed.

Lemma match_contains_none (s : jsstring) :
  match_contains s = None <-> no_token s.
Proof.
  unfold match_contains, no_token. rewrite search_none. split.
  - intros H pre rest token Hs Ht. apply contains_at_some in Ht.
    rewrite (H pre rest Hs) in Ht. discriminate.
  - intros H pre rest Hs.
    destruct (contains_at rest) as [token|] eqn:E; [|reflexivity].
    apply contains_at_some in E. now destruct (H pre rest token Hs).
Qed.

(** ** The natural-language operation *)

Section NaturalLanguage.
Context {host : Host}.
Local Open Scope nat_scope.

(** Comparing stored lengths with the Number of a run of digits is
    comparing them with the number the digits write. *)
Lemma filter_by_digits (results : list Analysis.record) (ds : jsstring) (v : Q) :
  Forall (fun r => (Z.of_nat (Analysis.length r) < 2 ^ 53)%Z) results ->
  ds <> [] -> forallb isDigit ds = true ->
  StringToNumber ds = Finite v ->
  filter (fun r => num_lt (StringToNumber ds) (ofNat (Analysis.length r))) results
  = filter (fun r => (digitsValue 10 ds <? Z.of_nat (Analysis.length r))%Z) results
  /\ filter (fun r => num_lt (ofNat (Analysis.length r)) (StringToNumber ds)) results
     = filter (fun r => (Z.of_nat (Analysis.length r) <? digitsValue 10 ds)%Z) results.
Proof.
  intros Hb Hne Hd Hv. rewrite Forall_forall in Hb.
  pose proof (digitsValue_nonneg ds) as Hm.
  rewrite (Number_digits ds Hne Hd) in *.
  split; apply filter_ext_in; intros r Hr; rewrite Hv;
    apply (toDouble_compare (digitsValue 10 ds) (Analysis.length r) v);
    auto.
Qed.

(** C4 (as amended).  The natural-language operation tries its templates
    in order and the first that matches answers alone: a query that
    contains "palind" in lower case selects the palindromes, whatever else
    it contains; otherwise "single word" or "single-word" selects
    [wordCount = 1]; otherwise the first "longer than N" of the query keeps
    the records strictly longer than N and, when the query has none, the
    first "shorter than N" those strictly shorter than N, provided the
    digits of N parse as a finite Number (when they do not, the answer is
    the 422 "Invalid number in query"); otherwise the first "contains
    <token>" matches the token in lower case against the string in lower
    case; and a query with none of these phrases is answered the 400 "Could
    not interpret query".  Every query falls under one of the clauses. *)
Theorem interpret_templates (st : store) (q : jsstring) :
  lengths_bounded st -> templates_contract st q.
Proof.
  intros Hb. unfold templates_contract, interpret. cbv zeta.
  set (lower := toLowerCase q). set (results := Map_values st).
  unfold template_palindromes, template_single_word, template_longer,
    template_shorter, template_contains, match_longer, match_shorter.
  assert (Hnum : forall ds, forallb isDigit ds = true -> ds <> [] ->
            (if negb (isFinite (StringToNumber ds))
             then sendError 422 "Invalid number in query"
             else listing (filter (fun r => num_lt (StringToNumber ds)
                                              (ofNat (Analysis.length r))) results))
            = (if isFinite (StringToNumber ds)
               then listing (filter
                      (fun r => (digitsValue 10 ds <? Z.of_nat (Analysis.length r))%Z)
                      results)
               else sendError 422 "Invalid number in query")
            /\ (if negb (isFinite (StringToNumber ds))
                then sendError 422 "Invalid number in query"
                else listing (filter (fun r => num_lt (ofNat (Analysis.length r))
                                                 (StringToNumber ds)) results))
               = (if isFinite (StringToNumber ds)
                  then listing (filter
                         (fun r => (Z.of_nat (Analysis.length r) <? digitsValue 10 ds)%Z)
                         results)
                  else sendError 422 "Invalid number in query")).
  { intros ds Hd Hne.
    destruct (StringToNumber ds) as [| |v] eqn:Hv;
      cbn [isFinite negb]; try (split; reflexivity).
    rewrite <- Hv.
    destruct (filter_by_digits results ds v Hb Hne Hd Hv) as [-> ->].
    now split. }
  split; [|split; [|split; [|split; [|split; [|split; [|split; [|split]]]]]]].
  - intros H. now rewrite H.
  - intros H1 H2. now rewrite H1, H2.
  - intros H1 H2 ds Hf. rewrite H1, H2.
    rewrite (proj2 (search_than_first _ _ _) Hf). cbn [bind finish].
    destruct Hf as [pre [post [_ [Hne [Hd _]]]]].
    rewrite <- (proj1 (Hnum ds Hd Hne)).
    now destruct (negb (isFinite (StringToNumber ds))).
  - intros H1 H2 H3 ds Hf. rewrite H1, H2.
    rewrite (proj2 (search_than_none _ _) H3).
    rewrite (proj2 (search_than_first _ _ _) Hf). cbn [bind finish].
    destruct Hf as [pre [post [_ [Hne [Hd _]]]]].
    rewrite <- (proj2 (Hnum ds Hd Hne)).
    now destruct (negb (isFinite (StringToNumber ds))).
  - intros H1 H2 H3 H4 token Hf. rewrite H1, H2.
    rewrite (proj2 (search_than_none _ _) H3), (proj2 (search_than_none _ _) H4).
    now rewrite (proj2 (match_contains_first _ _) Hf).
  - intros H1 H2 H3 H4 H5. rewrite H1, H2.
    rewrite (proj2 (search_than_none _ _) H3), (proj2 (search_than_none _ _) H4).
    now rewrite (proj2 (match_contains_none _) H5).
  - destruct (search (than_at (js "longer than ")) lower) as [ds|] eqn:E.
    + left. exists ds. now apply search_than_first.
    + right. now apply search_than_none.
  - destruct (search (than_at (js "shorter than ")) lower) as [ds|] eqn:E.
    + left. exists ds. now apply search_than_first.
    + right. now apply search_than_none.
  - destruct (match_contains lower) as [token|] eqn:E.
    + left. exists token. now apply match_contains_first.
    + right. now apply match_contains_none.
Qed.
End NaturalLanguage.

Lemma lengths_bounded_check (st : store) :
  forallb (fun r => (Z.of_nat (Analysis.length r) <? 2 ^ 53)%Z) (Map_values st) = true ->
  lengths_bounded st.
Proof.
  unfold lengths_bounded. rewrite forallb_forall, Forall_forall.
  intros H r Hr. apply Z.ltb_lt. now apply H.
Qed.

(** At the ASCII host, on the store with the records of lengths 3, 5 and 7,
    "strings longer than 4" keeps the two longer ones. *)
Lemma interpret_templates_witness :
  @templates_contract asciiHost (@store_357 asciiHost) (js "strings longer than 4")
  /\ @interpret asciiHost (@store_357 asciiHost) (js "strings longer than 4")
     = listing [@analyse asciiHost (js "abcde"); @analyse asciiHost (js "abcdefg")].
Proof.
  split.
  - apply (@interpret_templates asciiHost (@store_357 asciiHost)
             (js "strings longer than 4")).
    apply lengths_bounded_check. vm_compute. reflexivity.
  - vm_compute. reflexivity.
Defined.

(** C4, the claim as stated, fails.  "longer than" a one followed by four
    hundred zeros matches the third template and no earlier one, and its number is
    above every double: the answer is the 422 error, not the records longer
    than that number (here none are stored, and the claim has the empty
    listing). *)
Lemma longer_than_huge_is_refused :
  includes (@toLowerCase asciiHost query_longer_than_huge) (js "palind") = false
  /\ includes (@toLowerCase asciiHost query_longer_than_huge) (js "single word")
     || includes (@toLowerCase asciiHost query_longer_than_huge) (js "single-word") = false
  /\ match_longer (@toLowerCase asciiHost query_longer_than_huge) = Some huge_digits
  /\ StringToNumber huge_digits = Infinity false
  /\ @interpret asciiHost [] query_longer_than_huge
     = sendError 422 "Invalid number in query"
  /\ status (@interpret asciiHost [] query_longer_than_huge) = 422%nat
  /\ status (listing (filter
       (fun r => (digitsValue 10 huge_digits <? Z.of_nat (Analysis.length r))%Z)
       [])) = 200%nat.
Proof.
  split; [vm_compute; reflexivity|].
  split; [vm_compute; reflexivity|].
  split; [vm_compute; reflexivity|].
  split; [vm_compute; reflexivity|].
  split; [vm_compute; reflexivity|].
  split; vm_compute; reflexivity.
Qed.

(** ** Routing *)

Lemma findRoute_In (routes : list route) (req : request) r params :
  findRoute routes req = Some (r, params) -> In r routes.
Proof.
  induction routes as [|r0 routes IH]; simpl; [discriminate|].
  destruct (method_eqb (route_method r0) (req_method req)).
  - destruct (matchPath (route_path r0) (req_path req)).
    + intros H. injection H as <- _. now left.
    + intros H. right. now apply IH.
  - intros H. right. now apply IH.
Qed.

Lemma lit_eqb_not_nil (lit x : jsstring) :
  lit <> [] -> lit_eqb lit x = true -> isNil x = false.
Proof. destruct lit, x; simpl; congruence. Qed.

(** A path that matches a pattern ending in a literal segment that is not
    empty also matches the pattern with a parameter in its place. *)
Lemma matchPath_param_shadows (pre : list segment) (lit : jsstring)
    (path : list jsstring) (params : list jsstring) :
  lit <> [] ->
  matchPath (pre ++ [Lit lit]) path = Some params ->
  exists params', matchPath (pre ++ [Param]) path = Some params'.
Proof.
  intros Hlit. revert path params.
  induction pre as [|[s|] pre IH]; intros [|x path] params; simpl; try discriminate.
  - destruct (lit_eqb lit x) eqn:E; [|discriminate].
    rewrite (lit_eqb_not_nil lit x Hlit E).
    destruct path; [|discriminate]. intros _. now eexists.
  - destruct (lit_eqb s x); [|discriminate]. apply IH.
  - destruct (isNil x); [discriminate|].
    destruct (matchPath (pre ++ [Lit lit]) path) as [p|] eqn:E; [|discriminate].
    intros _. destruct (IH path p E) as [p' Hp']. rewrite Hp'. now eexists.
Qed.

Section Routing.
Context {host : Host}.
Local Open Scope nat_scope.

(** No request reaches the natural-language handler: its path also matches
    the get-by-value route, which is registered first. *)
Lemma natural_language_unreachable (req : request) :
  operation_of server_routes req <> Some NaturalLanguage
  /\ operation_of api_v1_routes req <> Some NaturalLanguage.
Proof.
  unfold operation_of, server_routes, api_v1_routes, api_v1.
  split; cbn [findRoute route_method route_path];
    destruct (req_method req); cbn [method_eqb];
    repeat match goal with
           | |- context [matchPath ?p (req_path req)] =>
               let E := fresh "E" in
               destruct (matchPath p (req_path req)) eqn:E;
               cbn [route_operation]; try discriminate
           end.
  - apply (matchPath_param_shadows [Lit (js "strings")] (js "query")) in E1;
      [|discriminate]. destruct E1 as [p' E1]. simpl app in E1. congruence.
  - apply (matchPath_param_shadows
             [Lit (js "api"); Lit (js "v1"); Lit (js "strings")]
             (js "filter-by-natural-language")) in E1; [|discriminate].
    destruct E1 as [p' E1]. simpl app in E1. congruence.
Qed.

(** C1, against the code.  A request to the natural-language route never
    reaches its handler: in both files the get-by-value route
    ([/strings/:value]) is registered before it and matches its path, so
    the request is answered by get-by-value with the last path segment as
    the value, a 404 unless that very string is stored.  The handler
    itself, were it reached, would answer "find palindromes" with a 200
    and the listing (at any host whose lower-casing keeps "palind"). *)
Theorem natural_language_route_shadowed (st : store) (query : alist qvalue) :
  (forall req, operation_of server_routes req <> Some NaturalLanguage
               /\ operation_of api_v1_routes req <> Some NaturalLanguage)
  /\ operation_of server_routes (query_request query) = Some GetByValue
  /\ server st (query_request query) = (st, get_string st (js "query"))
  /\ operation_of api_v1_routes (query_request_v1 query) = Some GetByValue
  /\ server_v1 st (query_request_v1 query)
     = (st, get_string st (js "filter-by-natural-language"))
  /\ (Map_has st (js "query") = false ->
      server st (query_request query) = (st, sendError 404 "String not found"))
  /\ server [] (query_request q_find_palindromes)
     = ([], sendError 404 "String not found")
  /\ server_v1 [] (query_request_v1 q_find_palindromes)
     = ([], sendError 404 "String not found")
  /\ (includes (toLowerCase (js "find palindromes")) (js "palind") = true ->
      get_strings_query [] q_find_palindromes = Respond (listing [])).
Proof.
  split; [exact natural_language_unreachable|].
  assert (H1 : server st (query_request query) = (st, get_string st (js "query")))
    by reflexivity.
  split; [reflexivity|]. split; [exact H1|]. split; [reflexivity|].
  split; [reflexivity|]. split; [|split; [reflexivity|split; [reflexivity|]]].
  - intros H. rewrite H1. unfold get_string. now rewrite H.
  - intros H. unfold get_strings_query, q_find_palindromes.
    cbn [Map_get]. rewrite jseqb_refl. cbn [falsy isNil js].
    unfold interpret, template_palindromes. now rewrite H.
Qed.
End Routing.

(** ** Failures *)

Section Failures.
Context {host : Host}.
Local Open Scope nat_scope.

Lemma post_strings_failure (st : store) (req : request) :
  let '(st', res) := post_strings st req in
  status res = 201
  \/ ((status res = 400 \/ status res = 422 \/ status res = 409)
      /\ isErrorBody res = true /\ st' = st).
Proof.
  unfold post_strings.
  destruct (req_body req) as [payload|]; [|right; simpl; tauto].
  destruct (isNull payload || negb (hasOwnProperty payload (js "value")));
    [right; simpl; tauto|].
  destruct (getProperty payload (js "value")) as [[| | |s| |]|];
    try (right; simpl; tauto).
  destruct (Map_has st s); [right; simpl; tauto | now left].
Qed.

Lemma delete_string_failure (st : store) (value : jsstring) :
  let '(st', res) := delete_string st value in
  (status res = 204 /\ st' = Map_delete st value)
  \/ (status res = 404 /\ isErrorBody res = true /\ st' = st
      /\ Map_has st value = false).
Proof.
  unfold delete_string. destruct (Map_has st value); simpl; [left | right]; tauto.
Qed.

Lemma get_string_failure (st : store) (value : jsstring) :
  status (get_string st value) = 200
  \/ (status (get_string st value) = 404 /\ isErrorBody (get_string st value) = true).
Proof.
  unfold get_string, Map_has. destruct (Map_get st value); simpl; tauto.
Qed.

Lemma get_strings_failure (st : store) (query : alist qvalue) :
  status (get_strings st query) = 200
  \/ (status (get_strings st query) = 400 /\ isErrorBody (get_strings st query) = true).
Proof.
  rewrite get_strings_spec.
  destruct (first_rejected query); [simpl; tauto|].
  destruct (bad_contains st query); simpl; tauto.
Qed.

Lemma interpret_failure (st : store) (q : jsstring) :
  status (interpret st q) = 200
  \/ ((status (interpret st q) = 400 \/ status (interpret st q) = 422)
      /\ isErrorBody (interpret st q) = true).
Proof.
  unfold interpret, template_palindromes, template_single_word,
    template_longer, template_shorter, template_contains.
  destruct (includes (toLowerCase q) (js "palind")); [now left|].
  destruct (includes (toLowerCase q) (js "single word")
            || includes (toLowerCase q) (js "single-word")); [now left|].
  cbn [bind].
  destruct (match_longer (toLowerCase q)) as [m1|].
  { destruct (negb (isFinite (StringToNumber m1))); simpl; tauto. }
  cbn [bind].
  destruct (match_shorter (toLowerCase q)) as [m1|].
  { destruct (negb (isFinite (StringToNumber m1))); simpl; tauto. }
  cbn [bind].
  destruct (match_contains (toLowerCase q)); simpl; tauto.
Qed.

(** The natural-language handler throws when [q] is an array ([?q=a&q=b]):
    Express would answer that with its own 500 page.  No request reaches the
    handler ([natural_language_unreachable]), so no response is that page. *)
Lemma non_string_q_throws (st : store) (items : list qvalue) :
  get_strings_query st [(js "q", QArray items)]
  = Throw "TypeError: q.toLowerCase is not a function".
Proof. reflexivity. Qed.

Lemma h_create_clean : fails_cleanly h_create.
Proof.
  intros params st req. unfold h_create.
  pose proof (post_strings_failure st req) as H.
  destruct (post_strings st req) as [st' res]. intros Hs.
  destruct H as [H|[_ [H1 H2]]]; [lia | now split].
Qed.

Lemma h_create_v1_clean : fails_cleanly h_create_v1.
Proof.
  intros params st req. unfold h_create_v1. rewrite post_strings_v1_same.
  apply (h_create_clean params st req).
Qed.

Lemma h_get_clean : fails_cleanly h_get.
Proof.
  intros params st req. unfold h_get. intros Hs. split; [reflexivity|].
  destruct (get_string_failure st (param_value params)) as [H|[_ H]];
    [lia | exact H].
Qed.

Lemma h_list_clean : fails_cleanly h_list.
Proof.
  intros params st req. unfold h_list. intros Hs. split; [reflexivity|].
  destruct (get_strings_failure st (req_query req)) as [H|[_ H]];
    [lia | exact H].
Qed.

Lemma h_delete_clean : fails_cleanly h_delete.
Proof.
  intros params st req. unfold h_delete.
  pose proof (delete_string_failure st (param_value params)) as H.
  destruct (delete_string st (param_value params)) as [st' res]. intros Hs.
  destruct H as [[H _]|[_ [H1 [H2 _]]]]; [lia | now split].
Qed.

(** Every route but the natural-language one fails cleanly. *)
Lemma routes_clean (r : route) :
  In r server_routes \/ In r api_v1_routes ->
  route_operation r <> NaturalLanguage -> fails_cleanly (route_handler r).
Proof.
  intros [H|H] Hop; simpl in H;
    repeat (destruct H as [<-|H]; [first
      [ exact h_create_clean | exact h_create_v1_clean | exact h_get_clean
      | exact h_list_clean | exact h_delete_clean | now contradiction Hop ]|]);
    contradiction.
Qed.

Lemma serve_failure (routes : list route) (st : store) (req : request) :
  routes = server_routes \/ routes = api_v1_routes ->
  let '(st', res) := serve routes st req in
  400 <= status res ->
  st' = st
  /\ (isErrorBody res = true
      \/ (operation_of routes req = None /\ res = not_found_page)).
Proof.
  intros Hr. unfold serve.
  pose proof (natural_language_unreachable req) as [Hs Hv].
  assert (Hop : operation_of routes req <> Some NaturalLanguage)
    by (destruct Hr; now subst).
  unfold operation_of in *.
  destruct (findRoute routes req) as [[r params]|] eqn:E.
  - assert (Hin : In r server_routes \/ In r api_v1_routes).
    { apply findRoute_In in E. destruct Hr; subst; tauto. }
    assert (Hc : fails_cleanly (route_handler r)).
    { apply routes_clean; [exact Hin | congruence]. }
    specialize (Hc params st req).
    destruct (route_handler r params st req) as [st' [res|e]]; [|contradiction].
    intros H. destruct (Hc H). now split; [|left].
  - intros _. split; [reflexivity | right; now split].
Qed.

(** C8.  Every operation that fails answers an [{ error: message }] body
    and leaves the store exactly as it was.  Create fails only with 400,
    422 or 409 and then stores nothing and changes no record; Delete fails
    only with 404 and then removes nothing; get-by-value, list/filter and
    the interpretation of a query touch no store and fail with an
    [{ error }] body; and through either application every response with
    a status from 400 up leaves the store unchanged and carries
    [{ error }], the 404 page of a path that reaches no operation apart
    (a request is taken from its parsed body and decoded path on). *)
Theorem failures_leave_the_store (st : store) (req : request) :
  (forall st' res,
     post_strings st req = (st', res) \/ post_strings_v1 st req = (st', res) ->
     status res <> 201 ->
     (status res = 400 \/ status res = 422 \/ status res = 409)
     /\ isErrorBody res = true /\ st' = st)
  /\ (forall value st' res,
        delete_string st value = (st', res) -> status res <> 204 ->
        status res = 404 /\ isErrorBody res = true /\ st' = st)
  /\ (forall value, status (get_string st value) <> 200 ->
        status (get_string st value) = 404
        /\ isErrorBody (get_string st value) = true)
  /\ (forall query, status (get_strings st query) <> 200 ->
        status (get_strings st query) = 400
        /\ isErrorBody (get_strings st query) = true)
  /\ (forall q, status (interpret st q) <> 200 ->
        (status (interpret st q) = 400 \/ status (interpret st q) = 422)
        /\ isErrorBody (interpret st q) = true)
  /\ (forall st' res,
        server st req = (st', res) -> 400 <= status res ->
        st' = st
        /\ (isErrorBody res = true
            \/ (res = not_found_page /\ operation_of server_routes req = None)))
  /\ (forall st' res,
        server_v1 st req = (st', res) -> 400 <= status res ->
        st' = st
        /\ (isErrorBody res = true
            \/ (res = not_found_page /\ operation_of api_v1_routes req = None))).
Proof.
  split; [|split; [|split; [|split; [|split; [|split]]]]].
  - intros st' res H Hs.
    assert (E : post_strings st req = (st', res)).
    { destruct H as [H|H]; [exact H | now rewrite <- post_strings_v1_same]. }
    pose proof (post_strings_failure st req) as Hf. rewrite E in Hf.
    destruct Hf as [Hf|Hf]; [contradiction | exact Hf].
  - intros value st' res E Hs.
    pose proof (delete_string_failure st value) as Hf. rewrite E in Hf.
    destruct Hf as [[Hf _]|Hf]; [contradiction | tauto].
  - intros value Hs. destruct (get_string_failure st value); [contradiction | assumption].
  - intros query Hs. destruct (get_strings_failure st query); [contradiction | assumption].
  - intros q Hs. destruct (interpret_failure st q); [contradiction | assumption].
  - intros st' res E Hs.
    pose proof (serve_failure server_routes st req (or_introl eq_refl)) as Hf.
    fold server in Hf. rewrite E in Hf. destruct (Hf Hs) as [H1 H2].
    split; [exact H1|]. destruct H2 as [H2|[H2 H3]]; [now left | right; tauto].
  - intros st' res E Hs.
    pose proof (serve_failure api_v1_routes st req (or_intror eq_refl)) as Hf.
    fold server_v1 in Hf. rewrite E in Hf. destruct (Hf Hs) as [H1 H2].
    split; [exact H1|]. destruct H2 as [H2|[H2 H3]]; [now left | right; tauto].
Qed.
End Failures.

(** At the ASCII host: a Create without a body fails with 400, an
    [{ error }] body and the store as it was. *)
Lemma failures_leave_the_store_witness :
  (status (sendError 400 "Missing 'value' field") = 400%nat
   \/ status (sendError 400 "Missing 'value' field") = 422%nat
   \/ status (sendError 400 "Missing 'value' field") = 409%nat)
  /\ isErrorBody (sendError 400 "Missing 'value' field") = true
  /\ @nil (jsstring * Analysis.record) = [].
Proof.
  refine (proj1 (@failures_leave_the_store asciiHost [] empty_post)
            [] (sendError 400 "Missing 'value' field") (or_introl eq_refl) _).
  discriminate.
Defined.

(** ** The digest *)

Module SHA256Facts.
Import SHA256.

Lemma round_length (st : list N) (kw : N * N) :
  List.length (round st kw) = List.length st.
Proof.
  unfold round.
  destruct st as [|a [|b [|c [|d [|e [|f [|g [|h [|x st]]]]]]]]]; reflexivity.
Qed.

Lemma fold_round_length (kws : list (N * N)) (st : list N) :
  List.length (fold_left round kws st) = List.length st.
Proof.
  revert st. induction kws as [|kw kws IH]; intros st; simpl; [reflexivity|].
  now rewrite IH, round_length.
Qed.

Lemma compress_length (h block : list N) :
  List.length (compress h block) = List.length h.
Proof.
  unfold compress. rewrite length_map, length_combine, fold_round_length.
  apply Nat.min_id.
Qed.

Lemma blocks_length (n : nat) (h bs : list N) :
  List.length (blocks n h bs) = List.length h.
Proof.
  revert h bs. induction n as [|n IH]; intros h bs; simpl; [reflexivity|].
  now rewrite IH, compress_length.
Qed.

Lemma be_bytes_spec (n : nat) (x : N) :
  List.length (be_bytes n x) = n /\ Forall (fun b => b < 256) (be_bytes n x).
Proof.
  revert x. induction n as [|n IH]; intros x; simpl; [now split|].
  destruct (IH (x / 256)) as [H1 H2]. split.
  - rewrite length_app, H1. simpl. lia.
  - apply Forall_app. split; [exact H2|].
    constructor; [|constructor]. now apply N.mod_lt.
Qed.

Lemma flat_map_be_bytes_length (ws : list N) :
  List.length (flat_map (be_bytes 4) ws) = (4 * List.length ws)%nat.
Proof.
  induction ws as [|w ws IH]; [reflexivity|].
  cbn [flat_map]. rewrite length_app, IH, (proj1 (be_bytes_spec 4 w)).
  simpl. lia.
Qed.

(** The digest is 32 bytes. *)
Lemma digest_spec (msg : list N) :
  List.length (digest msg) = 32%nat /\ Forall (fun b => b < 256) (digest msg).
Proof.
  unfold digest.
  set (ws := blocks _ _ _).
  assert (Hl : List.length ws = 8%nat) by (unfold ws; now rewrite blocks_length).
  clearbody ws. split.
  - rewrite flat_map_be_bytes_length, Hl. reflexivity.
  - apply Forall_flat_map. apply Forall_forall. intros w _.
    apply be_bytes_spec.
Qed.

End SHA256Facts.

Lemma hexDigit_lower (d : N) : d < 16 -> isLowerHex (hexDigit d) = true.
Proof.
  intros H. unfold hexDigit, isLowerHex, isDigit.
  destruct (N.ltb_spec d 10).
  - apply orb_true_iff. left. apply andb_true_iff. rewrite !N.leb_le. lia.
  - apply orb_true_iff. right. apply andb_true_iff. rewrite !N.leb_le. lia.
Qed.

Lemma hex_spec (bytes : list N) :
  Forall (fun b => b < 256) bytes ->
  List.length (hex bytes) = (2 * List.length bytes)%nat
  /\ forallb isLowerHex (hex bytes) = true.
Proof.
  unfold hex. induction bytes as [|b bytes IH]; intros H; [now split|].
  inversion H as [|? ? Hb Hbs]; subst. destruct (IH Hbs) as [H1 H2].
  simpl. split; [lia|].
  rewrite H2, !hexDigit_lower; [reflexivity | now apply N.mod_lt |].
  apply N.Div0.div_lt_upper_bound. exact Hb.
Qed.

(** The digest of every string is 64 lower-case hexadecimal characters. *)
Theorem sha256Hex_shape (s : jsstring) :
  List.length (sha256Hex s) = 64%nat
  /\ forallb isLowerHex (sha256Hex s) = true
  /\ (forall host : Host, Analysis.sha256 (analyse s) = sha256Hex s).
Proof.
  unfold sha256Hex.
  destruct (SHA256Facts.digest_spec (utf8 s)) as [H1 H2].
  destruct (hex_spec _ H2) as [H3 H4].
  repeat split; [now rewrite H3, H1 | exact H4].
Qed.

(** ** Round trip, get and delete *)

Section RoundTrip.
Context {host : Host}.
Local Open Scope nat_scope.

Lemma serve_get (st : store) (value : jsstring) :
  value <> [] -> server st (get_request value) = (st, get_string st value).
Proof.
  intros Hv. unfold server, serve, get_request.
  cbn [findRoute server_routes route_method route_path req_method req_path
       method_eqb].
  assert (E : matchPath [Lit (js "strings"); Param] [js "strings"; value]
              = Some [value]).
  { cbn [matchPath]. change (lit_eqb (js "strings") (js "strings")) with true.
    cbn iota. destruct value; [contradiction | reflexivity]. }
  rewrite E. reflexivity.
Qed.

(** Get and Delete.  Get-by-value answers 200 with the record stored under
    the exact value and 404 when there is none; Delete answers 204 with an
    empty body and removes that key and no other, and 404 when the key is
    not there. *)
Theorem get_and_delete (st : store) (value : jsstring) :
  get_string st value
    = match Map_get st value with
      | Some r => {| status := 200; body := RecordBody r |}
      | None => sendError 404 "String not found"
      end
  /\ delete_string st value
     = (if Map_has st value
        then (Map_delete st value, {| status := 204; body := NoBody |})
        else (st, sendError 404 "String not found"))
  /\ Map_has (Map_delete st value) value = false
  /\ (forall k, k <> value -> Map_get (Map_delete st value) k = Map_get st k).
Proof.
  split; [|split; [|split]].
  - unfold get_string, Map_has. now destruct (Map_get st value).
  - unfold delete_string. now destruct (Map_has st value).
  - apply Map_has_delete_same.
  - intros k Hk. rewrite Map_get_delete.
    apply jseqb_neq in Hk. now rewrite Hk.
Qed.
End RoundTrip.

(** ** The examples of the natural-language adapter *)

Lemma num_lt_nat (a : Z) (len : nat) :
  num_lt (Finite (inject_Z a)) (ofNat len) = (a <? Z.of_nat len)%Z.
Proof.
  unfold num_lt, ofNat. destruct (Z.ltb_spec a (Z.of_nat len)) as [H|H].
  - apply negb_true_iff. destruct (Qle_bool _ _) eqn:E; [|reflexivity].
    apply Qle_bool_iff in E. rewrite <- Zle_Qle in E. lia.
  - apply negb_false_iff, Qle_bool_iff. now rewrite <- Zle_Qle.
Qed.

Lemma num_le_nat (a : Z) (len : nat) :
  num_le (Finite (inject_Z a)) (ofNat len) = (a <=? Z.of_nat len)%Z.
Proof.
  unfold num_le, ofNat. destruct (Z.leb_spec a (Z.of_nat len)) as [H|H].
  - apply Qle_bool_iff. now rewrite <- Zle_Qle.
  - destruct (Qle_bool _ _) eqn:E; [|reflexivity].
    apply Qle_bool_iff in E. rewrite <- Zle_Qle in E. lia.
Qed.

Section Examples.
Context {host : Host}.
Local Open Scope nat_scope.

Hypothesis toLowerCase_ascii :
  forall s, forallb isAscii s = true -> toLowerCase s = map asciiLower s.

(** The adapter against the structured filter.  "strings longer than 5"
    returns the records with [length > 5], which is what the structured
    filter returns for [minLength=6]; "find palindromes" returns what
    [isPalindrome=true] returns, the palindromes; and "gibberish xyz" is
    answered the 400 of a query that cannot be interpreted. *)
Theorem adapter_examples (st : store) :
  interpret st (js "strings longer than 5")
    = listing (filter (fun r => 5 <? Analysis.length r) (Map_values st))
  /\ interpret st (js "strings longer than 5") = get_strings st query_minLength_6
  /\ interpret st (js "find palindromes")
     = listing (filter (fun r => Analysis.isPalindrome r) (Map_values st))
  /\ interpret st (js "find palindromes") = get_strings st query_isPalindrome_true
  /\ interpret st (js "gibberish xyz") = sendError 400 "Could not interpret query".
Proof.
  assert (H5 : interpret st (js "strings longer than 5")
               = listing (filter (fun r => 5 <? Analysis.length r) (Map_values st))).
  { unfold interpret. rewrite toLowerCase_ascii by (vm_compute; reflexivity).
    unfold template_palindromes, template_single_word, template_longer.
    replace (includes (map asciiLower (js "strings longer than 5")) (js "palind"))
      with false by (vm_compute; reflexivity).
    replace (includes (map asciiLower (js "strings longer than 5")) (js "single word"))
      with false by (vm_compute; reflexivity).
    replace (includes (map asciiLower (js "strings longer than 5")) (js "single-word"))
      with false by (vm_compute; reflexivity).
    replace (match_longer (map asciiLower (js "strings longer than 5")))
      with (Some (js "5")) by (vm_compute; reflexivity).
    replace (StringToNumber (js "5")) with (Finite (inject_Z 5))
      by (vm_compute; reflexivity).
    cbn [orb bind isFinite negb finish]. f_equal. apply filter_ext. intros r.
    rewrite num_lt_nat. destruct (Nat.ltb_spec 5 (Analysis.length r));
      [apply Z.ltb_lt | apply Z.ltb_ge]; lia. }
  assert (Hp : interpret st (js "find palindromes")
               = listing (filter (fun r => Analysis.isPalindrome r) (Map_values st))).
  { unfold interpret. rewrite toLowerCase_ascii by (vm_compute; reflexivity).
    unfold template_palindromes.
    replace (includes (map asciiLower (js "find palindromes")) (js "palind"))
      with true by (vm_compute; reflexivity).
    reflexivity. }
  split; [exact H5|]. split; [|split; [exact Hp|split]].
  - rewrite H5, get_strings_spec.
    change (first_rejected query_minLength_6) with (@None field).
    rewrite bad_contains_convertible by reflexivity.
    cbv iota. f_equal. apply filter_ext. intros r. unfold satisfies, query_minLength_6.
    change (Map_get [(js "minLength", QString (js "6"))] (js "isPalindrome"))
      with (@None qvalue).
    change (Map_get [(js "minLength", QString (js "6"))] (js "minLength"))
      with (Some (QString (js "6"))).
    change (Map_get [(js "minLength", QString (js "6"))] (js "maxLength"))
      with (@None qvalue).
    change (Map_get [(js "minLength", QString (js "6"))] (js "wordCount"))
      with (@None qvalue).
    change (Map_get [(js "minLength", QString (js "6"))] (js "contains"))
      with (@None qvalue).
    cbn [holds_isPalindrome holds_minLength holds_maxLength holds_wordCount
         holds_contains andb].
    replace (Number (QString (js "6"))) with (Some (Finite (inject_Z 6)))
      by (vm_compute; reflexivity).
    rewrite num_le_nat, !andb_true_r.
    destruct (Nat.ltb_spec 5 (Analysis.length r));
      symmetry; [apply Z.leb_le | apply Z.leb_gt]; lia.
  - rewrite Hp, get_strings_spec.
    change (first_rejected query_isPalindrome_true) with (@None field).
    rewrite bad_contains_convertible by reflexivity.
    cbv iota. f_equal. apply filter_ext. intros r. unfold satisfies, query_isPalindrome_true.
    change (Map_get [(js "isPalindrome", QString (js "true"))] (js "isPalindrome"))
      with (Some (QString (js "true"))).
    change (Map_get [(js "isPalindrome", QString (js "true"))] (js "minLength"))
      with (@None qvalue).
    change (Map_get [(js "isPalindrome", QString (js "true"))] (js "maxLength"))
      with (@None qvalue).
    change (Map_get [(js "isPalindrome", QString (js "true"))] (js "wordCount"))
      with (@None qvalue).
    change (Map_get [(js "isPalindrome", QString (js "true"))] (js "contains"))
      with (@None qvalue).
    cbn [holds_isPalindrome holds_minLength holds_maxLength holds_wordCount
         holds_contains andb].
    change (strictEq (QString (js "true")) (js "true")) with true.
    rewrite !andb_true_r. now destruct (Analysis.isPalindrome r).
  - unfold interpret. rewrite toLowerCase_ascii by (vm_compute; reflexivity).
    unfold template_palindromes, template_single_word, template_longer,
      template_shorter, template_contains.
    replace (includes (map asciiLower (js "gibberish xyz")) (js "palind"))
      with false by (vm_compute; reflexivity).
    replace (includes (map asciiLower (js "gibberish xyz")) (js "single word"))
      with false by (vm_compute; reflexivity).
    replace (includes (map asciiLower (js "gibberish xyz")) (js "single-word"))
      with false by (vm_compute; reflexivity).
    replace (match_longer (map asciiLower (js "gibberish xyz")))
      with (@None jsstring) by (vm_compute; reflexivity).
    replace (match_shorter (map asciiLower (js "gibberish xyz")))
      with (@None jsstring) by (vm_compute; reflexivity).
    replace (match_contains (map asciiLower (js "gibberish xyz")))
      with (@None jsstring) by (vm_compute; reflexivity).
    reflexivity.
Qed.
End Examples.

(** The examples at the ASCII host, on the store with the records of lengths
    3, 5 and 7. *)
Lemma adapter_examples_witness :
  @interpret asciiHost (@store_357 asciiHost) (js "strings longer than 5")
    = listing (filter (fun r => 5 <? Analysis.length r)%nat (Map_values (@store_357 asciiHost)))
  /\ @interpret asciiHost (@store_357 asciiHost) (js "strings longer than 5")
     = get_strings (@store_357 asciiHost) query_minLength_6
  /\ @interpret asciiHost (@store_357 asciiHost) (js "find palindromes")
     = listing (filter (fun r => Analysis.isPalindrome r) (Map_values (@store_357 asciiHost)))
  /\ @interpret asciiHost (@store_357 asciiHost) (js "find palindromes")
     = get_strings (@store_357 asciiHost) query_isPalindrome_true
  /\ @interpret asciiHost (@store_357 asciiHost) (js "gibberish xyz")
     = sendError 400 "Could not interpret query".
Proof.
  apply (@adapter_examples asciiHost (fun s _ => eq_refl)).
Defined.

(** ** Through the application *)

Section Sessions.
Context {host : Host}.
Local Open Scope nat_scope.

Lemma serve_delete (st : store) (value : jsstring) :
  value <> [] -> server st (delete_request value) = delete_string st value.
Proof.
  intros Hv. unfold server, serve, delete_request.
  cbn [findRoute server_routes route_method route_path req_method req_path
       method_eqb].
  assert (E : matchPath [Lit (js "strings"); Param] [js "strings"; value]
              = Some [value]).
  { cbn [matchPath]. change (lit_eqb (js "strings") (js "strings")) with true.
    cbn iota. destruct value; [contradiction | reflexivity]. }
  rewrite E. cbn [route_handler]. unfold h_delete, param_value. cbn [hd].
  now destruct (delete_string st value).
Qed.

Lemma serve_list (st : store) (query : alist qvalue) :
  server st (list_request query) = (st, get_strings st query).
Proof. reflexivity. Qed.

(** Listing.  Without parameters the list operation returns every record, in
    the order of insertion, with their number; and a record that is created
    comes last. *)
Theorem list_all_in_insertion_order (st : store) (s : jsstring) :
  server st (list_request [])
    = (st, {| status := 200;
              body := ListBody (List.length (Map_values st)) (Map_values st) |})
  /\ (Map_has st s = false ->
      Map_values (fst (server st (create_request [js "strings"] s)))
      = Map_values st ++ [analyse s]).
Proof.
  split.
  - rewrite serve_list, get_strings_spec.
    change (first_rejected []) with (@None field). cbv iota. unfold listing.
    replace (filter (satisfies []) (Map_values st)) with (Map_values st);
      [reflexivity|].
    symmetry. rewrite <- (filter_true (Map_values st)) at 2.
    now apply filter_ext.
  - intros Habsent.
    rewrite (proj1 (serve_create st (create_request [js "strings"] s) eq_refl) eq_refl).
    rewrite post_strings_create, Habsent. cbn [fst].
    now apply Map_values_set_new.
Qed.
End Sessions.

(** ** One request, handler by handler *)

Lemma findRoute_method (routes : list route) (req : request) r params :
  findRoute routes req = Some (r, params) -> route_method r = req_method req.
Proof.
  induction routes as [|r0 routes IH]; simpl; [discriminate|].
  destruct (method_eqb (route_method r0) (req_method req)) eqn:Em.
  - destruct (matchPath (route_path r0) (req_path req)).
    + intros H. injection H as <- _.
      now destruct (route_method r0), (req_method req).
    + exact IH.
  - exact IH.
Qed.

Lemma findRoute_path (routes : list route) (req : request) r params :
  findRoute routes req = Some (r, params) ->
  matchPath (route_path r) (req_path req) = Some params.
Proof.
  induction routes as [|r0 routes IH]; simpl; [discriminate|].
  destruct (method_eqb (route_method r0) (req_method req)).
  - destruct (matchPath (route_path r0) (req_path req)) eqn:E.
    + intros H. now injection H as <- <-.
    + exact IH.
  - exact IH.
Qed.

(** A parameter captured at the end of a pattern is not empty. *)
Lemma matchPath_param_value (pre : list segment) (path params : list jsstring) :
  (forall s, In s pre -> s <> Param) ->
  matchPath (pre ++ [Param]) path = Some params ->
  exists value, params = [value] /\ value <> [].
Proof.
  revert path params. induction pre as [|[s|] pre IH]; intros [|x path] params Hp;
    simpl; try discriminate.
  - destruct (isNil x) eqn:E; [discriminate|].
    destruct path; [|discriminate]. intros H. injection H as <-.
    exists x. split; [reflexivity|]. now destruct x.
  - destruct (lit_eqb s x); [|discriminate].
    apply IH. intros s' Hs'. apply Hp. now right.
  - exfalso. now apply (Hp Param); [left|].
Qed.

Section Served.
Context {host : Host}.
Local Open Scope nat_scope.

(** Through either application a request is answered by Express alone (no
    route), or by one of the four handlers that can be reached. *)
Lemma serve_served (st : store) (req : request) :
  served st req (server st req) /\ served st req (server_v1 st req).
Proof.
  pose proof (natural_language_unreachable req) as [Hs Hv].
  unfold operation_of in Hs, Hv. unfold server, server_v1, serve.
  split.
  - destruct (findRoute server_routes req) as [[r params]|] eqn:E;
      [|apply served_nothing].
    pose proof (findRoute_method _ _ _ _ E) as Hm.
    pose proof (findRoute_path _ _ _ _ E) as Hp.
    apply findRoute_In in E. simpl in E.
    destruct E as [<-|[<-|[<-|[<-|[<-|[]]]]]]; cbn [route_handler route_method route_path] in *.
    + unfold h_create. destruct (post_strings st req) eqn:E'.
      rewrite <- E'. now apply served_create.
    + destruct (matchPath_param_value [Lit (js "strings")] _ _
                  ltac:(intros s [<-|[]]; discriminate) Hp) as [v [-> Hv']].
      unfold h_get, param_value. cbn [hd]. now apply served_get.
    + unfold h_list. now apply served_list.
    + now contradiction Hs.
    + destruct (matchPath_param_value [Lit (js "strings")] _ _
                  ltac:(intros s [<-|[]]; discriminate) Hp) as [v [-> Hv']].
      unfold h_delete, param_value. cbn [hd].
      destruct (delete_string st v) eqn:E'. rewrite <- E'.
      now apply served_delete.
  - destruct (findRoute api_v1_routes req) as [[r params]|] eqn:E;
      [|apply served_nothing].
    pose proof (findRoute_method _ _ _ _ E) as Hm.
    pose proof (findRoute_path _ _ _ _ E) as Hp.
    apply findRoute_In in E. simpl in E.
    destruct E as [<-|[<-|[<-|[<-|[<-|[]]]]]]; cbn [route_handler route_method route_path] in *.
    + unfold h_create_v1. rewrite post_strings_v1_same.
      destruct (post_strings st req) eqn:E'.
      rewrite <- E'. now apply served_create.
    + destruct (matchPath_param_value
                  [Lit (js "api"); Lit (js "v1"); Lit (js "strings")] _ _
                  ltac:(intros s [<-|[<-|[<-|[]]]]; discriminate) Hp) as [v [-> Hv']].
      unfold h_get, param_value. cbn [hd]. now apply served_get.
    + unfold h_list. now apply served_list.
    + now contradiction Hv.
    + destruct (matchPath_param_value
                  [Lit (js "api"); Lit (js "v1"); Lit (js "strings")] _ _
                  ltac:(intros s [<-|[<-|[<-|[]]]]; discriminate) Hp) as [v [-> Hv']].
      unfold h_delete, param_value. cbn [hd].
      destruct (delete_string st v) eqn:E'. rewrite <- E'.
      now apply served_delete.
Qed.
End Served.

(** ** The store across requests *)

Section KeyedMore.
Variable V : Type.
Implicit Types (m : alist V) (k : jsstring) (v : V).

Lemma Map_set_new m k v : Map_has m k = false -> Map_set m k v = m ++ [(k, v)].
Proof.
  unfold Map_has. induction m as [|[k' v'] m IH]; simpl; [reflexivity|].
  destruct (jseqb k k'); [discriminate|]. intros H. now rewrite IH.
Qed.

Lemma Map_get_In m k v : Map_get m k = Some v -> In (k, v) m.
Proof.
  induction m as [|[k' v'] m IH]; simpl; [discriminate|].
  destruct (jseqb k k') eqn:E.
  - apply jseqb_eq in E. intros H. injection H as <-. subst. now left.
  - intros H. right. now apply IH.
Qed.

Lemma In_Map_get m k v : NoDup (Map_keys m) -> In (k, v) m -> Map_get m k = Some v.
Proof.
  induction m as [|[k' v'] m IH]; simpl; [tauto|].
  intros Hnd [H|H].
  - injection H as -> ->. now rewrite jseqb_refl.
  - inversion Hnd as [|? ? Hnot Hnd']; subst.
    destruct (jseqb k k') eqn:E.
    + apply jseqb_eq in E. subst k'. exfalso. apply Hnot.
      apply in_map_iff. now exists (k, v).
    + now apply IH.
Qed.

Lemma Map_delete_In m k k' v : In (k', v) (Map_delete m k) -> In (k', v) m /\ k' <> k.
Proof.
  unfold Map_delete. rewrite filter_In. intros [H1 H2]. split; [exact H1|].
  simpl in H2. apply negb_true_iff, jseqb_neq in H2. congruence.
Qed.

Lemma Map_delete_keys m k :
  Map_keys (Map_delete m k) = filter (fun k' => negb (jseqb k k')) (Map_keys m).
Proof.
  unfold Map_delete, Map_keys. induction m as [|[k' v'] m IH]; simpl; [reflexivity|].
  destruct (jseqb k k'); simpl; now rewrite IH.
Qed.

(** With every key stored once, deleting a stored key removes one entry. *)
Lemma Map_delete_length m k :
  NoDup (Map_keys m) -> Map_has m k = true ->
  S (List.length (Map_delete m k)) = List.length m.
Proof.
  unfold Map_has, Map_delete. induction m as [|[k' v'] m IH]; simpl; [discriminate|].
  intros Hnd. inversion Hnd as [|? ? Hnot Hnd']; subst.
  destruct (jseqb k k') eqn:E; simpl.
  - intros _. apply jseqb_eq in E. subst k'. f_equal.
    fold (Map_delete m k). rewrite Map_delete_absent; [reflexivity|].
    destruct (Map_has m k) eqn:Hh; [|reflexivity].
    apply Map_has_In in Hh. contradiction.
  - intros H. f_equal. now apply IH.
Qed.
End KeyedMore.

Section Invariant.
Context {host : Host}.
Local Open Scope nat_scope.

Lemma store_ok_nil : store_ok [].
Proof. split; [constructor | intros k r []]. Qed.

Lemma store_ok_set (st : store) (s : jsstring) :
  store_ok st -> Map_has st s = false -> store_ok (Map_set st s (analyse s)).
Proof.
  intros [Hnd Hrec] Hs. split.
  - now apply Map_keys_NoDup_set.
  - intros k r. rewrite Map_set_new by exact Hs. rewrite in_app_iff.
    intros [H|[H|[]]]; [now apply Hrec | now injection H as <- <-].
Qed.

Lemma store_ok_delete (st : store) (value : jsstring) :
  store_ok st -> store_ok (Map_delete st value).
Proof.
  intros [Hnd Hrec]. split.
  - rewrite Map_delete_keys. now apply NoDup_filter.
  - intros k r H. apply Map_delete_In in H as [H _]. now apply Hrec.
Qed.

Lemma served_store_ok (st : store) (req : request) (out : store * response) :
  served st req out -> store_ok st -> store_ok (fst out).
Proof.
  intros Hs Hok. destruct Hs; cbn [fst]; try exact Hok.
  - pose proof (post_strings_outcome st req) as Ho.
    unfold create_outcome in Ho. destruct (post_strings st req) as [st' res].
    cbn [fst].
    destruct (value_field (req_body req)) as [[| | |s| |]|];
      try (destruct Ho as [_ [_ ->]]; exact Hok).
    destruct (Map_has st s) eqn:E.
    + destruct Ho as [_ [_ ->]]. exact Hok.
    + destruct Ho as [_ [_ [-> _]]]. now apply store_ok_set.
  - unfold delete_string. destruct (negb (Map_has st value)); cbn [fst];
      [exact Hok | now apply store_ok_delete].
Qed.

Lemma session_store_ok (app : store -> request -> store * response)
    (reqs : list request) :
  (forall st req, store_ok st -> store_ok (fst (app st req))) ->
  store_ok (session app reqs).
Proof.
  intros Happ. unfold session.
  assert (H : forall st, store_ok st ->
                store_ok (fold_left (fun st req => fst (app st req)) reqs st)).
  { induction reqs as [|req reqs IH]; intros st Hst; simpl; [exact Hst|].
    apply IH. now apply Happ. }
  apply H, store_ok_nil.
Qed.

(** The store invariant.  Whatever the requests, each application keeps
    every key once and under it the analysis of that very key: the invariant
    holds of the empty store, every request preserves it, so it holds after
    every sequence of requests; under it the record found for a key is the
    analysis of the key, its [string] field is the key, and get-by-value
    answers either 404 or 200 with the analysis of the value asked for. *)
Theorem store_invariant (st : store) (req : request) (reqs : list request) :
  (store_ok st -> store_ok (fst (server st req)) /\ store_ok (fst (server_v1 st req)))
  /\ store_ok (session server reqs)
  /\ store_ok (session server_v1 reqs)
  /\ (store_ok st -> forall k r, Map_get st k = Some r ->
        r = analyse k /\ Analysis.string r = k)
  /\ (store_ok st -> forall value,
        get_string st value = sendError 404 "String not found"
        \/ get_string st value = {| status := 200; body := RecordBody (analyse value) |}).
Proof.
  assert (Hstep : forall st0 req0, store_ok st0 ->
            store_ok (fst (server st0 req0)) /\ store_ok (fst (server_v1 st0 req0))).
  { intros st0 req0 Hok. destruct (serve_served st0 req0) as [H1 H2].
    split; eapply served_store_ok; eassumption. }
  assert (Hget : store_ok st -> forall k r, Map_get st k = Some r -> r = analyse k).
  { intros [_ Hrec] k r H. apply Hrec. now apply Map_get_In. }
  split; [apply Hstep|].
  split; [apply session_store_ok; intros; now apply Hstep|].
  split; [apply session_store_ok; intros; now apply Hstep|].
  split.
  - intros Hok k r H. rewrite (Hget Hok k r H). now split.
  - intros Hok value. unfold get_string, Map_has.
    destruct (Map_get st value) as [r|] eqn:E; [right | now left].
    cbn [negb]. now rewrite (Hget Hok value r E).
Qed.
End Invariant.

Section Frame.
Context {host : Host}.
Local Open Scope nat_scope.

Lemma served_frame (st : store) (req : request) (out : store * response) :
  served st req out ->
  (req_method req = GET -> fst out = st)
  /\ (exists key, forall k, k <> key -> Map_get (fst out) k = Map_get st k).
Proof.
  intros Hs. destruct Hs as [|Hm|value Hm Hv|Hm|value Hm Hv]; cbn [fst].
  - split; [reflexivity | now exists []].
  - split; [congruence|].
    pose proof (post_strings_outcome st req) as Ho.
    unfold create_outcome in Ho. destruct (post_strings st req) as [st' res].
    cbn [fst].
    destruct (value_field (req_body req)) as [[| | |s| |]|];
      try (destruct Ho as [_ [_ ->]]; now exists []).
    destruct (Map_has st s) eqn:E.
    + destruct Ho as [_ [_ ->]]. now exists [].
    + destruct Ho as [_ [_ [-> _]]]. exists s. intros k Hk.
      apply Map_get_set_other. now apply jseqb_neq.
  - split; [reflexivity | now exists []].
  - split; [reflexivity | now exists []].
  - split; [congruence|]. exists value. intros k Hk.
    unfold delete_string. destruct (negb (Map_has st value)); cbn [fst];
      [reflexivity|].
    rewrite Map_get_delete. apply jseqb_neq in Hk. now rewrite Hk.
Qed.

(** Frame.  A [GET] never changes the store, and any request changes the
    record of at most one key: every other key is found with the record it
    had. *)
Theorem requests_touch_one_key (st : store) (req : request) :
  (req_method req = GET ->
     fst (server st req) = st /\ fst (server_v1 st req) = st)
  /\ (exists key, forall k, k <> key ->
        Map_get (fst (server st req)) k = Map_get st k)
  /\ (exists key, forall k, k <> key ->
        Map_get (fst (server_v1 st req)) k = Map_get st k).
Proof.
  destruct (serve_served st req) as [H1 H2].
  destruct (served_frame _ _ _ H1) as [G1 F1].
  destruct (served_frame _ _ _ H2) as [G2 F2].
  split; [intros Hm; split; [now apply G1 | now apply G2]|].
  now split.
Qed.

Lemma served_status (st : store) (req : request) (out : store * response) :
  served st req out ->
  In (status (snd out))
     match req_method req with
     | POST => [201; 400; 409; 422; 404]
     | GET => [200; 400; 404]
     | DELETE => [204; 404]
     end.
Proof.
  intros Hs. destruct Hs as [|Hm|value Hm Hv|Hm|value Hm Hv]; cbn [snd].
  - destruct (req_method req); simpl; tauto.
  - rewrite Hm. pose proof (post_strings_failure st req) as H.
    destruct (post_strings st req) as [st' res]. cbn [snd].
    destruct H as [->|[[->|[->| ->]] _]]; simpl; tauto.
  - rewrite Hm. destruct (get_string_failure st value) as [->|[-> _]]; simpl; tauto.
  - rewrite Hm.
    destruct (get_strings_failure st (req_query req)) as [->|[-> _]]; simpl; tauto.
  - rewrite Hm. pose proof (delete_string_failure st value) as H.
    destruct (delete_string st value) as [st' res]. cbn [snd].
    destruct H as [[-> _]|[-> _]]; simpl; tauto.
Qed.

End Frame.

(** A [GET] by value at the ASCII host, on the store of lengths 3, 5 and 7. *)
Lemma requests_touch_one_key_witness :
  fst (@server asciiHost (@store_357 asciiHost) (get_request (js "abc")))
    = @store_357 asciiHost
  /\ fst (@server_v1 asciiHost (@store_357 asciiHost) (get_request (js "abc")))
     = @store_357 asciiHost.
Proof.
  exact (proj1 (@requests_touch_one_key asciiHost (@store_357 asciiHost)
                  (get_request (js "abc"))) eq_refl).
Defined.




Section Mounted.
Context {host : Host}.
Local Open Scope nat_scope.


End Mounted.


Section Persistence.
Context {host : Host}.
Local Open Scope nat_scope.

Lemma served_keeps (st : store) (req : request) (out : store * response)
    (k : jsstring) :
  served st req out -> Map_has st k = true ->
  req_method req <> DELETE \/ k = [] ->
  Map_has (fst out) k = true.
Proof.
  intros Hs Hk Hc. destruct Hs as [|Hm|value Hm Hv|Hm|value Hm Hv]; cbn [fst];
    try exact Hk.
  - pose proof (post_strings_outcome st req) as Ho.
    unfold create_outcome in Ho. destruct (post_strings st req) as [st' res].
    cbn [fst].
    destruct (value_field (req_body req)) as [[| | |s| |]|];
      try (destruct Ho as [_ [_ ->]]; exact Hk).
    destruct (Map_has st s) eqn:E.
    + destruct Ho as [_ [_ ->]]. exact Hk.
    + destruct Ho as [_ [_ [-> _]]]. unfold Map_has in *.
      rewrite Map_get_set. now destruct (jseqb k s).
  - destruct Hc as [Hc| ->]; [congruence|].
    unfold delete_string. destruct (negb (Map_has st value)); cbn [fst];
      [exact Hk|].
    unfold Map_has in *. rewrite Map_get_delete.
    destruct value; [contradiction | exact Hk].
Qed.

Lemma run_keeps_empty (app : store -> request -> store * response) :
  (forall st req, served st req (app st req)) ->
  forall reqs st, Map_has st [] = true -> Map_has (run app st reqs) [] = true.
Proof.
  intros Happ. unfold run.
  induction reqs as [|req reqs IH]; intros st Hst; simpl; [exact Hst|].
  apply IH. apply (served_keeps st req); [apply Happ | exact Hst | now right].
Qed.

(** Keys leave the store only through a [DELETE], and the empty string
    never leaves it.  A request of another method keeps every stored key;
    the empty string can be created, since [POST] accepts any string, but no
    path names it, so once stored it is there after every run of requests. *)
Theorem keys_leave_only_by_delete (st : store) (k : jsstring) (req : request)
    (reqs : list request) :
  (Map_has st k = true -> req_method req <> DELETE ->
     Map_has (fst (server st req)) k = true
     /\ Map_has (fst (server_v1 st req)) k = true)
  /\ Map_has (fst (server st (create_request [js "strings"] []))) [] = true
  /\ (Map_has st [] = true ->
        Map_has (run server st reqs) [] = true
        /\ Map_has (run server_v1 st reqs) [] = true).
Proof.
  split; [|split].
  - intros Hk Hm. destruct (serve_served st req) as [H1 H2].
    split; [apply (served_keeps st req _ k H1) | apply (served_keeps st req _ k H2)];
      auto.
  - rewrite (proj1 (serve_create st (create_request [js "strings"] []) eq_refl)
               eq_refl).
    pose proof (post_strings_outcome st (create_request [js "strings"] [])) as Ho.
    unfold create_outcome in Ho.
    destruct (post_strings st (create_request [js "strings"] [])) as [st' res].
    cbn [fst]. change (value_field (req_body (create_request [js "strings"] [])))
      with (Some (JString [])) in Ho.
    cbv beta iota in Ho. destruct (Map_has st []) eqn:E.
    + now destruct Ho as [_ [_ ->]].
    + destruct Ho as [_ [_ [-> _]]]. apply Map_has_set_same.
  - intros He. split; apply run_keeps_empty; try exact He;
      intros st0 req0; apply (serve_served st0 req0).
Qed.
End Persistence.

(** The empty string stored, then a [DELETE] and a [GET] of the empty path
    segment. *)
Lemma keys_leave_only_by_delete_witness :
  Map_has (run (@server asciiHost) [([], @analyse asciiHost [])]
             [delete_request []; get_request []]) [] = true
  /\ Map_has (run (@server_v1 asciiHost) [([], @analyse asciiHost [])]
                [delete_request []; get_request []]) [] = true.
Proof.
  exact (proj2 (proj2 (@keys_leave_only_by_delete asciiHost
                         [([], @analyse asciiHost [])] []
                         (get_request []) [delete_request []; get_request []]))
           eq_refl).
Defined.

(** ** Numeric parameters in decimal digits *)

Lemma compare_exact (v : Q) (m n : Z) :
  Qeq v (inject_Z m) ->
  Qle_bool v (inject_Z n) = (m <=? n)%Z
  /\ Qle_bool (inject_Z n) v = (n <=? m)%Z
  /\ Qeq_bool (inject_Z n) v = (n =? m)%Z.
Proof.
  intros Hv. repeat split; apply eq_true_iff_eq.
  - rewrite Qle_bool_iff, Z.leb_le, Hv, Zle_Qle. reflexivity.
  - rewrite Qle_bool_iff, Z.leb_le, Hv, Zle_Qle. reflexivity.
  - rewrite Qeq_bool_iff, Z.eqb_eq, Hv. apply inject_Z_injective.
Qed.

Lemma Number_reads (x : qvalue) (m : Z) :
  reads (Some x) (Some m) ->
  exists v, Number x = Some (Finite v) /\ Qeq v (inject_Z m).
Proof.
  unfold reads, Number. destruct (ToString x) as [text|]; [|contradiction].
  intros [Hd [Hm Hlt]]. unfold StringToNumber.
  destruct (trim text) as [|c t] eqn:E.
  - exists 0%Q. split; [reflexivity|]. subst m. reflexivity.
  - assert (Hne : c :: t <> []) by discriminate.
    pose proof (Number_digits (c :: t) Hne Hd) as Hn.
    unfold StringToNumber in Hn.
    rewrite trim_word in Hn.
    2:{ apply forallb_forall. intros d Hin. rewrite forallb_forall in Hd.
        now rewrite isDigit_not_space by now apply Hd. }
    rewrite Hn, Hm. unfold toDouble.
    destruct (m =? 0)%Z eqn:E0.
    + apply Z.eqb_eq in E0. exists 0%Q. split; [reflexivity|].
      rewrite E0. reflexivity.
    + apply Z.eqb_neq in E0.
      pose proof (digitsValue_nonneg (c :: t)) as Hpos.
      destruct (double_of_pos_small m) as [v [Hv Hq]]; [lia|].
      rewrite Hv. now exists v.
Qed.

Lemma reads_accepted (v : option qvalue) (n : option Z) :
  reads v n ->
  match v with Some x => negb (finite_number x) | None => false end = false.
Proof.
  destruct v as [x|], n as [m|]; try (simpl; tauto).
  intros H. unfold finite_number.
  destruct (Number_reads x m H) as [w [-> _]]. reflexivity.
Qed.

Lemma reads_holds (v : option qvalue) (n : option Z) (r : Analysis.record) :
  reads v n ->
  holds_minLength v r = at_least n (Analysis.length r)
  /\ holds_maxLength v r = at_most n (Analysis.length r)
  /\ holds_wordCount v r = exactly n (Analysis.wordCount r).
Proof.
  destruct v as [x|], n as [m|]; try (simpl; tauto).
  intros H. unfold holds_minLength, holds_maxLength, holds_wordCount.
  destruct (Number_reads x m H) as [w [-> Hw]].
  unfold ofNat, num_le, num_eq, at_least, at_most, exactly.
  destruct (compare_exact w m (Z.of_nat (Analysis.length r)) Hw) as [H1 [H2 _]].
  destruct (compare_exact w m (Z.of_nat (Analysis.wordCount r)) Hw) as [_ [_ H3]].
  now rewrite H1, H2, H3.
Qed.

Lemma reads_selects (query : alist qvalue) (lo hi wc : option Z) :
  reads (Map_get query (js "minLength")) lo ->
  reads (Map_get query (js "maxLength")) hi ->
  reads (Map_get query (js "wordCount")) wc ->
  rejected query FIsPalindrome = false ->
  first_rejected query = None
  /\ forall r, satisfies query r = selects query lo hi wc r.
Proof.
  intros Hlo Hhi Hwc Hp. split.
  - unfold first_rejected, checks. cbn [find]. rewrite Hp.
    unfold rejected, field_value. cbn [numeric].
    change (js (field_name FMinLength)) with (js "minLength").
    change (js (field_name FMaxLength)) with (js "maxLength").
    change (js (field_name FWordCount)) with (js "wordCount").
    now rewrite (reads_accepted _ _ Hlo), (reads_accepted _ _ Hhi),
      (reads_accepted _ _ Hwc).
  - intros r. unfold satisfies, selects.
    rewrite (proj1 (reads_holds _ _ r Hlo)).
    rewrite (proj1 (proj2 (reads_holds _ _ r Hhi))).
    now rewrite (proj2 (proj2 (reads_holds _ _ r Hwc))).
Qed.

(** Decimal parameters filter exactly.  When each numeric parameter of a
    list/filter request is absent or written in decimal digits (white space
    around them apart, the number below [2 ^ 53]), [isPalindrome] is absent
    or one of its two literals and the value of [contains], when there is
    one, converts to a string, the answer is the 200 listing of the
    stored records at least [minLength] and at most [maxLength] long with
    exactly [wordCount] words, compared as integers: no rounding of the
    parameter shows. *)
Theorem decimal_parameters_filter_exactly (st : store) (query : alist qvalue)
    (lo hi wc : option Z) :
  reads (Map_get query (js "minLength")) lo ->
  reads (Map_get query (js "maxLength")) hi ->
  reads (Map_get query (js "wordCount")) wc ->
  rejected query FIsPalindrome = false ->
  convertible (Map_get query (js "contains")) = true ->
  get_strings st query = listing (filter (selects query lo hi wc) (Map_values st)).
Proof.
  intros Hlo Hhi Hwc Hp Hc.
  destruct (reads_selects query lo hi wc Hlo Hhi Hwc Hp) as [Hf Hs].
  rewrite get_strings_spec, Hf, (bad_contains_convertible st query Hc).
  f_equal. now apply filter_ext.
Qed.

(** The query [minLength=4&maxLength=6]. *)
Lemma decimal_parameters_filter_exactly_witness :
  get_strings (@store_357 asciiHost) query_4_6
  = listing (filter (selects query_4_6 (Some 4%Z) (Some 6%Z) None)
               (Map_values (@store_357 asciiHost))).
Proof.
  apply (decimal_parameters_filter_exactly (@store_357 asciiHost) query_4_6
           (Some 4%Z) (Some 6%Z) None).
  - vm_compute. repeat split; reflexivity.
  - vm_compute. repeat split; reflexivity.
  - exact I.
  - reflexivity.
  - reflexivity.
Defined.

Lemma filter_false {A : Type} (p : A -> bool) (l : list A) :
  (forall x, In x l -> p x = false) -> filter p l = [].
Proof.
  induction l as [|x l IH]; simpl; [reflexivity|].
  intros H. rewrite (H x (or_introl eq_refl)). apply IH. intros y Hy.
  apply H. now right.
Qed.

(** An empty range is no error.  When [minLength] and [maxLength] are
    written in decimal digits and [minLength] is the larger, the request is
    not refused for it: unless another parameter is refused, the answer is
    200 with [count] 0 and no record, whatever the store. *)
Theorem contradictory_range_is_empty (st : store) (query : alist qvalue)
    (lo hi : Z) :
  reads (Map_get query (js "minLength")) (Some lo) ->
  reads (Map_get query (js "maxLength")) (Some hi) ->
  (hi < lo)%Z ->
  (first_rejected query = None ->
     get_strings st query = {| status := 200; body := ListBody 0 [] |})
  /\ (status (get_strings st query) = 200%nat ->
        body (get_strings st query) = ListBody 0 [])
  /\ (forall f, first_rejected query = Some f ->
        f <> FMinLength /\ f <> FMaxLength).
Proof.
  intros Hlo Hhi Hlt.
  assert (E : forall r, at_least (Some lo) (Analysis.length r)
                        && at_most (Some hi) (Analysis.length r) = false).
  { intros r. unfold at_least, at_most. apply andb_false_iff.
    destruct (Z.leb_spec lo (Z.of_nat (Analysis.length r))); [right | now left].
    apply Z.leb_gt. lia. }
  assert (Hpass : filter (passes query) (Map_values st) = []).
  { apply filter_false. intros r _. unfold passes.
    rewrite (proj1 (reads_holds _ _ r Hlo)).
    rewrite (proj1 (proj2 (reads_holds _ _ r Hhi))).
    rewrite <- !andb_assoc. rewrite (andb_assoc (at_least _ _)), E.
    now rewrite andb_false_r. }
  assert (He : filter (satisfies query) (Map_values st) = []).
  { apply filter_false. intros r _. unfold satisfies.
    rewrite (proj1 (reads_holds _ _ r Hlo)).
    rewrite (proj1 (proj2 (reads_holds _ _ r Hhi))).
    rewrite <- !andb_assoc. rewrite (andb_assoc (at_least _ _)), E.
    now rewrite andb_false_r. }
  assert (Hbad : bad_contains st query = false).
  { unfold bad_contains. rewrite Hpass. apply andb_false_r. }
  split; [|split].
  - intros Hf. now rewrite get_strings_spec, Hf, Hbad, He.
  - rewrite get_strings_spec.
    destruct (first_rejected query); [discriminate|]. now rewrite Hbad, He.
  - intros f Hf. apply find_some in Hf as [_ Hr].
    split; intros ->; unfold rejected, field_value in Hr; cbn [numeric] in Hr.
    + change (js (field_name FMinLength)) with (js "minLength") in Hr.
      rewrite (reads_accepted _ _ Hlo) in Hr. discriminate.
    + change (js (field_name FMaxLength)) with (js "maxLength") in Hr.
      rewrite (reads_accepted _ _ Hhi) in Hr. discriminate.
Qed.

(** The query [minLength=6&maxLength=4] on the store of lengths 3, 5 and 7. *)
Lemma contradictory_range_is_empty_witness :
  get_strings (@store_357 asciiHost)
    [(js "minLength", QString (js "6")); (js "maxLength", QString (js "4"))]
  = {| status := 200; body := ListBody 0 [] |}.
Proof.
  refine (proj1 (contradictory_range_is_empty (@store_357 asciiHost)
                   [(js "minLength", QString (js "6"));
                    (js "maxLength", QString (js "4"))] 6 4 _ _ _) _).
  - vm_compute. repeat split; reflexivity.
  - vm_compute. repeat split; reflexivity.
  - reflexivity.
  - reflexivity.
Defined.

Lemma trim_blank (s : jsstring) : forallb isWhiteSpace s = true -> trim s = [].
Proof.
  intros H. unfold trim. now rewrite (proj2 (trimStart_nil s) H).
Qed.

Lemma reads_blank (x : qvalue) (text : jsstring) :
  ToString x = Some text -> forallb isWhiteSpace text = true ->
  reads (Some x) (Some 0%Z).
Proof.
  intros Hx H. unfold reads. rewrite Hx, (trim_blank _ H). repeat split.
Qed.

Ltac js_keys :=
  repeat match goal with
         | |- context [jseqb (js ?a) (js ?b)] =>
             let v := eval vm_compute in (jseqb (js a) (js b)) in
             match v with
             | true => change (jseqb (js a) (js b)) with true
             | false => change (jseqb (js a) (js b)) with false
             end
         end.

(** A blank numeric parameter is 0.  A numeric parameter that is present
    but empty, or all white space, is not refused: it is read as 0, so
    [minLength] then keeps every record, [maxLength] only records of length
    0 and [wordCount] only records without a word. *)
Theorem blank_numeric_parameter_is_zero (st : store) (x : qvalue)
    (text : jsstring) :
  ToString x = Some text -> forallb isWhiteSpace text = true ->
  Number x = Some (Finite 0)
  /\ get_strings st [(js "minLength", x)] = listing (Map_values st)
  /\ get_strings st [(js "maxLength", x)]
     = listing (filter (fun r => (Analysis.length r =? 0)%nat) (Map_values st))
  /\ get_strings st [(js "wordCount", x)]
     = listing (filter (fun r => (Analysis.wordCount r =? 0)%nat) (Map_values st)).
Proof.
  intros Hx Hb. pose proof (reads_blank x text Hx Hb) as Hr.
  split; [|split; [|split]].
  - unfold Number, StringToNumber. now rewrite Hx, (trim_blank _ Hb).
  - destruct (reads_selects [(js "minLength", x)] (Some 0%Z) None None)
      as [Hf Hs]; try exact I; try exact Hr; try reflexivity.
    rewrite get_strings_spec, Hf, bad_contains_convertible by reflexivity.
    f_equal. rewrite (filter_ext _ _ Hs).
    rewrite <- (filter_true (Map_values st)) at 2.
    apply filter_ext. intros r. unfold selects. cbn. js_keys. cbn.
    destruct (Z.leb_spec 0 (Z.of_nat (Analysis.length r))); [reflexivity | lia].
  - destruct (reads_selects [(js "maxLength", x)] None (Some 0%Z) None)
      as [Hf Hs]; try exact I; try exact Hr; try reflexivity.
    rewrite get_strings_spec, Hf, bad_contains_convertible by reflexivity.
    f_equal. rewrite (filter_ext _ _ Hs).
    apply filter_ext. intros r. unfold selects. cbn. js_keys. cbn.
    rewrite ?andb_true_r. apply eq_true_iff_eq.
    rewrite Z.leb_le, Nat.eqb_eq. lia.
  - destruct (reads_selects [(js "wordCount", x)] None None (Some 0%Z))
      as [Hf Hs]; try exact I; try exact Hr; try reflexivity.
    rewrite get_strings_spec, Hf, bad_contains_convertible by reflexivity.
    f_equal. rewrite (filter_ext _ _ Hs).
    apply filter_ext. intros r. unfold selects. cbn. js_keys. cbn.
    rewrite ?andb_true_r. apply eq_true_iff_eq.
    rewrite Z.eqb_eq, Nat.eqb_eq. lia.
Qed.

(** The parameter [minLength=] on the store of lengths 3, 5 and 7. *)
Lemma blank_numeric_parameter_is_zero_witness :
  get_strings (@store_357 asciiHost) [(js "minLength", QString [])]
  = listing (Map_values (@store_357 asciiHost)).
Proof.
  exact (proj1 (proj2 (blank_numeric_parameter_is_zero (@store_357 asciiHost)
                         (QString []) [] eq_refl eq_refl))).
Defined.

(** ** Parameters given more than once *)

Lemma In_trimStart (c : code_unit) (s : jsstring) :
  In c s -> isWhiteSpace c = false -> In c (trimStart s).
Proof.
  induction s as [|a s IH]; simpl; [tauto|].
  intros [->|H] Hc.
  - rewrite Hc. now left.
  - destruct (isWhiteSpace a); [now apply IH | now right].
Qed.

Lemma In_trim (c : code_unit) (s : jsstring) :
  In c s -> isWhiteSpace c = false -> In c (trim s).
Proof.
  intros H Hc. unfold trim, trimEnd. apply in_rev. rewrite rev_involutive.
  apply In_trimStart; [|exact Hc]. apply -> in_rev.
  now apply In_trimStart.
Qed.

Lemma forallb_false_In {A : Type} (p : A -> bool) (x : A) (l : list A) :
  In x l -> p x = false -> forallb p l = false.
Proof.
  intros Hin Hp. destruct (forallb p l) eqn:E; [|reflexivity].
  rewrite forallb_forall in E. rewrite (E x Hin) in Hp. discriminate.
Qed.

Lemma takeSign_comma (s : jsstring) : In 44 s -> In 44 (snd (takeSign s)).
Proof.
  destruct s as [|c r]; simpl; [tauto|].
  destruct (c =? 45) eqn:E1; [|destruct (c =? 43) eqn:E2]; simpl; try tauto.
  - apply N.eqb_eq in E1. intros [H|H]; [lia | exact H].
  - apply N.eqb_eq in E2. intros [H|H]; [lia | exact H].
Qed.

Lemma span_digits_comma (s a b : jsstring) :
  span isDigit s = (a, b) -> In 44 s -> In 44 b.
Proof.
  intros E Hin. apply span_spec in E as [-> [Ha _]].
  apply in_app_or in Hin as [H|H]; [|exact H].
  rewrite forallb_forall in Ha. specialize (Ha 44 H). discriminate.
Qed.

Lemma parseExponent_comma (s : jsstring) : In 44 s -> parseExponent s = None.
Proof.
  destruct s as [|c r]; simpl; [tauto|].
  destruct ((c =? 101) || (c =? 69)) eqn:E; [|reflexivity].
  intros [H|H].
  - subst c. discriminate.
  - apply takeSign_comma in H. destruct (takeSign r) as [neg r']. simpl in H.
    destruct (span isDigit r') as [ds rest] eqn:Es.
    apply (span_digits_comma _ _ _ Es) in H.
    destruct rest; [contradiction|]. simpl. now rewrite andb_false_r.
Qed.

Lemma parseUnsignedDecimal_comma (s : jsstring) :
  In 44 s -> parseUnsignedDecimal s = None.
Proof.
  intros Hin. unfold parseUnsignedDecimal.
  destruct (span isDigit s) as [ip r1] eqn:E1.
  apply (span_digits_comma _ _ _ E1) in Hin.
  destruct r1 as [|c r]; [contradiction|].
  destruct (c =? 46) eqn:Ec.
  - apply N.eqb_eq in Ec. destruct Hin as [H|H]; [lia|].
    destruct (span isDigit r) as [fp r2] eqn:E2.
    apply (span_digits_comma _ _ _ E2) in H.
    rewrite (parseExponent_comma r2 H). now destruct (isNil ip && isNil fp).
  - rewrite (parseExponent_comma (c :: r) Hin).
    now destruct (isNil ip && isNil []).
Qed.

Lemma parseNonDecimal_comma (s : jsstring) : In 44 s -> parseNonDecimal s = None.
Proof.
  destruct s as [|zero [|c ds]]; try reflexivity.
  intros Hin. unfold parseNonDecimal.
  destruct (negb (zero =? 48)) eqn:Ez; [reflexivity|].
  apply negb_false_iff, N.eqb_eq in Ez.
  assert (Hc : c = 44 \/ In 44 ds).
  { destruct Hin as [H|[H|H]]; [lia | now left | now right]. }
  destruct Hc as [->|Hds]; [reflexivity|].
  assert (H1 : forallb isHexDigit ds = false)
    by now apply (forallb_false_In _ 44).
  assert (H2 : forallb isOctalDigit ds = false)
    by now apply (forallb_false_In _ 44).
  assert (H3 : forallb isBinaryDigit ds = false)
    by now apply (forallb_false_In _ 44).
  rewrite H1, H2, H3, andb_false_r.
  now destruct ((c =? 120) || (c =? 88)), ((c =? 111) || (c =? 79)),
    ((c =? 98) || (c =? 66)).
Qed.

(** A string with a comma in it is no finite Number. *)
Lemma comma_not_finite (s : jsstring) :
  In 44 s -> isFinite (StringToNumber s) = false.
Proof.
  intros Hin. apply In_trim in Hin; [|reflexivity].
  unfold StringToNumber. destruct (trim s) as [|c t]; [contradiction|].
  rewrite (parseNonDecimal_comma _ Hin). unfold parseDecimal.
  apply takeSign_comma in Hin.
  destruct (takeSign (c :: t)) as [neg u]. cbn [snd] in Hin.
  destruct (jseqb u (js "Infinity")); [reflexivity|].
  now rewrite (parseUnsignedDecimal_comma u Hin).
Qed.

Lemma joinWith_comma (x y : jsstring) (l : list jsstring) :
  In 44 (joinWith (js ",") (x :: y :: l)).
Proof.
  cbn [joinWith]. apply in_or_app. right. apply in_or_app. left.
  now left.
Qed.

Lemma repeated_not_finite (v : qvalue) :
  repeated_or_nested v = true ->
  finite_number v = false
  /\ forall lit, strictEq v lit = false.
Proof.
  destruct v as [s|items|props]; cbn [repeated_or_nested strictEq];
    [discriminate| |].
  - intros H. split; [|reflexivity]. unfold finite_number, Number.
    cbn [ToString].
    destruct (all_of (map ToString items)) as [strings|] eqn:E; [|reflexivity].
    destruct items as [|a [|b items]]; try discriminate.
    cbn [map all_of] in E.
    destruct (ToString a) as [sa|]; [|discriminate].
    destruct (ToString b) as [sb|]; [|discriminate].
    destruct (all_of (map ToString items)) as [rest|]; [|discriminate].
    injection E as <-. apply comma_not_finite, joinWith_comma.
  - intros _. split; [|reflexivity]. unfold finite_number, Number.
    cbn [ToString]. destruct (Map_has props (js "toString")); [reflexivity|].
    vm_compute. reflexivity.
Qed.

(** A parameter given twice is refused.  When one of the four checked
    parameters occurs more than once in the query (an array of two values
    or more) or with a key in brackets (an object), its value is refused,
    whatever the values are, and the request is answered 400 with an error
    body. *)
Theorem repeated_parameter_is_refused (st : store) (query : alist qvalue)
    (f : field) (v : qvalue) :
  field_value query f = Some v ->
  repeated_or_nested v = true ->
  rejected query f = true
  /\ status (get_strings st query) = 400%nat
  /\ isErrorBody (get_strings st query) = true.
Proof.
  intros Hv Hr. destruct (repeated_not_finite v Hr) as [Hn Hs].
  assert (Hrej : rejected query f = true).
  { unfold rejected. rewrite Hv. destruct (numeric f).
    - now rewrite Hn.
    - now rewrite !Hs. }
  split; [exact Hrej|].
  destruct (first_rejected_some query f Hrej) as [g [Hg _]].
  now rewrite get_strings_spec, Hg.
Qed.

(** The query [minLength=1&minLength=2]. *)
Lemma repeated_parameter_is_refused_witness :
  rejected [(js "minLength", QArray [QString (js "1"); QString (js "2")])]
    FMinLength = true
  /\ status (get_strings []
       [(js "minLength", QArray [QString (js "1"); QString (js "2")])]) = 400%nat
  /\ isErrorBody (get_strings []
       [(js "minLength", QArray [QString (js "1"); QString (js "2")])]) = true.
Proof.
  exact (repeated_parameter_is_refused []
           [(js "minLength", QArray [QString (js "1"); QString (js "2")])]
           FMinLength (QArray [QString (js "1"); QString (js "2")])
           eq_refl eq_refl).
Defined.

(** ** One parameter more *)

Lemma filter_length_le {A : Type} (p q : A -> bool) (l : list A) :
  (forall x, p x = true -> q x = true) ->
  incl (filter p l) (filter q l)
  /\ (List.length (filter p l) <= List.length (filter q l))%nat.
Proof.
  intros H. split.
  - intros x Hx. apply filter_In in Hx as [H1 H2]. apply filter_In. auto.
  - induction l as [|x l IH]; simpl; [lia|].
    destruct (p x) eqn:E; [rewrite (H x E); simpl; lia|].
    destruct (q x); simpl; lia.
Qed.

Lemma filter_split_length {A : Type} (p q : A -> bool) (l : list A) :
  (List.length (filter (fun x => p x && q x) l)
   + List.length (filter (fun x => negb (p x) && q x) l)
   = List.length (filter q l))%nat.
Proof.
  induction l as [|x l IH]; simpl; [reflexivity|].
  destruct (p x), (q x); simpl; lia.
Qed.

Section OneMore.
Variables (query : alist qvalue) (k : jsstring) (v : qvalue).
Hypothesis absent : Map_get query k = None.

Lemma get_cons (name : jsstring) :
  Map_get ((k, v) :: query) name = Map_get query name
  \/ (name = k /\ Map_get query name = None).
Proof.
  cbn [Map_get]. destruct (jseqb name k) eqn:E; [right | now left].
  apply jseqb_eq in E. subst. now split.
Qed.

Lemma rejected_cons (f : field) :
  rejected query f = true -> rejected ((k, v) :: query) f = true.
Proof.
  unfold rejected, field_value.
  destruct (get_cons (js (field_name f))) as [->|[_ ->]];
    [tauto | discriminate].
Qed.

Lemma first_rejected_cons :
  first_rejected ((k, v) :: query) = None -> first_rejected query = None.
Proof.
  intros H. unfold first_rejected in *.
  destruct (find (rejected query) checks) as [f|] eqn:E; [|reflexivity].
  apply find_some in E as [Hin Hr].
  pose proof (find_none _ _ H f Hin) as Hn.
  rewrite (rejected_cons f Hr) in Hn. discriminate.
Qed.

Lemma satisfies_cons (r : Analysis.record) :
  satisfies ((k, v) :: query) r = true -> satisfies query r = true.
Proof.
  unfold satisfies. rewrite !andb_true_iff.
  intros [[[[H1 H2] H3] H4] H5].
  repeat split.
  - now destruct (get_cons (js "isPalindrome")) as [<-|[_ ->]].
  - now destruct (get_cons (js "minLength")) as [<-|[_ ->]].
  - now destruct (get_cons (js "maxLength")) as [<-|[_ ->]].
  - now destruct (get_cons (js "wordCount")) as [<-|[_ ->]].
  - now destruct (get_cons (js "contains")) as [<-|[_ ->]].
Qed.
End OneMore.

(** One parameter more narrows the answer.  Adding a parameter to a query
    that does not have it never adds a record: when both queries are
    answered 200, every record listed for the larger is listed for the
    smaller, and [count] does not grow; when the larger is answered 200 and
    the value of [contains] in the smaller, if there is one, converts to a
    string, the smaller is answered 200 too.  A parameter that is none of
    the five the operation reads changes nothing at all. *)
Theorem one_parameter_more_narrows (st : store) (query : alist qvalue)
    (k : jsstring) (v : qvalue) :
  Map_get query k = None ->
  (status (get_strings st ((k, v) :: query)) = 200%nat ->
   status (get_strings st query) = 200%nat ->
     incl (data_of (get_strings st ((k, v) :: query)))
          (data_of (get_strings st query))
     /\ (count_of (get_strings st ((k, v) :: query))
         <= count_of (get_strings st query))%nat)
  /\ (status (get_strings st ((k, v) :: query)) = 200%nat ->
      convertible (Map_get query (js "contains")) = true ->
      status (get_strings st query) = 200%nat)
  /\ (existsb (jseqb k) parameters = false ->
      get_strings st ((k, v) :: query) = get_strings st query).
Proof.
  intros Hk. split; [|split].
  - intros H1 H2.
    destruct (get_strings_200 _ _ H1) as [_ [_ ->]].
    destruct (get_strings_200 _ _ H2) as [_ [_ ->]].
    unfold data_of, count_of, listing. cbn [body].
    apply filter_length_le. intros r. now apply satisfies_cons.
  - intros H1 Hc. destruct (get_strings_200 _ _ H1) as [Hf _].
    rewrite get_strings_spec, (first_rejected_cons query k v Hk Hf).
    now rewrite (bad_contains_convertible st query Hc).
  - unfold parameters. cbn [existsb]. rewrite !orb_false_iff.
    intros [H1 [H2 [H3 [H4 [H5 _]]]]].
    rewrite jseqb_sym in H1, H2, H3, H4, H5.
    unfold get_strings. cbn [Map_get]. now rewrite H1, H2, H3, H4, H5.
Qed.

(** The parameter [page=2] added to [minLength=4&maxLength=6]. *)
Lemma one_parameter_more_narrows_witness :
  get_strings (@store_357 asciiHost)
    ((js "page", QString (js "2")) :: query_4_6)
  = get_strings (@store_357 asciiHost) query_4_6.
Proof.
  exact (proj2 (proj2 (one_parameter_more_narrows (@store_357 asciiHost)
                         query_4_6 (js "page") (QString (js "2")) eq_refl))
           eq_refl).
Defined.

(** The two values of [isPalindrome] split an answer in two.  For a query
    without [isPalindrome] that is answered 200, the same query with
    [isPalindrome=true] and with [isPalindrome=false] is answered 200 too;
    the first lists the palindromes of the answer, the second the others,
    both in the order of the answer, and the two counts add up to its
    count. *)
Theorem isPalindrome_splits_the_answer (st : store) (query : alist qvalue) :
  Map_get query (js "isPalindrome") = None ->
  status (get_strings st query) = 200%nat ->
  let all := get_strings st query in
  let yes := get_strings st ((js "isPalindrome", QString (js "true")) :: query) in
  let no := get_strings st ((js "isPalindrome", QString (js "false")) :: query) in
  yes = listing (filter Analysis.isPalindrome (data_of all))
  /\ no = listing (filter (fun r => negb (Analysis.isPalindrome r)) (data_of all))
  /\ (count_of yes + count_of no = count_of all)%nat.
Proof.
  intros Hp H200. cbv zeta.
  destruct (get_strings_200 _ _ H200) as [Hf [Hbad Hall]].
  assert (Hpass : forall lit r,
             passes ((js "isPalindrome", QString (js lit)) :: query) r
             = Bool.eqb (Analysis.isPalindrome r)
                 (jseqb (js lit) (js "true"))
               && passes query r).
  { intros lit r. unfold passes. cbn [Map_get]. js_keys. cbv iota.
    rewrite Hp. cbn [holds_isPalindrome strictEq andb].
    now rewrite !andb_assoc. }
  assert (Hsat : forall lit r,
             satisfies ((js "isPalindrome", QString (js lit)) :: query) r
             = Bool.eqb (Analysis.isPalindrome r)
                 (jseqb (js lit) (js "true"))
               && satisfies query r).
  { intros lit r. unfold satisfies. cbn [Map_get]. js_keys. cbv iota.
    rewrite Hp. cbn [holds_isPalindrome strictEq andb].
    now rewrite !andb_assoc. }
  assert (Hrej : forall lit,
             jseqb (js lit) (js "true") || jseqb (js lit) (js "false") = true ->
             first_rejected ((js "isPalindrome", QString (js lit)) :: query)
             = None).
  { intros lit Hl. unfold first_rejected.
    destruct (find (rejected (_ :: query)) checks) as [f|] eqn:E; [|reflexivity].
    apply find_some in E as [Hin Hr].
    pose proof (find_none (rejected query) checks Hf f Hin) as Hn.
    unfold rejected, field_value in Hr, Hn.
    destruct f; cbn [field_name numeric Map_get] in Hr, Hn;
      revert Hr; js_keys; cbv iota; try (rewrite Hn; discriminate).
    cbn [strictEq]. apply orb_true_iff in Hl as [-> | ->];
      rewrite ?andb_false_r; discriminate. }
  assert (Hb : forall lit,
             bad_contains st ((js "isPalindrome", QString (js lit)) :: query)
             = false).
  { intros lit. unfold bad_contains in *. cbn [Map_get]. js_keys. cbv iota.
    destruct (convertible (Map_get query (js "contains"))); [reflexivity|].
    cbn [negb andb] in *.
    replace (filter (passes ((js "isPalindrome", QString (js lit)) :: query))
               (Map_values st))
      with (filter (fun r => Bool.eqb (Analysis.isPalindrome r)
                                (jseqb (js lit) (js "true")))
              (filter (passes query) (Map_values st)))
      by (rewrite filter_and; apply filter_ext; intros r; rewrite Hpass;
          apply andb_comm).
    destruct (filter (passes query) (Map_values st)); [|discriminate].
    reflexivity. }
  rewrite !get_strings_spec, Hf, Hbad, (Hrej "true"%string eq_refl),
    (Hrej "false"%string eq_refl), !Hb.
  unfold data_of, count_of, listing. cbn [body].
  rewrite !filter_and.
  assert (Hy : filter (satisfies ((js "isPalindrome", QString (js "true")) :: query))
                 (Map_values st)
               = filter (fun r => Analysis.isPalindrome r && satisfies query r)
                   (Map_values st)).
  { apply filter_ext. intros r. rewrite Hsat.
    change (jseqb (js "true") (js "true")) with true.
    now destruct (Analysis.isPalindrome r). }
  assert (Hn : filter (satisfies ((js "isPalindrome", QString (js "false")) :: query))
                 (Map_values st)
               = filter (fun r => negb (Analysis.isPalindrome r) && satisfies query r)
                   (Map_values st)).
  { apply filter_ext. intros r. rewrite Hsat.
    change (jseqb (js "false") (js "true")) with false.
    now destruct (Analysis.isPalindrome r). }
  rewrite Hy, Hn.
  assert (Hswap : forall p : Analysis.record -> bool,
             filter (fun x => satisfies query x && p x) (Map_values st)
             = filter (fun x => p x && satisfies query x) (Map_values st)).
  { intros p. apply filter_ext. intros r. apply andb_comm. }
  rewrite !Hswap. split; [reflexivity|]. split; [reflexivity|].
  apply filter_split_length.
Qed.

(** The query [minLength=4&maxLength=6] on the store of lengths 3, 5 and 7. *)
Lemma isPalindrome_splits_the_answer_witness :
  (count_of (get_strings (@store_357 asciiHost)
               ((js "isPalindrome", QString (js "true")) :: query_4_6))
   + count_of (get_strings (@store_357 asciiHost)
                 ((js "isPalindrome", QString (js "false")) :: query_4_6))
   = count_of (get_strings (@store_357 asciiHost) query_4_6))%nat.
Proof.
  exact (proj2 (proj2 (isPalindrome_splits_the_answer (@store_357 asciiHost)
                         query_4_6 eq_refl eq_refl))).
Defined.

(** ** A record deleted *)

Section Deleted.
Context {host : Host}.
Local Open Scope nat_scope.

Lemma Map_values_delete (st : store) (value : jsstring) :
  store_ok st ->
  Map_values (Map_delete st value)
  = filter (fun r => negb (jseqb value (Analysis.string r))) (Map_values st).
Proof.
  intros [_ Hrec]. unfold Map_values, Map_delete.
  induction st as [|[k r] st IH]; [reflexivity|].
  assert (Hk : Analysis.string r = k).
  { now rewrite (Hrec k r (or_introl eq_refl)). }
  assert (Hst : forall k' r', In (k', r') st -> r' = analyse k').
  { intros k' r' H. apply Hrec. now right. }
  cbn [filter map fst snd]. rewrite Hk.
  destruct (jseqb value k); cbn [negb map snd]; [|f_equal]; now apply IH.
Qed.

Lemma filter_comm {A : Type} (p q : A -> bool) (l : list A) :
  filter p (filter q l) = filter q (filter p l).
Proof.
  rewrite !filter_and. apply filter_ext. intros x. apply andb_comm.
Qed.

(** A deleted record leaves every listing.  In a store that the
    application built, the Delete handler answers 204 for a stored string;
    after it every list/filter query that was answered 200 is answered 200
    and lists what it listed before without the record of that string, in
    the same order, and a query a parameter of which is refused is answered
    as before; the store holds one record less; and the handler answers a
    second Delete of the string 404. *)
Theorem delete_in_listings (st : store) (value : jsstring)
    (query : alist qvalue) :
  store_ok st -> Map_has st value = true ->
  let after := fst (delete_string st value) in
  status (snd (delete_string st value)) = 204
  /\ (status (get_strings st query) = 200 ->
      status (get_strings after query) = 200
      /\ data_of (get_strings after query)
         = filter (fun r => negb (jseqb value (Analysis.string r)))
             (data_of (get_strings st query)))
  /\ (first_rejected query <> None ->
      get_strings after query = get_strings st query)
  /\ S (List.length (Map_values after)) = List.length (Map_values st)
  /\ snd (delete_string after value) = sendError 404 "String not found".
Proof.
  intros Hok Hhas. cbv zeta.
  assert (Hd : delete_string st value
               = (Map_delete st value, {| status := 204; body := NoBody |})).
  { unfold delete_string. now rewrite Hhas. }
  rewrite Hd. cbn [fst snd status].
  split; [reflexivity|]. split; [|split; [|split]].
  - intros H200. destruct (get_strings_200 _ _ H200) as [Hf [Hbad Hall]].
    assert (Hbad' : bad_contains (Map_delete st value) query = false).
    { unfold bad_contains in *.
      destruct (convertible (Map_get query (js "contains"))); [reflexivity|].
      cbn [negb andb] in *. rewrite (Map_values_delete st value Hok).
      rewrite filter_comm.
      now destruct (filter (passes query) (Map_values st)). }
    rewrite Hall, get_strings_spec, Hf, Hbad'. split; [reflexivity|].
    unfold data_of, listing. cbn [body].
    rewrite (Map_values_delete st value Hok). apply filter_comm.
  - intros Hf. rewrite !get_strings_spec.
    now destruct (first_rejected query).
  - unfold Map_values. rewrite !length_map.
    apply Map_delete_length; [apply Hok | exact Hhas].
  - unfold delete_string. now rewrite Map_has_delete_same.
Qed.
End Deleted.

(** "abcde" deleted from the store of lengths 3, 5 and 7. *)
Lemma delete_in_listings_witness :
  status (snd (delete_string (@store_357 asciiHost) (js "abcde"))) = 204%nat.
Proof.
  refine (proj1 (@delete_in_listings asciiHost (@store_357 asciiHost)
                   (js "abcde") query_4_6 _ _)).
  - split.
    + vm_compute. repeat constructor; intros H;
        repeat (destruct H as [H|H]; [discriminate H|]); exact H.
    + intros k r H. vm_compute in H.
      repeat (destruct H as [H|H]; [injection H as <- <-; vm_compute; reflexivity|]).
      contradiction.
  - vm_compute. reflexivity.
Defined.

(** ** The palindrome test under reversal, case and punctuation *)

Lemma projection_rev (s : jsstring) : projection (rev s) = rev (projection s).
Proof. unfold projection. now rewrite filter_rev, map_rev. Qed.

Lemma projection_app (a b : jsstring) :
  projection (a ++ b) = projection a ++ projection b.
Proof. unfold projection. now rewrite filter_app, map_app. Qed.

Lemma asciiUpper_alnum (c : code_unit) :
  isAlnum (asciiUpper c) = isAlnum c
  /\ asciiLower (asciiUpper c) = asciiLower c.
Proof.
  unfold isAlnum, asciiUpper, asciiLower, isDigit, isUpper, isLower.
  destruct (N.leb_spec 97 c), (N.leb_spec c 122); cbn [andb];
    repeat match goal with
           | |- context [(?a <=? ?b)] => destruct (N.leb_spec a b)
           end; cbn [andb orb]; split; try reflexivity; lia.
Qed.

Lemma asciiLower_alnum (c : code_unit) :
  isAlnum (asciiLower c) = isAlnum c
  /\ asciiLower (asciiLower c) = asciiLower c.
Proof.
  unfold isAlnum, asciiLower, isDigit, isUpper, isLower.
  destruct (N.leb_spec 65 c), (N.leb_spec c 90); cbn [andb];
    repeat match goal with
           | |- context [(?a <=? ?b)] => destruct (N.leb_spec a b)
           end; cbn [andb orb]; split; try reflexivity; lia.
Qed.

Lemma projection_map (f : code_unit -> code_unit) (s : jsstring) :
  (forall c, isAlnum (f c) = isAlnum c /\ asciiLower (f c) = asciiLower c) ->
  projection (map f s) = projection s.
Proof.
  intros Hf. unfold projection. induction s as [|c s IH]; [reflexivity|].
  cbn [map filter]. destruct (Hf c) as [-> H2].
  destruct (isAlnum c); cbn [map]; now rewrite IH, ?H2.
Qed.

Section PalindromeLaws.
Context {host : Host}.

Hypothesis toLowerCase_ascii :
  forall s, forallb isAscii s = true -> toLowerCase s = map asciiLower s.

(** The palindrome test does not see direction, case or punctuation.  With
    lower-casing that agrees with ASCII on ASCII strings, [isPalindrome] is
    the same for a string and its reversal, for a string and its upper-case
    or lower-case form, and for a string with or without a character outside
    [0-9a-zA-Z] anywhere in it; and a string with such a letter or digit,
    followed by its own reversal, is a palindrome. *)
Theorem isPalindrome_invariances (s : jsstring) :
  Analysis.isPalindrome (analyse (rev s)) = Analysis.isPalindrome (analyse s)
  /\ Analysis.isPalindrome (analyse (map asciiUpper s))
     = Analysis.isPalindrome (analyse s)
  /\ Analysis.isPalindrome (analyse (map asciiLower s))
     = Analysis.isPalindrome (analyse s)
  /\ (forall a b c, s = a ++ b -> isAlnum c = false ->
        Analysis.isPalindrome (analyse (a ++ c :: b))
        = Analysis.isPalindrome (analyse s))
  /\ (existsb isAlnum s = true ->
        Analysis.isPalindrome (analyse (s ++ rev s)) = true).
Proof.
  rewrite !(isPalindrome_projection toLowerCase_ascii).
  split; [|split; [|split; [|split]]].
  - rewrite projection_rev, rev_involutive.
    rewrite (jseqb_sym (rev (projection s))). f_equal. f_equal.
    destruct (projection s) as [|c p]; [reflexivity|].
    cbn [rev isNil]. now destruct (rev p).
  - now rewrite (projection_map asciiUpper s asciiUpper_alnum).
  - now rewrite (projection_map asciiLower s asciiLower_alnum).
  - intros a b c -> Hc.
    rewrite !(isPalindrome_projection toLowerCase_ascii).
    rewrite !projection_app.
    change (projection (c :: b))
      with (map asciiLower (if isAlnum c then c :: filter isAlnum b
                            else filter isAlnum b)).
    now rewrite Hc.
  - intros He. rewrite projection_app, projection_rev, rev_app_distr, rev_involutive.
    rewrite jseqb_refl, andb_true_r.
    apply existsb_exists in He as [c [Hin Hc]].
    assert (Hp : In (asciiLower c) (projection s)).
    { unfold projection. apply in_map. apply filter_In. now split. }
    destruct (projection s); [contradiction | reflexivity].
Qed.
End PalindromeLaws.

(** "Never odd" at the ASCII host. *)
Lemma isPalindrome_invariances_witness :
  Analysis.isPalindrome (@analyse asciiHost (js "Never odd" ++ rev (js "Never odd")))
  = true.
Proof.
  exact (proj2 (proj2 (proj2 (proj2
           (@isPalindrome_invariances asciiHost (fun s _ => eq_refl)
              (js "Never odd"))))) eq_refl).
Defined.

(** ** Word counts of joined strings *)

Lemma tokens_from_ws (cur a b : jsstring) (c : code_unit) :
  isWhiteSpace c = true ->
  tokens_from cur (a ++ c :: b) = tokens_from cur a ++ tokens_from [] b.
Proof.
  intros Hc. revert cur. induction a as [|x a IH]; intros cur; simpl.
  - rewrite Hc. now destruct (isNil cur).
  - destruct (isWhiteSpace x); [destruct (isNil cur)|]; simpl; now rewrite IH.
Qed.

Lemma tokens_from_bound (cur s : jsstring) :
  (2 * List.length (tokens_from cur s)
   <= List.length s + (if isNil cur then 1 else 2))%nat.
Proof.
  revert cur. induction s as [|c s IH]; intros cur; simpl.
  - destruct (isNil cur); simpl; lia.
  - destruct (isWhiteSpace c).
    + pose proof (IH []) as H. simpl in H. destruct (isNil cur); simpl; lia.
    + pose proof (IH (c :: cur)) as H. simpl in H. destruct (isNil cur); lia.
Qed.

Lemma tokens_from_started (cur cur' s : jsstring) :
  cur <> [] -> cur' <> [] ->
  List.length (tokens_from cur s) = List.length (tokens_from cur' s).
Proof.
  revert cur cur'. induction s as [|c s IH]; intros cur cur' H H'; simpl.
  - destruct cur, cur'; try contradiction; reflexivity.
  - destruct (isWhiteSpace c).
    + destruct cur, cur'; try contradiction; reflexivity.
    + apply IH; discriminate.
Qed.

Lemma tokens_from_cur (cur s : jsstring) :
  cur <> [] ->
  (List.length (tokens_from [] s) <= List.length (tokens_from cur s)
   <= S (List.length (tokens_from [] s)))%nat.
Proof.
  intros Hcur. destruct s as [|c s]; simpl.
  - destruct cur; [contradiction | simpl; lia].
  - destruct (isWhiteSpace c).
    + destruct cur; [contradiction | simpl; lia].
    + rewrite (tokens_from_started (c :: cur) [c] s) by discriminate. lia.
Qed.

Lemma tokens_from_join (a b cur : jsstring) :
  (List.length (tokens_from cur (a ++ b))
   <= List.length (tokens_from cur a) + List.length (tokens_from [] b)
   <= S (List.length (tokens_from cur (a ++ b))))%nat.
Proof.
  revert cur. induction a as [|x a IH]; intros cur.
  - cbn [app]. destruct cur as [|c cur].
    + simpl. lia.
    + pose proof (tokens_from_cur (c :: cur) b ltac:(discriminate)) as H.
      simpl. lia.
  - cbn [app tokens_from]. destruct (isWhiteSpace x).
    + pose proof (IH []) as H. destruct (isNil cur); simpl; lia.
    + apply IH.
Qed.

Section WordLaws.
Context {host : Host}.

(** Word counts of joined strings.  Two strings joined by a white-space
    character have the words of both; joined directly they have the words
    of both or one word less, the last word of the first running into the
    first word of the second; and a string of [n] words is at least
    [2 n - 1] code units long. *)
Theorem wordCount_of_joined (a b : jsstring) :
  (forall c, isWhiteSpace c = true ->
     Analysis.wordCount (analyse (a ++ c :: b))
     = Analysis.wordCount (analyse a) + Analysis.wordCount (analyse b))%nat
  /\ (Analysis.wordCount (analyse (a ++ b))
      <= Analysis.wordCount (analyse a) + Analysis.wordCount (analyse b))%nat
  /\ (Analysis.wordCount (analyse a) + Analysis.wordCount (analyse b)
      <= S (Analysis.wordCount (analyse (a ++ b))))%nat
  /\ (2 * Analysis.wordCount (analyse a) <= S (Analysis.length (analyse a)))%nat.
Proof.
  assert (H : forall t, Analysis.wordCount (analyse t) = List.length (tokens t)).
  { intros t. unfold analyse. cbn [Analysis.wordCount].
    now rewrite words_are_tokens. }
  rewrite !H. unfold tokens.
  split; [|split; [|split]].
  - intros c Hc. rewrite H. unfold tokens.
    now rewrite (tokens_from_ws [] a b c Hc), length_app.
  - apply (tokens_from_join a b []).
  - apply (tokens_from_join a b []).
  - unfold analyse. cbn [Analysis.length].
    pose proof (tokens_from_bound [] a) as Hb.
    simpl in Hb. lia.
Qed.
End WordLaws.

(** ** The [contains] parameter *)

Lemma includes_spec (s t : jsstring) :
  includes s t = true <-> exists a b, s = a ++ t ++ b.
Proof.
  split.
  - induction s as [|c s IH]; cbn [includes]; intros H.
    + rewrite orb_false_r in H. apply startsWith_spec in H.
      exists [], (skipn (List.length t) []). exact H.
    + apply orb_true_iff in H as [H|H].
      * apply startsWith_spec in H.
        exists [], (skipn (List.length t) (c :: s)). exact H.
      * destruct (IH H) as [a [b ->]]. now exists (c :: a), b.
  - intros [a [b ->]]. induction a as [|c a IH].
    + cbn [app]. destruct (t ++ b) eqn:E; cbn [includes]; rewrite <- ?E;
        now rewrite (proj1 (startsWith_app t b)).
    + cbn [app includes]. now rewrite IH, orb_true_r.
Qed.

(** What [contains] keeps.  A list/filter request with only [contains],
    when the value converts to a string, lists in the order of the store
    the records whose string has that text as a run of consecutive code
    units, compared exactly, case included; so the empty text keeps every
    record, and a parameter given twice looks for the two values joined by
    a comma.  When the value does not convert (an object that owns a
    [toString] key), the answer is the 400 "Bad query" of the [catch] as soon
    as a record is stored, and the empty listing when none is. *)
Theorem contains_keeps_substrings (st : store) (v : qvalue) :
  (forall text, ToString v = Some text ->
     get_strings st [(js "contains", v)]
       = listing (filter (fun r => includes (Analysis.string r) text)
                    (Map_values st))
     /\ (forall r, In r (data_of (get_strings st [(js "contains", v)]))
           <-> In r (Map_values st)
               /\ exists a b, Analysis.string r = a ++ text ++ b)
     /\ (text = [] ->
         get_strings st [(js "contains", v)] = listing (Map_values st)))
  /\ (ToString v = None ->
      get_strings st [(js "contains", v)]
      = match Map_values st with
        | [] => listing []
        | _ :: _ => sendError 400 "Bad query"
        end)
  /\ (forall x y, ToString (QArray [QString x; QString y])
                  = Some (x ++ js "," ++ y))
  /\ (forall props, Map_has props (js "toString") = true ->
        ToString (QObject props) = None).
Proof.
  assert (Hg : get_strings st [(js "contains", v)]
               = try_catch (results <~ by_contains (Some v) (Map_values st) ;;
                            Next (listing results))
                   (fun _ => sendError 400 "Bad query")).
  { unfold get_strings. cbn [Map_get]. js_keys. cbv iota.
    cbn [by_isPalindrome by_minLength by_maxLength by_wordCount attempt_bind].
    reflexivity. }
  split; [|split; [|split]].
  - intros text Ht.
    assert (H : get_strings st [(js "contains", v)]
                = listing (filter (fun r => includes (Analysis.string r) text)
                             (Map_values st))).
    { rewrite Hg. unfold by_contains. rewrite Ht.
      now destruct (Map_values st). }
    split; [exact H|]. split.
    + intros r. rewrite H. unfold data_of, listing. cbn [body].
      rewrite filter_In. now rewrite includes_spec.
    + intros ->. rewrite H. f_equal.
      rewrite <- (filter_true (Map_values st)) at 2. apply filter_ext.
      intros r. now destruct (Analysis.string r).
  - intros Hn. rewrite Hg. unfold by_contains. rewrite Hn.
    now destruct (Map_values st).
  - reflexivity.
  - intros props Hp. cbn [ToString]. now rewrite Hp.
Qed.

(** ** Created and deleted *)

Section Balance.
Context {host : Host}.
Local Open Scope nat_scope.



End Balance.


(** ** The application behind its middleware *)

Lemma decode_plain (s : jsstring) :
  forallb (fun c => negb (c =? 37)) s = true -> decodeURIComponent s = Some s.
Proof.
  unfold decodeURIComponent. induction s as [|c s IH]; [reflexivity|].
  cbn [forallb decode]. intros H. apply andb_true_iff in H as [Hc Hs].
  apply negb_true_iff in Hc. rewrite Hc, (IH Hs). reflexivity.
Qed.

Lemma lit_eqb_nil (lit : jsstring) : lit <> [] -> lit_eqb lit [] = false.
Proof. destruct lit; [contradiction | reflexivity]. Qed.

Section Middleware.
Context {host : Host}.
Local Open Scope nat_scope.

Ltac by_verb req :=
  destruct (http_verb req) as [[| |]| | |]; try contradiction; try reflexivity.

Lemma app_dispatch (st : store) (req : http_request) (body : json) :
  http_verb req <> OPTIONS -> http_body req = Parsed body ->
  Express.app st req = dispatch st req body.
Proof.
  intros Hv Hb. unfold Express.app, application, dispatch, sent. rewrite Hb.
  unfold server_routes. cbn [findLayer route_method route_path].
  destruct (http_path req) as [|x [|raw [|extra rest]]]; cbn [matchLayer].
  - by_verb req.
  - destruct (lit_eqb (js "strings") x); cbn [andb negb];
      destruct (http_verb req) as [[| |]| | |]; try contradiction;
      cbn [handles method_eqb andb negb route_handler]; unfold h_create, h_list;
      try reflexivity.
    now destruct (post_strings st (handled req body)).
  - destruct (lit_eqb (js "strings") x); cbn [andb]; [|by_verb req].
    destruct raw as [|c raw]; cbn [isNil negb].
    + rewrite (lit_eqb_nil (js "query")) by discriminate. by_verb req.
    + destruct (decodeURIComponent (c :: raw)) as [value|];
        destruct (lit_eqb (js "query") (c :: raw));
        destruct (http_verb req) as [[| |]| | |]; try contradiction;
        cbn [handles method_eqb andb negb route_handler param_value hd];
        unfold h_get, h_delete; cbn [param_value hd]; try reflexivity;
        now destruct (delete_string st value).
  - destruct (lit_eqb (js "strings") x); [|by_verb req].
    destruct (isNil raw), (lit_eqb (js "query") raw); by_verb req.
Qed.

(** The application of [part_000] is that of [server.js] below [/api/v1]. *)
Lemma app_v1_mounted (st : store) (req : http_request) :
  Express.app_v1 st req
  = if below_api_v1 (http_path req)
    then Express.app st (with_path (skipn 2 (http_path req)) req)
    else application [] st req.
Proof.
  unfold Express.app_v1, Express.app, application, below_api_v1, sent, fresh.
  cbn [http_verb http_body http_path http_fresh with_path].
  destruct (http_body req) as [code|body].
  { destruct (http_path req) as [|a [|b rest]];
      [| |destruct (lit_eqb (js "api") a && lit_eqb (js "v1") b)];
      now destruct (http_verb req) as [[| |]| | |]. }
  unfold api_v1_routes, server_routes, api_v1.
  cbn [findLayer route_method route_path].
  destruct (http_path req) as [|a [|b [|x [|raw [|extra rest]]]]];
    cbn [matchLayer skipn];
    try (destruct (lit_eqb (js "api") a)); cbn [andb];
    try (destruct (lit_eqb (js "v1") b)); cbn [andb];
    try (now destruct (http_verb req) as [[| |]| | |]).
  - destruct (lit_eqb (js "strings") x);
      destruct (http_verb req) as [[| |]| | |];
      cbn [handles method_eqb andb negb route_handler]; unfold h_create_v1, h_create, h_list;
      try reflexivity.
    rewrite post_strings_v1_same. unfold post_strings. reflexivity.
  - destruct (lit_eqb (js "strings") x);
      [|now destruct (http_verb req) as [[| |]| | |]].
    destruct raw as [|c raw]; cbn [isNil negb].
    + rewrite (lit_eqb_nil (js "query")), (lit_eqb_nil (js "filter-by-natural-language"))
        by discriminate.
      now destruct (http_verb req) as [[| |]| | |].
    + destruct (decodeURIComponent (c :: raw)) as [value|];
        destruct (lit_eqb (js "query") (c :: raw));
        destruct (lit_eqb (js "filter-by-natural-language") (c :: raw));
        destruct (http_verb req) as [[| |]| | |];
        cbn [handles method_eqb andb negb route_handler param_value hd];
        unfold h_get, h_delete; cbn [param_value hd]; reflexivity.
  - destruct (lit_eqb (js "strings") x);
      [|now destruct (http_verb req) as [[| |]| | |]].
    destruct (isNil raw), (lit_eqb (js "query") raw),
      (lit_eqb (js "filter-by-natural-language") raw);
      now destruct (http_verb req) as [[| |]| | |].
Qed.

Lemma sent_status (req : http_request) (res : response) :
  status (sent req res) = status res
  \/ (status (sent req res) = 304 /\ status res = 200
      /\ (http_verb req = Verb GET \/ http_verb req = HEAD))
  \/ (status (sent req res) = 304 /\ status res <> 200).
Proof.
  unfold sent, fresh.
  destruct (http_verb req) as [[| |]| | |]; try (now left);
    destruct ((200 <=? status res) && (status res <? 300) && http_fresh req res);
    try (now left);
    (destruct (Nat.eq_dec (status res) 200);
     [right; left; cbn; tauto | right; right; now cbn]).
Qed.

Lemma dispatch_statuses (st : store) (req : http_request) (body : json) :
  In (status (snd (dispatch st req body)))
     match http_verb req with
     | Verb POST => [201; 400; 409; 422; 404]
     | Verb GET | HEAD => [200; 304; 400; 404]
     | Verb DELETE => [204; 400; 404]
     | OPTIONS | OtherVerb => [400; 404]
     end.
Proof.
  assert (Hsent : forall res, status res = 200 \/ status res = 400 \/ status res = 404 ->
            In (status (sent req res)) [200; 304; 400; 404]).
  { intros res H. destruct (sent_status req res) as [E|[[E _]|[E _]]];
      rewrite E; [destruct H as [->|[->| ->]]| |]; simpl; tauto. }
  assert (Hlist : In (status (sent req (get_strings st (http_query req))))
                     [200; 304; 400; 404]).
  { apply Hsent. destruct (get_strings_failure st (http_query req)) as [->|[-> _]];
      simpl; tauto. }
  assert (Hget : forall value, In (status (sent req (get_string st value)))
                                  [200; 304; 400; 404]).
  { intros value. apply Hsent.
    destruct (get_string_failure st value) as [->|[-> _]]; simpl; tauto. }
  assert (Hpost : In (status (snd (post_strings st (handled req body))))
                     [201; 400; 409; 422; 404]).
  { pose proof (post_strings_failure st (handled req body)) as H.
    destruct (post_strings st (handled req body)) as [st' res]. cbn [snd].
    destruct H as [->|[[->|[->| ->]] _]]; simpl; tauto. }
  assert (Hdel : forall value, In (status (snd (delete_string st value))) [204; 400; 404]).
  { intros value. pose proof (delete_string_failure st value) as H.
    destruct (delete_string st value) as [st' res]. cbn [snd].
    destruct H as [[-> _]|[-> _]]; simpl; tauto. }
  unfold dispatch.
  destruct (http_path req) as [|x [|raw [|extra rest]]].
  - destruct (http_verb req) as [[| |]| | |]; simpl; tauto.
  - destruct (lit_eqb (js "strings") x);
      destruct (http_verb req) as [[| |]| | |]; cbn [snd]; try (simpl; tauto);
      assumption.
  - destruct (lit_eqb (js "strings") x && negb (isNil raw));
      [destruct (decodeURIComponent raw) as [value|]|];
      destruct (http_verb req) as [[| |]| | |]; cbn [snd]; try (simpl; tauto);
      auto.
  - destruct (http_verb req) as [[| |]| | |]; simpl; tauto.
Qed.

Lemma app_statuses (st : store) (req : http_request) :
  In (status (snd (Express.app st req))) (statuses req).
Proof.
  unfold statuses.
  destruct (Express.app st req) as [st' res] eqn:E. cbn [snd].
  destruct (http_body req) as [code|body] eqn:Eb.
  - unfold Express.app, application in E. rewrite Eb in E.
    destruct (http_verb req) as [[| |]| | |]; injection E as _ <-; now left.
  - destruct (http_verb req) as [m| | |] eqn:Ev.
    1, 2, 4: rewrite (app_dispatch st req body) in E
               by (try rewrite Ev; try discriminate; assumption);
             pose proof (dispatch_statuses st req body) as H;
             rewrite E, Ev in H; exact H.
    unfold Express.app, application in E. rewrite Ev in E.
    injection E as _ <-. now left.
Qed.

Lemma app_v1_statuses (st : store) (req : http_request) :
  In (status (snd (Express.app_v1 st req))) (statuses req).
Proof.
  rewrite app_v1_mounted. destruct (below_api_v1 (http_path req)).
  - exact (app_statuses st (with_path (skipn 2 (http_path req)) req)).
  - unfold statuses, application. cbn [findLayer].
    destruct (http_verb req) as [[| |]| | |], (http_body req); simpl; tauto.
Qed.

(** Status codes.  Through either application an [OPTIONS] request is
    answered 204 and a request whose body the parser refuses the status of
    the parser; of the others a [POST] is answered 201, 400, 409, 422 or
    404, a [GET] or a [HEAD] 200, 304, 400 or 404, a [DELETE] 204, 400 or
    404 and any other method 400 or 404: no request that the parser lets
    through is answered 500. *)
Theorem status_codes (st : store) (req : http_request) :
  In (status (snd (Express.app st req))) (statuses req)
  /\ In (status (snd (Express.app_v1 st req))) (statuses req)
  /\ (forall body, http_body req = Parsed body ->
        status (snd (Express.app st req)) <> 500
        /\ status (snd (Express.app_v1 st req)) <> 500)
  /\ (forall code, http_body req = Refused code -> http_verb req <> OPTIONS ->
        status (snd (Express.app st req)) = code
        /\ status (snd (Express.app_v1 st req)) = code).
Proof.
  pose proof (app_statuses st req) as H1.
  pose proof (app_v1_statuses st req) as H2.
  split; [exact H1|]. split; [exact H2|]. split.
  - intros body Hb. unfold statuses in H1, H2. rewrite Hb in H1, H2.
    split; intros E; [rewrite E in H1 | rewrite E in H2];
      destruct (http_verb req) as [[| |]| | |]; simpl in *;
      repeat match goal with H : _ \/ _ |- _ => destruct H as [H|H] end;
      try discriminate; contradiction.
  - intros code Hb Hv. unfold statuses in H1, H2. rewrite Hb in H1, H2.
    destruct (http_verb req) as [[| |]| | |]; try contradiction; simpl in *;
      intuition congruence.
Qed.

(** The dispatch table.  The application of [server.js] answers an
    [OPTIONS] request 204 and a request whose body the parser refuses the
    error of the parser, both before any route; every other request by
    method and path as the table [dispatch] says: [POST], [GET] and [HEAD]
    on the collection, [GET], [HEAD] and [DELETE] on an element, the segment
    [strings] compared as it was sent, in any ASCII case, and the value
    decoded; a value that does not decode is answered 400 whatever the
    method; a path of no segment or of three and more is answered 404; and
    a [HEAD] is answered as the [GET] would be, with its status and without
    its body. *)
Theorem dispatch_table (st : store) (req : http_request) :
  (http_verb req = OPTIONS ->
     Express.app st req = (st, {| status := 204; body := NoBody |}))
  /\ (forall code, http_verb req <> OPTIONS -> http_body req = Refused code ->
        Express.app st req = (st, page code (http_verb req)))
  /\ (forall body, http_verb req <> OPTIONS -> http_body req = Parsed body ->
        Express.app st req = dispatch st req body
        /\ (forall x raw, http_path req = [x; raw] ->
              lit_eqb (js "strings") x = true -> raw <> [] ->
              decodeURIComponent raw = None ->
              Express.app st req = (st, page 400 (http_verb req)))
        /\ (forall x, http_path req = [x] -> lit_eqb (js "strings") x = false ->
              Express.app st req = (st, page 404 (http_verb req)))
        /\ (2 < List.length (http_path req) \/ http_path req = [] ->
              Express.app st req = (st, page 404 (http_verb req))))
  /\ (http_verb req = HEAD ->
        Express.app st req
        = (fst (Express.app st (with_verb (Verb GET) req)),
           {| status := status (snd (Express.app st (with_verb (Verb GET) req)));
              body := NoBody |})).
Proof.
  split; [|split; [|split]].
  - intros Hv. unfold Express.app, application. now rewrite Hv.
  - intros code Hv Hb. unfold Express.app, application. rewrite Hb.
    now destruct (http_verb req) as [[| |]| | |].
  - intros body Hv Hb. rewrite (app_dispatch st req body Hv Hb).
    split; [reflexivity|]. unfold dispatch. split; [|split].
    + intros x raw -> Hx Hraw Hd. rewrite Hx, Hd.
      now destruct raw.
    + intros x -> Hx. now rewrite Hx.
    + destruct (http_path req) as [|x [|raw [|extra rest]]]; simpl;
        intros [H|H]; try lia; try discriminate; reflexivity.
  - intros Hv. destruct (http_body req) as [code|body] eqn:Eb.
    + unfold Express.app, application.
      cbn [with_verb http_verb http_body]. now rewrite Hv, Eb.
    + rewrite (app_dispatch st req body) by (try rewrite Hv; try discriminate; assumption).
      rewrite (app_dispatch st (with_verb (Verb GET) req) body)
        by (try discriminate; assumption).
      unfold dispatch, sent, fresh.
      cbn [with_verb http_verb http_path http_query http_fresh]. rewrite Hv.
      destruct (http_path req) as [|x [|raw [|extra rest]]]; try reflexivity.
      * destruct (lit_eqb (js "strings") x); [|reflexivity]. cbn [fst snd].
        now destruct ((200 <=? status (get_strings st (http_query req)))
                      && (status (get_strings st (http_query req)) <? 300)
                      && http_fresh req (get_strings st (http_query req))).
      * destruct (lit_eqb (js "strings") x && negb (isNil raw)); [|reflexivity].
        destruct (decodeURIComponent raw) as [value|]; [|reflexivity].
        cbn [fst snd].
        now destruct ((200 <=? status (get_string st value))
                      && (status (get_string st value) <? 300)
                      && http_fresh req (get_string st value)).
Qed.

Lemma app_create (st : store) (s : jsstring) :
  Express.app st (http_create s)
  = if Map_has st s
    then (st, sendError 409 "String already exists")
    else (Map_set st s (analyse s),
          {| status := 201; body := RecordBody (analyse s) |}).
Proof.
  rewrite (app_dispatch st (http_create s) (JObject [(js "value", JString s)]))
    by (try discriminate; reflexivity).
  unfold dispatch. cbn [http_create http_path http_verb].
  change (lit_eqb (js "strings") (js "strings")) with true. cbv iota.
  exact (post_strings_create st [js "strings"] s).
Qed.

Lemma app_get (st : store) (raw value : jsstring) :
  raw <> [] -> decodeURIComponent raw = Some value ->
  Express.app st (http_get raw) = (st, get_string st value).
Proof.
  intros Hraw Hd.
  rewrite (app_dispatch st (http_get raw) (JObject []))
    by (try discriminate; reflexivity).
  unfold dispatch. cbn [http_get http_path http_verb].
  change (lit_eqb (js "strings") (js "strings")) with true.
  destruct raw; [contradiction|]. cbn [isNil negb andb]. rewrite Hd.
  unfold sent, fresh. cbn [http_verb http_fresh].
  now rewrite andb_false_r.
Qed.

Lemma app_delete (st : store) (raw value : jsstring) :
  raw <> [] -> decodeURIComponent raw = Some value ->
  Express.app st (http_delete raw) = delete_string st value.
Proof.
  intros Hraw Hd.
  rewrite (app_dispatch st (http_delete raw) (JObject []))
    by (try discriminate; reflexivity).
  unfold dispatch. cbn [http_delete http_path http_verb].
  change (lit_eqb (js "strings") (js "strings")) with true.
  destruct raw; [contradiction|]. cbn [isNil negb andb]. now rewrite Hd.
Qed.

(** Round trip.  A string that is not yet stored, once created through a
    [POST /strings] that the body parser lets through, is returned by a
    plain [GET /strings/<raw>], for every segment [raw] that decodes to the
    string, with the very record of the 201 response, and the store is the
    same after the [GET]; a segment that does not decode is answered 400. *)
Theorem post_then_get (st : store) (s raw : jsstring) :
  raw <> [] -> decodeURIComponent raw = Some s -> Map_has st s = false ->
  status (snd (Express.app st (http_create s))) = 201
  /\ body (snd (Express.app st (http_create s))) = RecordBody (analyse s)
  /\ Express.app (fst (Express.app st (http_create s))) (http_get raw)
     = (fst (Express.app st (http_create s)),
        {| status := 200; body := body (snd (Express.app st (http_create s))) |})
  /\ (forall other, other <> [] -> decodeURIComponent other = None ->
        Express.app (fst (Express.app st (http_create s))) (http_get other)
        = (fst (Express.app st (http_create s)),
           {| status := 400; body := HtmlPage |})).
Proof.
  intros Hraw Hd Habsent. rewrite app_create, Habsent. cbn [fst snd status body].
  split; [reflexivity|]. split; [reflexivity|]. split.
  - rewrite (app_get _ raw s Hraw Hd). unfold get_string.
    now rewrite Map_has_set_same, Map_get_set_same.
  - intros other Ho Hn.
    rewrite (app_dispatch _ (http_get other) (JObject []))
      by (try discriminate; reflexivity).
    unfold dispatch. cbn [http_get http_path http_verb].
    change (lit_eqb (js "strings") (js "strings")) with true.
    destruct other; [contradiction|]. cbn [isNil negb andb]. now rewrite Hn.
Qed.

(** Create, create, delete, create.  For a string that is not stored and a
    segment that decodes to it, the four requests [POST], [POST], [DELETE],
    [POST], with bodies the parser lets through, are answered 201, 409, 204
    and 201 by the application of [server.js]; the second [POST] leaves the
    store as the first one made it, and at the end the string is stored with
    its record. *)
Theorem create_delete_create_session (st : store) (s raw : jsstring) :
  raw <> [] -> decodeURIComponent raw = Some s -> Map_has st s = false ->
  map status (snd (exchange Express.app st
                     [http_create s; http_create s; http_delete raw; http_create s]))
  = [201; 409; 204; 201]
  /\ fst (exchange Express.app st [http_create s; http_create s])
     = fst (exchange Express.app st [http_create s])
  /\ Map_has (fst (exchange Express.app st
                     [http_create s; http_create s; http_delete raw])) s = false
  /\ Map_get (fst (exchange Express.app st
                     [http_create s; http_create s; http_delete raw; http_create s])) s
     = Some (analyse s).
Proof.
  intros Hraw Hd Habsent. cbn [exchange].
  rewrite app_create, Habsent.
  rewrite app_create, Map_has_set_same.
  rewrite (app_delete _ raw s Hraw Hd). unfold delete_string.
  rewrite Map_has_set_same. cbn [negb].
  rewrite app_create, Map_has_delete_same.
  cbn [fst snd map status sendError].
  split; [reflexivity|]. split; [reflexivity|].
  split; [apply Map_has_delete_same | apply Map_get_set_same].
Qed.

(** On a request with no percent sign in its path the application behind
    its middleware answers as the router of the part above. *)
Lemma app_arriving (st : store) (req : request) :
  forallb (forallb (fun c => negb (c =? 37)%N)) (req_path req) = true ->
  Express.app st (arriving req) = server st req.
Proof.
  intros Hp.
  rewrite (app_dispatch st (arriving req)
             match req_body req with Some b => b | None => JObject [] end)
    by (try discriminate; reflexivity).
  unfold dispatch, server, serve, server_routes, sent, fresh.
  cbn [findRoute route_method route_path arriving http_verb http_path
       http_query http_fresh].
  assert (Hpost : post_strings st (handled (arriving req)
                    match req_body req with Some b => b | None => JObject [] end)
                  = post_strings st req).
  { unfold post_strings. cbn [handled req_body]. now destruct (req_body req). }
  destruct (req_path req) as [|x [|raw [|extra rest]]]; cbn [matchPath].
  - now destruct (req_method req).
  - destruct (lit_eqb (js "strings") x); cbn [andb];
      destruct (req_method req); cbn [method_eqb route_handler];
      unfold h_create, h_list; rewrite ?andb_false_r; try reflexivity.
    rewrite Hpost. now destruct (post_strings st req).
  - destruct (lit_eqb (js "strings") x); cbn [andb];
      [|now destruct (req_method req)].
    destruct raw as [|c raw]; cbn [isNil negb].
    + rewrite (lit_eqb_nil (js "query")) by discriminate.
      now destruct (req_method req).
    + rewrite decode_plain
        by (cbn [forallb] in Hp; now apply andb_true_iff in Hp as [_ [Hp _]%andb_true_iff]).
      destruct (req_method req); cbn [method_eqb route_handler param_value hd];
        unfold h_get, h_delete; cbn [param_value hd]; rewrite ?andb_false_r;
        try reflexivity.
      now destruct (delete_string st (c :: raw)).
  - destruct (lit_eqb (js "strings") x);
      [|now destruct (req_method req)].
    destruct (isNil raw), (lit_eqb (js "query") raw);
      now destruct (req_method req).
Qed.
End Middleware.

(** "hello world", created in the empty store and fetched back with the
    space escaped. *)
Lemma post_then_get_witness :
  status (snd (@Express.app asciiHost [] (http_create (js "hello world")))) = 201%nat
  /\ body (snd (@Express.app asciiHost [] (http_create (js "hello world"))))
     = RecordBody (@analyse asciiHost (js "hello world"))
  /\ @Express.app asciiHost
       (fst (@Express.app asciiHost [] (http_create (js "hello world"))))
       (http_get hello_world_escaped)
     = (fst (@Express.app asciiHost [] (http_create (js "hello world"))),
        {| status := 200%nat;
           body := body (snd (@Express.app asciiHost [] (http_create (js "hello world")))) |}).
Proof.
  pose proof (@post_then_get asciiHost [] (js "hello world") hello_world_escaped)
    as H.
  destruct H as [H1 [H2 [H3 _]]]; [discriminate | reflexivity | reflexivity |].
  split; [exact H1|]. split; [exact H2 | exact H3].
Defined.

(** The session on "hello world" from the empty store, at the ASCII host. *)
Lemma create_delete_create_session_witness :
  map status (snd (exchange (@Express.app asciiHost) []
                     [http_create (js "hello world"); http_create (js "hello world");
                      http_delete hello_world_escaped; http_create (js "hello world")]))
  = [201; 409; 204; 201]%nat.
Proof.
  apply (@create_delete_create_session asciiHost [] (js "hello world")
           hello_world_escaped); [discriminate | reflexivity | reflexivity].
Defined.
